(** * FocusAR Roadmapper: the fractal task engine (js/fractal.js) and
      the task manager (js/task-manager.js)

    A shallow embedding of [FractalNode] and [FractalAlgorithm], in two
    forms, and the properties of their scoring, layout and decomposition
    code.

    - The functional form ([FractalNode], [FractalAlgorithm]): a task and
      a node are values, a method that changes its object returns the
      changed object.  Scores, depths, positions and stubs are stated and
      proved on this form.
    - The store form ([Store]): a task, a node and an array are cells of
      a store, a method changes cells.  The store form is proved to
      return what the functional form computes, and to leave the objects
      it is given alone.
    - The task manager ([TaskManager]): its methods run on a state of
      the map of tasks, the storage, the clock and the calls made to
      listeners, and return or throw.  With it, the table of status
      classes of the application ([FocusARApp.getStatusClass], js/app.js).

    Conventions.
    - A JavaScript Number that the code obtains from integers by [+], [*],
      [/], [Math.min], [Math.max] and [Math.ceil] is an exact rational
      ([Q]); a coordinate, which goes through [Math.cos] and [Math.sin], is
      a real ([R]).  The rounding of IEEE doubles is not modelled, except
      for the layout: [FractalNode.updateLayout_in] computes the
      coordinates with every operation rounded ([Arithmetic]), and
      [Double] computes them on the doubles themselves.
      Division is total, as in JavaScript; where the code divides by a
      count, the count is positive, except in [updateLayout], whose
      quotient by a zero count is not used, and [maxDepth] is taken
      positive where a property depends on the quotient by it.  [NaN],
      which the code gets from an absent property, is modelled where it
      arises ([number]).
    - A string is a sequence of Latin-1 code units ([string]).
    - An optional property of a task object is an [option]. *)

From Stdlib Require Import List String Ascii Bool Arith ZArith QArith Qminmax Qround.
From Stdlib Require Import Reals Lia Lqa Lra DecimalString Qreals.
From Corelib Require PrimFloat FloatOps SpecFloat.
Import ListNotations.

Set Implicit Arguments.
#[local] Set Warnings "-register-all".
#[local] Set Warnings "-inexact-float".

Local Open Scope string_scope.
Local Open Scope Q_scope.

(* ================================================================== *)
(** * Strings *)
(* ================================================================== *)

Module Js.

Definition code (c : ascii) : nat := nat_of_ascii c.

Definition between (lo hi : nat) (c : ascii) : bool :=
  (lo <=? code c)%nat && (code c <=? hi)%nat.

(** [\s] of a regular expression and the characters [trim] strips:
    TAB, LF, VT, FF, CR, space and the no-break space. *)
Definition is_space (c : ascii) : bool :=
  between 9 13 c || (code c =? 32)%nat || (code c =? 160)%nat.

(** [\w]: [A-Za-z0-9_]. *)
Definition is_word (c : ascii) : bool :=
  between 48 57 c || between 65 90 c || (code c =? 95)%nat || between 97 122 c.

(** [[.!?]] *)
Definition is_terminator (c : ascii) : bool :=
  (code c =? 46)%nat || (code c =? 33)%nat || (code c =? 63)%nat.

(** [[,.!?]], the complement of the class [[^,.!?]] *)
Definition is_stop (c : ascii) : bool :=
  (code c =? 44)%nat || is_terminator c.

Definition toLower_char (c : ascii) : ascii :=
  if between 65 90 c || (between 192 222 c && negb (code c =? 215)%nat)
  then ascii_of_nat (code c + 32)
  else c.

(** [s.toLowerCase()] *)
Fixpoint toLowerCase (s : string) : string :=
  match s with
  | EmptyString => EmptyString
  | String c s' => String (toLower_char c) (toLowerCase s')
  end.

(** [hay.includes(needle)] *)
Fixpoint includes (hay needle : string) : bool :=
  prefix needle hay ||
  match hay with
  | EmptyString => false
  | String _ hay' => includes hay' needle
  end.

(** A string is falsy exactly when it is empty. *)
Definition truthy (s : string) : bool :=
  match s with EmptyString => false | String _ _ => true end.

(** [s.split(/[class]+/)]: the pieces between the maximal runs of
    delimiter characters.  [in_run] tells that the previous character
    was a delimiter; the head of the result is the piece being read. *)
Fixpoint split_from (delim : ascii -> bool) (in_run : bool) (s : string)
  : list string :=
  match s with
  | EmptyString => [EmptyString]
  | String c s' =>
      if delim c then
        if in_run then split_from delim true s'
        else EmptyString :: split_from delim true s'
      else
        match split_from delim false s' with
        | piece :: pieces => String c piece :: pieces
        | [] => [String c EmptyString]
        end
  end.

Definition split (delim : ascii -> bool) (s : string) : list string :=
  split_from delim false s.

(** The longest prefix of characters satisfying [p], and the rest. *)
Fixpoint span (p : ascii -> bool) (s : string) : string * string :=
  match s with
  | EmptyString => (EmptyString, EmptyString)
  | String c s' =>
      if p c then let (a, b) := span p s' in (String c a, b)
      else (EmptyString, s)
  end.

Fixpoint dropWhile (p : ascii -> bool) (s : string) : string :=
  match s with
  | EmptyString => EmptyString
  | String c s' => if p c then dropWhile p s' else s
  end.

Fixpoint rev_onto (s acc : string) : string :=
  match s with
  | EmptyString => acc
  | String c s' => rev_onto s' (String c acc)
  end.

Definition rev (s : string) : string := rev_onto s EmptyString.

(** [s.trim()] *)
Definition trim (s : string) : string :=
  rev (dropWhile is_space (rev (dropWhile is_space s))).

Fixpoint last_char (s : string) : option ascii :=
  match s with
  | EmptyString => None
  | String c EmptyString => Some c
  | String _ s' => last_char s'
  end.

Fixpoint drop (n : nat) (s : string) : string :=
  match n, s with
  | O, _ => s
  | S n', String _ s' => drop n' s'
  | S _, EmptyString => EmptyString
  end.

(** A word of an alternation [(w1|w2|...)] matched at the head of [s]
    under the [i] flag; the words are lower case. *)
Definition starts_with_ci (s word : string) : bool :=
  prefix word (toLowerCase s).

(** [\b] after a match of [word] at the head of [s]: the word is made of
    word characters, so the boundary holds when no word character
    follows. *)
Definition boundary_after (s word : string) : bool :=
  match get (String.length word) s with
  | Some c => negb (is_word c)
  | None => true
  end.

(** [text.match(/\b(w1|w2|...)\b/gi)], counted.  [prev_word] tells that
    the previous character is a word character, in which case [\b] fails
    before a word; inside a match every position has a word character
    before it, so the scan for the next match may resume at the next
    position. *)
Fixpoint count_words (words : list string) (prev_word : bool) (s : string)
  : nat :=
  match s with
  | EmptyString => 0
  | String c s' =>
      (if negb prev_word
          && existsb (fun w => starts_with_ci s w && boundary_after s w) words
       then 1 else 0)%nat
      + count_words words (is_word c) s'
  end.

(** [`${n}`] for a non-negative integer. *)
Definition of_nat (n : nat) : string :=
  match n with
  | O => "0"
  | _ => NilEmpty.string_of_uint (Nat.to_uint n)
  end.

End Js.

(* ================================================================== *)
(** * Numbers that may be NaN *)
(* ================================================================== *)

Inductive number : Type :=
| NaN
| Num (q : Q).

(** [a * b] where [a] is a property that may be absent: [undefined * b]
    is [NaN]. *)
Definition mul_field (a : option Q) (b : Q) : number :=
  match a with
  | Some q => Num (q * b)
  | None => NaN
  end.

(** [a + b] *)
Definition number_add (a b : number) : number :=
  match a, b with
  | Num p, Num q => Num (p + q)
  | _, _ => NaN
  end.

(* ================================================================== *)
(** * Tasks *)
(* ================================================================== *)

(** A point [{x, y, z}]. *)
Record Position : Type := { x : R; y : R; z : R }.

Module Task.

#[local] Unset Elimination Schemes.

(** A task object as the task manager stores it and as
    [FractalAlgorithm] reads it.  [subtasks] and [dependencies] are
    arrays when present; [complexity] is a Number when present;
    [position] is the point the task manager gives a stored task. *)
Inductive t : Type := make {
  id : string;
  title : string;
  description : option string;
  status : option string;
  parentId : option string;
  subtasks : option (list t);
  dependencies : option (list string);
  complexity : option Q;
  created : string;
  position : option Position
}.
#[local] Set Elimination Schemes.

End Task.

(** [xs.length] as a Number. *)
Definition len {A : Type} (xs : list A) : Q := inject_Z (Z.of_nat (List.length xs)).

(** [s.length] as a Number. *)
Definition str_len (s : string) : Q := inject_Z (Z.of_nat (String.length s)).

(** [xs.forEach((x, index) => ...)] collecting what the callback makes of
    each element. *)
Fixpoint mapi_from {A B : Type} (f : nat -> A -> B) (index : nat) (xs : list A)
  : list B :=
  match xs with
  | [] => []
  | x :: xs' => f index x :: mapi_from f (S index) xs'
  end.

Definition mapi {A B : Type} (f : nat -> A -> B) (xs : list A) : list B :=
  mapi_from f 0 xs.

(* ================================================================== *)
(** * Arithmetic of coordinates *)
(* ================================================================== *)

(** What the coordinates are computed with: how the real result of an
    operation is rounded to a Number, what [Math.PI] is, and what
    [Math.cos] and [Math.sin] return. *)
Record Arithmetic : Type := {
  rounded : R -> R;
  Math_PI : R;
  Math_cos : R -> R;
  Math_sin : R -> R
}.

(** Arithmetic without rounding. *)
Definition exact : Arithmetic :=
  {| rounded := fun v => v; Math_PI := PI; Math_cos := cos; Math_sin := sin |}.

(** Arithmetic of unit roundoff [u]: every operation returns its real
    result with a relative error of at most [u], [Math.PI] is [PI] so
    rounded, and [Math.cos] and [Math.sin] are within [2 * u] of the
    cosine and the sine.  For doubles that neither overflow nor
    underflow, [u] is [2^-53]. *)
Definition accurate (A : Arithmetic) (u : R) : Prop :=
  (0 <= u <= / 1024)%R
  /\ (forall v, Rabs (rounded A v - v) <= u * Rabs v)%R
  /\ (Rabs (Math_PI A - PI) <= u * PI)%R
  /\ (forall a, Rabs (Math_cos A a - cos a) <= 2 * u)%R
  /\ (forall a, Rabs (Math_sin A a - sin a) <= 2 * u)%R.

(* ================================================================== *)
(** * class FractalNode *)
(* ================================================================== *)

Module FractalNode.

#[local] Unset Elimination Schemes.

(** The fields of a [FractalNode]. *)
Inductive t : Type := make {
  task : Task.t;
  depth : nat;
  children : list t;
  position : Position;
  size : Q;
  complexity : Q
}.
#[local] Set Elimination Schemes.

Definition set_children (this : t) (cs : list t) : t :=
  make (task this) (depth this) cs (position this) (size this) (complexity this).

Definition set_position (this : t) (p : Position) : t :=
  make (task this) (depth this) (children this) p (size this) (complexity this).

Definition calculateComplexity (task : Task.t) : Q :=
  let score := 1 in
  let score :=
    match Task.description task with
    | Some d => if Js.truthy d then score + Qmin 5 (str_len d / 100) else score
    | None => score
    end in
  let score :=
    match Task.subtasks task with
    | Some subtasks => score + len subtasks
    | None => score
    end in
  Qmin 10 score.

(** [new FractalNode(task, depth)] *)
Definition new (task : Task.t) (depth : nat) : t :=
  {| task := task;
     depth := depth;
     children := [];
     position := {| x := 0; y := 0; z := 0 |};
     size := 1.0;
     complexity := calculateComplexity task |}.

(** Where [updateLayout] puts the child of index [index] of a node at
    [p] with [n] children. *)
Definition child_position (p : Position) (n index : nat) : Position :=
  let angleStep := (2 * PI / INR n)%R in
  let radius := Rmax 0.5 (INR n * 0.2) in
  let angle := (angleStep * INR index)%R in
  {| x := x p + cos angle * radius;
     y := y p - 0.5;
     z := z p + sin angle * radius |}.

(** [this.position = p; this.updateLayout()]: the assignment the caller
    makes to a child and the call that follows it, as one recursive
    function, so that the recursion is on the children of [this]. *)
Fixpoint place (p : Position) (this : t) : t :=
  {| task := task this;
     depth := depth this;
     children :=
       mapi_from
         (fun index child =>
            place (child_position p (List.length (children this)) index) child)
         0 (children this);
     position := p;
     size := size this;
     complexity := complexity this |}.

(** [this.updateLayout()] *)
Definition updateLayout (this : t) : t :=
  set_children this
    (mapi
       (fun index child =>
          place (child_position (position this) (List.length (children this)) index)
                child)
       (children this)).

(** [this.addChild(child)] *)
Definition addChild (this child : t) : t :=
  updateLayout (set_children this (children this ++ [child])%list).

(** [child_position], [place] and [updateLayout] once more, with every
    operation rounded as the arithmetic [A] has it: [2 * Math.PI], the
    quotient by the number of children, the literal [0.2], the products
    and the sums.  The number of children and the index are whole
    numbers, and [0.5] and [2] are Numbers as they are. *)
Definition child_position_in (A : Arithmetic) (p : Position) (n index : nat)
  : Position :=
  let angleStep := rounded A (rounded A (2 * Math_PI A) / INR n) in
  let radius := Rmax 0.5 (rounded A (INR n * rounded A 0.2)) in
  let angle := rounded A (angleStep * INR index) in
  {| x := rounded A (x p + rounded A (Math_cos A angle * radius));
     y := rounded A (y p - 0.5);
     z := rounded A (z p + rounded A (Math_sin A angle * radius)) |}.

Fixpoint place_in (A : Arithmetic) (p : Position) (this : t) : t :=
  {| task := task this;
     depth := depth this;
     children :=
       mapi_from
         (fun index child =>
            place_in A (child_position_in A p (List.length (children this)) index)
              child)
         0 (children this);
     position := p;
     size := size this;
     complexity := complexity this |}.

Definition updateLayout_in (A : Arithmetic) (this : t) : t :=
  set_children this
    (mapi
       (fun index child =>
          place_in A
            (child_position_in A (position this) (List.length (children this)) index)
            child)
       (children this)).

End FractalNode.

(* ================================================================== *)
(** * The layout on doubles *)
(* ================================================================== *)

(** The arithmetic of [updateLayout] on the doubles of the kernel:
    [+], [-], [*] and [/] are those of IEEE 754 binary64, and a literal is
    the double nearest to it, as in JavaScript. *)
Module Double.

Import PrimFloat FloatOps SpecFloat.
Local Open Scope float_scope.

Record Position : Type := { x : float; y : float; z : float }.

(** [Math.cos] and [Math.sin], which the language leaves to the engine
    ("implementation-approximated"). *)
Record Engine : Type := {
  Math_cos : float -> float;
  Math_sin : float -> float
}.

(** [Math.PI] *)
Definition Math_PI : float := 3.141592653589793.

(** [Math.max(a, b)] *)
Definition Math_max (a b : float) : float :=
  if is_nan a || is_nan b then nan
  else if a <? b then b
  else if b <? a then a
  else if is_zero a then a + b
  else a.

(** [Math.max(0.5, this.children.length * 0.2)] *)
Definition radius (n : float) : float := Math_max 0.5 (n * 0.2).

(** The position [updateLayout] gives the child of index [index] of a
    node at [p] with [n] children. *)
Definition child_position (E : Engine) (p : Position) (n index : float)
  : Position :=
  let angleStep := (2 * Math_PI) / n in
  let radius := Math_max 0.5 (n * 0.2) in
  let angle := angleStep * index in
  {| x := x p + Math_cos E angle * radius;
     y := y p - 0.5;
     z := z p + Math_sin E angle * radius |}.

(** The value of a double as a rational; none for an infinity and for
    [NaN]. *)
Definition to_Q (v : float) : option Q :=
  match Prim2SF v with
  | S754_zero _ => Some 0%Q
  | S754_finite s m e =>
      Some ((if s then -1 else 1) * inject_Z (Zpos m) * Qpower 2 e)%Q
  | _ => None
  end.

End Double.

(* ================================================================== *)
(** * class FractalAlgorithm *)
(* ================================================================== *)

(** What an expression that may throw evaluates to. *)
Inductive result (A : Type) : Type :=
| Ok (a : A)
| TypeError.
Arguments TypeError {A}.

Record Color : Type := { r : number; g : number; b : number }.

Record Connection : Type := {
  from : Position;
  to : Position;
  strength : Q
}.

Record Visualization : Type := {
  vis_size : Q;
  vis_color : Color;
  vis_position : Position;
  vis_connections : list Connection
}.

(** What [object[key]] finds: an own property, a property inherited from
    [Object.prototype], or nothing ([undefined]). *)
Inductive property (A : Type) : Type :=
| Own (a : A)
| Inherited
| Undefined.
Arguments Inherited {A}.
Arguments Undefined {A}.

(** The property names of [Object.prototype]. *)
Definition Object_prototype : list string :=
  [ "constructor"; "__defineGetter__"; "__defineSetter__"; "hasOwnProperty";
    "__lookupGetter__"; "__lookupSetter__"; "isPrototypeOf";
    "propertyIsEnumerable"; "toString"; "valueOf"; "__proto__";
    "toLocaleString" ]%string.

Fixpoint own_property {A : Type} (object : list (string * A)) (key : string)
  : option A :=
  match object with
  | [] => None
  | (k, v) :: object' => if String.eqb k key then Some v else own_property object' key
  end.

(** [object[key]] for an object literal. *)
Definition get_property {A : Type} (object : list (string * A)) (key : string)
  : property A :=
  match own_property object key with
  | Some v => Own v
  | None =>
      if existsb (String.eqb key) Object_prototype then Inherited else Undefined
  end.

(** [Math.pow(b, n)] for a natural exponent. *)
Fixpoint Math_pow (b : Q) (n : nat) : Q :=
  match n with
  | O => 1
  | S n' => b * Math_pow b n'
  end.

(** [Math.ceil(q)] *)
Definition Math_ceil (q : Q) : Z := Qceiling q.

(** The clock and the random source that [_createSubtask] reads: the
    values the successive calls of [Date.now()] (or [new Date()]) and of
    [Math.random()] return, and how many were read so far. *)
Record World : Type := {
  clock : nat -> Z;
  entropy : nat -> Q;
  clock_reads : nat;
  entropy_reads : nat
}.

(** A computation that reads the clock or the random source. *)
Definition M (A : Type) : Type := World -> A * World.

Definition ret {A : Type} (a : A) : M A := fun w => (a, w).

Definition bind {A B : Type} (m : M A) (k : A -> M B) : M B :=
  fun w => let (a, w') := m w in k a w'.

Declare Scope world_scope.
Delimit Scope world_scope with world.
Notation "x <- m ;; k" := (bind m (fun x => k))
  (at level 61, m at next level, right associativity) : world_scope.
Local Open Scope world_scope.

(** [Date.now()], and the instant of [new Date()] *)
Definition Date_now : M Z :=
  fun w =>
    (clock w (clock_reads w),
     {| clock := clock w; entropy := entropy w;
        clock_reads := S (clock_reads w); entropy_reads := entropy_reads w |}).

(** [Math.random()] *)
Definition Math_random : M Q :=
  fun w =>
    (entropy w (entropy_reads w),
     {| clock := clock w; entropy := entropy w;
        clock_reads := clock_reads w; entropy_reads := S (entropy_reads w) |}).

(** [for (...) { xs.push(body) }] over the elements of [xs], in order. *)
Fixpoint mapM {A B : Type} (f : A -> M B) (xs : list A) : M (list B) :=
  match xs with
  | [] => ret []
  | x :: xs' => y <- f x ;; ys <- mapM f xs' ;; ret (y :: ys)
  end.

Module Stub.

(** The object [_createSubtask] returns.  [created] is the instant that
    [new Date()] read; its ISO-8601 text is a rendering of that instant. *)
Record t : Type := make {
  id : Q;
  title : string;
  description : string;
  status : string;
  parentId : string;
  complexity : number;
  created : Z
}.

End Stub.

Module FractalAlgorithm.

Record t : Type := make {
  maxDepth : nat;
  minTaskSize : Q;
  spreadFactor : Q;
  root : option FractalNode.t
}.

(** [new FractalAlgorithm()] *)
Definition new : t :=
  {| maxDepth := 5; minTaskSize := 0.1; spreadFactor := 1.5; root := None |}.

Definition set_root (this : t) (node : FractalNode.t) : t :=
  make (maxDepth this) (minTaskSize this) (spreadFactor this) (Some node).

Fixpoint _buildTree (this : t) (task : Task.t) (depth : nat) : FractalNode.t :=
  let node := FractalNode.new task depth in
  if (depth <? maxDepth this)%nat then
    match Task.subtasks task with
    | Some subtasks =>
        fold_left
          (fun node subtask =>
             let childNode := _buildTree this subtask (depth + 1) in
             FractalNode.addChild node childNode)
          subtasks node
    | None => node
    end
  else node.

(** Returns the root node and the algorithm object, whose [root] now
    holds that node. *)
Definition createFractalTree (this : t) (task : Task.t) : FractalNode.t * t :=
  let root := _buildTree this task 0 in
  let root := FractalNode.set_position root {| x := 0; y := 2; z := 0 |} in
  let root := FractalNode.updateLayout root in
  (root, set_root this root).

Definition technical_terms : list string :=
  [ "implement"; "develop"; "create"; "integrate"; "optimize"; "refactor";
    "test" ]%string.

Definition _analyzeTextComplexity (text : string) : Q :=
  let words := len (Js.split Js.is_space text) in
  let sentences := len (Js.split Js.is_terminator text) in
  let technicalTerms :=
    inject_Z (Z.of_nat (Js.count_words technical_terms false text)) in
  Qmin 5 (words / 50 + sentences / 5 + technicalTerms * 0.5).

Fixpoint _analyzeComplexity (task : Task.t) : Q :=
  let score := 1 in
  let score :=
    match Task.description task with
    | Some d => if Js.truthy d then score + _analyzeTextComplexity d else score
    | None => score
    end in
  let score :=
    match Task.subtasks task with
    | Some subtasks =>
        fold_left
          (fun score subtask => score + _analyzeComplexity subtask * 0.5)
          subtasks (score + len subtasks)
    | None => score
    end in
  let score :=
    match Task.dependencies task with
    | Some dependencies => score + len dependencies * 0.5
    | None => score
    end in
  Qmin 10 score.

(** [task.description?.toLowerCase() || ''] *)
Definition lower_description (task : Task.t) : string :=
  match Task.description task with
  | Some d => Js.toLowerCase d
  | None => ""
  end.

Definition _identifyPatterns (task : Task.t) : list string :=
  let description := lower_description task in
  let patterns := [] in
  let patterns :=
    if Js.includes description "implement" || Js.includes description "develop"
       || Js.includes description "create"
    then (patterns ++ ["core-components"%string])%list else patterns in
  let patterns :=
    if Js.includes description "feature" || Js.includes description "functionality"
    then (patterns ++ ["feature-breakdown"%string])%list else patterns in
  let patterns :=
    if Js.includes description "improve" || Js.includes description "optimize"
    then (patterns ++ ["optimization"%string])%list else patterns in
  patterns.

Definition feature_verbs : list string :=
  [ "implement"; "add"; "create"; "develop" ]%string.

(** What follows the verb in [/\b(...)\s+([^,.!?]+)/]: group 2, if the
    rest of the pattern matches.  [\s+] takes the whole run of white
    space; when a stop character or the end follows the run, it gives one
    white-space character back, which is then all of group 2. *)
Definition match_phrase (rest : string) : option string :=
  let (spaces, after) := Js.span Js.is_space rest in
  let (phrase, _) := Js.span (fun c => negb (Js.is_stop c)) after in
  match spaces with
  | EmptyString => None
  | String _ more =>
      if Js.truthy phrase then Some phrase
      else match Js.last_char more with
           | Some c => Some (String c EmptyString)
           | None => None
           end
  end.

(** The match of a verb and its phrase at the head of [s]. *)
Definition match_feature_here (s : string) : option string :=
  match find (Js.starts_with_ci s) feature_verbs with
  | Some verb => match_phrase (Js.drop (String.length verb) s)
  | None => None
  end.

(** [sentence.match(/\b(implement|add|create|develop)\s+([^,.!?]+)/i)]:
    group 2 of the leftmost match.  No verb is the beginning of another,
    so at most one of them matches at a position and the order of the
    alternatives does not matter. *)
Fixpoint match_feature (prev_word : bool) (s : string) : option string :=
  match s with
  | EmptyString => None
  | String c s' =>
      match (if prev_word then None else match_feature_here s) with
      | Some phrase => Some phrase
      | None => match_feature (Js.is_word c) s'
      end
  end.

Definition _extractFeatures (description : string) : list string :=
  let sentences := Js.split Js.is_terminator description in
  let features :=
    flat_map
      (fun sentence =>
         match match_feature false sentence with
         | Some phrase => [Js.trim phrase]
         | None => []
         end)
      sentences in
  if (0 <? List.length features)%nat then features else ["Core Feature"%string].

Definition _createSubtask (parentTask : Task.t) (title : string)
    (complexityFactor : Q) : M Stub.t :=
  now <- Date_now ;;
  random <- Math_random ;;
  date <- Date_now ;;
  ret {| Stub.id := inject_Z now + random;
         Stub.title := title;
         Stub.description := "Part of: " ++ Task.title parentTask;
         Stub.status := "Not Started";
         Stub.parentId := Task.id parentTask;
         Stub.complexity := mul_field (Task.complexity parentTask) complexityFactor;
         Stub.created := date |}.

(** [patterns.includes(p)] *)
Definition has_pattern (patterns : list string) (p : string) : bool :=
  existsb (String.eqb p) patterns.

Definition suggestDecomposition (task : Task.t) : M (list Stub.t) :=
  let complexity := _analyzeComplexity task in
  let patterns := _identifyPatterns task in
  if has_pattern patterns "core-components" then
    s1 <- _createSubtask task "Research & Planning" 0.2 ;;
    s2 <- _createSubtask task "Core Implementation" 0.4 ;;
    s3 <- _createSubtask task "Testing & Validation" 0.2 ;;
    s4 <- _createSubtask task "Documentation" 0.2 ;;
    ret [s1; s2; s3; s4]
  else if has_pattern patterns "feature-breakdown" then
    (* the pattern fired, so the description is a string
       (see [feature_breakdown_has_description]) *)
    let features :=
      _extractFeatures
        (match Task.description task with Some d => d | None => "" end) in
    mapM (fun feature => _createSubtask task feature (1.0 / len features)) features
  else
    let numSubtasks := Z.to_nat (Z.max 2 (Z.min 5 (Math_ceil (complexity / 2)))) in
    mapM
      (fun i =>
         _createSubtask task ("Phase " ++ Js.of_nat (i + 1))
           (1.0 / inject_Z (Z.of_nat numSubtasks)))
      (seq 0 numSubtasks).

Definition _calculateSize (this : t) (node : FractalNode.t) : Q :=
  let depthFactor := Math_pow 0.8 (FractalNode.depth node) in
  let complexityFactor := 0.5 + FractalNode.complexity node / 20 in
  Qmax (minTaskSize this) (depthFactor * complexityFactor).

Definition baseColors : list (string * (Q * Q * Q)) :=
  [ ("Not Started"%string, (128, 128, 128));
    ("In Progress"%string, (79, 70, 229));
    ("Completed"%string, (34, 197, 94));
    ("Blocked"%string, (239, 68, 68)) ].

Definition _calculateColor (node : FractalNode.t) : result Color :=
  let status :=
    match Task.status (FractalNode.task node) with
    | Some s => if Js.truthy s then s else "Not Started"%string
    | None => "Not Started"%string
    end in
  let intensity := 0.5 + FractalNode.complexity node / 20 in
  match get_property baseColors status with
  | Own (cr, cg, cb) =>
      Ok {| r := Num (Qmin 255 (cr * intensity));
            g := Num (Qmin 255 (cg * intensity));
            b := Num (Qmin 255 (cb * intensity)) |}
  | Inherited =>
      (* [color] is a function or [Object.prototype]; its [r], [g] and
         [b] are [undefined] *)
      Ok {| r := NaN; g := NaN; b := NaN |}
  | Undefined =>
      (* [color] is [undefined] and [color.r] throws *)
      TypeError
  end.

Definition _calculateConnectionStrength (this : t) (parent child : FractalNode.t)
  : Q :=
  let depthFactor :=
    1 - inject_Z (Z.of_nat (FractalNode.depth child))
        / inject_Z (Z.of_nat (maxDepth this)) in
  let complexityFactor :=
    (FractalNode.complexity parent + FractalNode.complexity child) / 20 in
  Qmax 0.2 (Qmin 1 (depthFactor * complexityFactor)).

Fixpoint _calculateConnections (this : t) (node : FractalNode.t)
  : list Connection :=
  flat_map
    (fun child =>
       {| from := FractalNode.position node;
          to := FractalNode.position child;
          strength := _calculateConnectionStrength this node child |}
       :: _calculateConnections this child)
    (FractalNode.children node).

Definition generateVisualization (this : t) (node : FractalNode.t)
  : result Visualization :=
  let size := _calculateSize this node in
  match _calculateColor node with
  | Ok color =>
      Ok {| vis_size := size;
            vis_color := color;
            vis_position := FractalNode.position node;
            vis_connections := _calculateConnections this node |}
  | TypeError => TypeError
  end.

End FractalAlgorithm.

(* ================================================================== *)
(** * The same code over a store of objects *)
(* ================================================================== *)

(** Objects have an identity here: a task, a node and an array are cells
    of a store, a variable holds the location of one, and an assignment
    to a property or a [push] changes the cell.  This is the form in
    which the code can be said to leave the objects it is given alone. *)

Module Store.

Definition loc : Type := nat.

Record TaskObject : Type := {
  id : string;
  title : string;
  description : option string;
  status : option string;
  parentId : option string;
  subtasks : option loc;
  dependencies : option (list string);
  task_complexity : option Q;
  created : string;
  task_position : option Position
}.

Record NodeObject : Type := {
  task : loc;
  depth : nat;
  children : loc;
  position : Position;
  size : Q;
  complexity : Q
}.

(** A cell: a task, a [FractalNode], an array of object references, or
    an object made by [_createSubtask]. *)
Inductive object : Type :=
| OTask (t : TaskObject)
| ONode (n : NodeObject)
| OArray (elements : list loc)
| OStub (s : Stub.t).

(** The objects allocated so far, by location, and the clock and random
    source. *)
Record state : Type := {
  objects : list object;
  world : World
}.

(** A computation on the store; [None] when it throws or when the fuel
    of a recursion is used up. *)
Definition H (A : Type) : Type := state -> option (A * state).

Definition ret {A : Type} (a : A) : H A := fun st => Some (a, st).

Definition bind {A B : Type} (m : H A) (k : A -> H B) : H B :=
  fun st =>
    match m st with
    | Some (a, st') => k a st'
    | None => None
    end.

Definition throw {A : Type} : H A := fun _ => None.

Declare Scope store_scope.
Delimit Scope store_scope with store.
Notation "x <- m ;; k" := (bind m (fun x => k))
  (at level 61, m at next level, right associativity) : store_scope.
Notation "m ;;; k" := (bind m (fun _ => k))
  (at level 61, right associativity) : store_scope.
Local Open Scope store_scope.

(** The list [xs] with [x] at index [i]. *)
Fixpoint update {A : Type} (xs : list A) (i : nat) (x : A) : list A :=
  match xs, i with
  | [], _ => []
  | _ :: xs', O => x :: xs'
  | a :: xs', S i' => a :: update xs' i' x
  end.

(** A new object. *)
Definition alloc (o : object) : H loc :=
  fun st =>
    Some (List.length (objects st),
          {| objects := (objects st ++ [o])%list; world := world st |}).

Definition load (l : loc) : H object :=
  fun st =>
    match nth_error (objects st) l with
    | Some o => Some (o, st)
    | None => None
    end.

Definition store (l : loc) (o : object) : H unit :=
  fun st =>
    if (l <? List.length (objects st))%nat
    then Some (tt, {| objects := update (objects st) l o; world := world st |})
    else None.

(** Running a computation on the clock and the random source. *)
Definition lift {A : Type} (m : M A) : H A :=
  fun st =>
    let (a, w) := m (world st) in
    Some (a, {| objects := objects st; world := w |}).

Definition load_task (l : loc) : H TaskObject :=
  o <- load l ;;
  match o with OTask t => ret t | _ => throw end.

Definition load_node (l : loc) : H NodeObject :=
  o <- load l ;;
  match o with ONode n => ret n | _ => throw end.

Definition load_array (l : loc) : H (list loc) :=
  o <- load l ;;
  match o with OArray elements => ret elements | _ => throw end.

(** [array.push(x)] *)
Definition push (array : loc) (x : loc) : H unit :=
  elements <- load_array array ;;
  store array (OArray (elements ++ [x])%list).

(** [o.position = p], for whatever object [o] is: a node and a task both
    have the property.  No code assigns a position to an array or to a
    stub, and the model stops there. *)
Definition assign_position (l : loc) (p : Position) : H unit :=
  o <- load l ;;
  match o with
  | ONode n =>
      store l (ONode {| task := task n; depth := depth n; children := children n;
                        position := p; size := size n;
                        complexity := complexity n |})
  | OTask t =>
      store l (OTask {| id := id t; title := title t;
                        description := description t; status := status t;
                        parentId := parentId t; subtasks := subtasks t;
                        dependencies := dependencies t;
                        task_complexity := task_complexity t;
                        created := created t; task_position := Some p |})
  | OArray _ => throw
  | OStub _ => throw
  end.

(** [xs.forEach((x, index) => ...)] *)
Fixpoint forEach_from {A : Type} (f : nat -> A -> H unit) (index : nat)
    (xs : list A) : H unit :=
  match xs with
  | [] => ret tt
  | x :: xs' => f index x ;;; forEach_from f (S index) xs'
  end.

Definition forEach {A : Type} (f : A -> H unit) (xs : list A) : H unit :=
  forEach_from (fun _ => f) 0 xs.

(** [xs.forEach(x => { score += ...f(x)... })] *)
Fixpoint foldM {A B : Type} (f : B -> A -> H B) (xs : list A) (init : B) : H B :=
  match xs with
  | [] => ret init
  | x :: xs' => b <- f init x ;; foldM f xs' b
  end.

(** ** class FractalNode *)

Definition calculateComplexity (task : loc) : H Q :=
  t <- load_task task ;;
  let score := 1 in
  let score :=
    match description t with
    | Some d => if Js.truthy d then score + Qmin 5 (str_len d / 100) else score
    | None => score
    end in
  score <-
    match subtasks t with
    | Some array => elements <- load_array array ;; ret (score + len elements)
    | None => ret score
    end ;;
  ret (Qmin 10 score).

(** [new FractalNode(task, depth)].  The array of children is allocated
    before the node that holds it; the order of locations is not
    observable. *)
Definition new_FractalNode (task : loc) (depth : nat) : H loc :=
  children <- alloc (OArray []) ;;
  complexity <- calculateComplexity task ;;
  alloc (ONode {| task := task; depth := depth; children := children;
                  position := {| x := 0; y := 0; z := 0 |};
                  size := 1.0; complexity := complexity |}).

Fixpoint updateLayout (fuel : nat) (this : loc) : H unit :=
  match fuel with
  | O => throw
  | S fuel' =>
      n <- load_node this ;;
      elements <- load_array (children n) ;;
      let count := List.length elements in
      forEach_from
        (fun index child =>
           n <- load_node this ;;
           assign_position child
             (FractalNode.child_position (position n) count index) ;;;
           updateLayout fuel' child)
        0 elements
  end.

Definition addChild (fuel : nat) (this child : loc) : H unit :=
  n <- load_node this ;;
  push (children n) child ;;;
  updateLayout fuel this.

(** ** class FractalAlgorithm *)

Record FractalAlgorithm : Type := {
  maxDepth : nat;
  minTaskSize : Q;
  spreadFactor : Q;
  root : option loc
}.

Definition set_root (this : FractalAlgorithm) (node : loc) : FractalAlgorithm :=
  {| maxDepth := maxDepth this; minTaskSize := minTaskSize this;
     spreadFactor := spreadFactor this; root := Some node |}.

Fixpoint _buildTree (fuel : nat) (this : FractalAlgorithm) (task : loc)
    (depth : nat) : H loc :=
  match fuel with
  | O => throw
  | S fuel' =>
      node <- new_FractalNode task depth ;;
      t <- load_task task ;;
      (if (depth <? maxDepth this)%nat then
         match subtasks t with
         | Some array =>
             elements <- load_array array ;;
             forEach
               (fun subtask =>
                  childNode <- _buildTree fuel' this subtask (depth + 1) ;;
                  addChild fuel node childNode)
               elements
         | None => ret tt
         end
       else ret tt) ;;;
      ret node
  end.

Definition createFractalTree (fuel : nat) (this : FractalAlgorithm) (task : loc)
  : H (loc * FractalAlgorithm) :=
  root <- _buildTree fuel this task 0 ;;
  assign_position root {| x := 0; y := 2; z := 0 |} ;;;
  updateLayout fuel root ;;;
  ret (root, set_root this root).

Fixpoint _analyzeComplexity (fuel : nat) (task : loc) : H Q :=
  match fuel with
  | O => throw
  | S fuel' =>
      t <- load_task task ;;
      let score := 1 in
      let score :=
        match description t with
        | Some d =>
            if Js.truthy d
            then score + FractalAlgorithm._analyzeTextComplexity d else score
        | None => score
        end in
      score <-
        match subtasks t with
        | Some array =>
            elements <- load_array array ;;
            foldM
              (fun score subtask =>
                 c <- _analyzeComplexity fuel' subtask ;;
                 ret (score + c * 0.5))
              elements (score + len elements)
        | None => ret score
        end ;;
      let score :=
        match dependencies t with
        | Some dependencies => score + len dependencies * 0.5
        | None => score
        end in
      ret (Qmin 10 score)
  end.

Definition _identifyPatterns (task : loc) : H (list string) :=
  t <- load_task task ;;
  let description :=
    match description t with
    | Some d => Js.toLowerCase d
    | None => ""
    end in
  let patterns := [] in
  let patterns :=
    if Js.includes description "implement" || Js.includes description "develop"
       || Js.includes description "create"
    then (patterns ++ ["core-components"%string])%list else patterns in
  let patterns :=
    if Js.includes description "feature" || Js.includes description "functionality"
    then (patterns ++ ["feature-breakdown"%string])%list else patterns in
  let patterns :=
    if Js.includes description "improve" || Js.includes description "optimize"
    then (patterns ++ ["optimization"%string])%list else patterns in
  ret patterns.

Definition _createSubtask (parentTask : loc) (title : string)
    (complexityFactor : Q) : H loc :=
  now <- lift Date_now ;;
  random <- lift Math_random ;;
  parent <- load_task parentTask ;;
  date <- lift Date_now ;;
  alloc (OStub {| Stub.id := inject_Z now + random;
                  Stub.title := title;
                  Stub.description := "Part of: " ++ Store.title parent;
                  Stub.status := "Not Started";
                  Stub.parentId := Store.id parent;
                  Stub.complexity :=
                    mul_field (task_complexity parent) complexityFactor;
                  Stub.created := date |}).

(** Returns the location of the array of stubs. *)
Definition suggestDecomposition (fuel : nat) (task : loc) : H loc :=
  complexity <- _analyzeComplexity fuel task ;;
  patterns <- _identifyPatterns task ;;
  subtasks <- alloc (OArray []) ;;
  (if FractalAlgorithm.has_pattern patterns "core-components" then
     s1 <- _createSubtask task "Research & Planning" 0.2 ;;
     s2 <- _createSubtask task "Core Implementation" 0.4 ;;
     s3 <- _createSubtask task "Testing & Validation" 0.2 ;;
     s4 <- _createSubtask task "Documentation" 0.2 ;;
     push subtasks s1 ;;; push subtasks s2 ;;; push subtasks s3 ;;;
     push subtasks s4
   else if FractalAlgorithm.has_pattern patterns "feature-breakdown" then
     t <- load_task task ;;
     match description t with
     | Some d =>
         let features := FractalAlgorithm._extractFeatures d in
         forEach
           (fun feature =>
              s <- _createSubtask task feature (1.0 / len features) ;;
              push subtasks s)
           features
     | None => throw
     end
   else
     let numSubtasks :=
       Z.to_nat (Z.max 2 (Z.min 5 (Math_ceil (complexity / 2)))) in
     forEach
       (fun i =>
          s <- _createSubtask task ("Phase " ++ Js.of_nat (i + 1))
                 (1.0 / inject_Z (Z.of_nat numSubtasks)) ;;
          push subtasks s)
       (seq 0 numSubtasks)) ;;;
  ret subtasks.

End Store.

(* ================================================================== *)
(** * class TaskManager (js/task-manager.js) *)
(* ================================================================== *)

(** The task manager keeps task objects in a [Map] by their [id], writes
    them to [localStorage] as JSON after every change and tells its
    listeners.

    Conventions.
    - A task object has the properties that the task manager and the
      application read or write, each present or absent ([TaskData.t]); a
      property that is present holds a string, or a point for
      [position].  An absent property reads as [undefined].
    - No method changes a task object in place: a task object is a
      value here.
    - The text [JSON.stringify] makes of an array of such objects is
      represented by the array ([Json]), and [JSON.parse] of that text,
      a structural copy of the array, by the array again.  Text that
      [JSON.parse] rejects is [Empty], the empty string, which is the
      one text that is falsy, or [Malformed]; text that parses to
      something else than an array of task objects is not represented.
    - [localStorage.setItem] throws when the storage is [full].
    - A listener is known by its identity; calling it is recorded in
      [calls].  A listener that throws or that calls the task manager is
      not represented.
    - The methods are [async]; each is modelled as running to its end
      before another starts.  [console.error] is not modelled. *)

(** [n] zeros. *)
Fixpoint zeros (n : nat) : string :=
  match n with
  | O => ""
  | S n' => String "0" (zeros n')
  end.

(** [String(value).padStart(width, '0')] for a non-negative integer. *)
Definition pad (width : nat) (value : Z) : string :=
  let digits := Js.of_nat (Z.to_nat value) in
  zeros (width - String.length digits) ++ digits.

(** [new Date(instant).toISOString()], [instant] in milliseconds since
    the epoch: the date of the proleptic Gregorian calendar in UTC, the
    year on four digits from 0 to 9999 and signed on six digits
    otherwise. *)
Definition Date_toISOString (instant : Z) : string :=
  let day := (instant / 86400000)%Z in
  let ms := (instant mod 86400000)%Z in
  let shifted := (day + 719468)%Z in
  let era := (shifted / 146097)%Z in
  let day_of_era := (shifted mod 146097)%Z in
  let year_of_era :=
    ((day_of_era - day_of_era / 1460 + day_of_era / 36524 - day_of_era / 146096)
     / 365)%Z in
  let day_of_year :=
    (day_of_era - (365 * year_of_era + year_of_era / 4 - year_of_era / 100))%Z in
  let mp := ((5 * day_of_year + 2) / 153)%Z in
  let date := (day_of_year - (153 * mp + 2) / 5 + 1)%Z in
  let month := (if mp <? 10 then mp + 3 else mp - 9)%Z in
  let year := (year_of_era + era * 400 + (if month <=? 2 then 1 else 0))%Z in
  let yyyy :=
    if ((0 <=? year) && (year <=? 9999))%Z then pad 4 year
    else (if (year <? 0)%Z then "-" else "+") ++ pad 6 (Z.abs year) in
  yyyy ++ "-" ++ pad 2 month ++ "-" ++ pad 2 date
  ++ "T" ++ pad 2 (ms / 3600000) ++ ":" ++ pad 2 (ms / 60000 mod 60)
  ++ ":" ++ pad 2 (ms / 1000 mod 60) ++ "." ++ pad 3 (ms mod 1000) ++ "Z".

Module TaskData.

(** A task object. *)
Record t : Type := make {
  id : option string;
  title : option string;
  description : option string;
  status : option string;
  parentId : option string;
  created : option string;
  position : option Position
}.

Definition present {A : Type} (property : option A) : bool :=
  match property with
  | Some _ => true
  | None => false
  end.

(** [task.hasOwnProperty(field)] *)
Definition hasOwnProperty (task : t) (field : string) : bool :=
  if String.eqb field "id" then present (id task)
  else if String.eqb field "title" then present (title task)
  else if String.eqb field "description" then present (description task)
  else if String.eqb field "status" then present (status task)
  else if String.eqb field "parentId" then present (parentId task)
  else if String.eqb field "created" then present (created task)
  else if String.eqb field "position" then present (position task)
  else false.

(** A property of [{...a, ...b}]: that of [b] when [b] has it. *)
Definition over {A : Type} (a b : option A) : option A :=
  match b with
  | Some _ => b
  | None => a
  end.

(** [{...a, ...b}] *)
Definition spread (a b : t) : t :=
  {| id := over (id a) (id b);
     title := over (title a) (title b);
     description := over (description a) (description b);
     status := over (status a) (status b);
     parentId := over (parentId a) (parentId b);
     created := over (created a) (created b);
     position := over (position a) (position b) |}.

(** A string property as a condition: absent and empty are falsy. *)
Definition truthy (property : option string) : bool :=
  match property with
  | Some s => Js.truthy s
  | None => false
  end.

End TaskData.

(** [Map] with keys that are strings or [undefined]: the entries in the
    order in which their keys were first set. *)
Module Map.

Definition key : Type := option string.

(** Whether two keys are the same value ([===] on strings and
    [undefined]). *)
Definition key_eqb (a b : key) : bool :=
  match a, b with
  | Some s, Some s' => String.eqb s s'
  | None, None => true
  | _, _ => false
  end.

Definition t (V : Type) : Type := list (key * V).

(** [map.set(k, v)] *)
Fixpoint set {V : Type} (k : key) (v : V) (map : t V) : t V :=
  match map with
  | [] => [(k, v)]
  | (k', v') :: map' =>
      if key_eqb k' k then (k, v) :: map' else (k', v') :: set k v map'
  end.

(** [map.get(k)] *)
Fixpoint get {V : Type} (k : key) (map : t V) : option V :=
  match map with
  | [] => None
  | (k', v') :: map' => if key_eqb k' k then Some v' else get k map'
  end.

(** [map.has(k)] *)
Definition has {V : Type} (k : key) (map : t V) : bool :=
  match get k map with
  | Some _ => true
  | None => false
  end.

(** [map.delete(k)] *)
Fixpoint delete {V : Type} (k : key) (map : t V) : t V :=
  match map with
  | [] => []
  | (k', v') :: map' =>
      if key_eqb k' k then map' else (k', v') :: delete k map'
  end.

(** [Array.from(map.values())] *)
Definition values {V : Type} (map : t V) : list V := List.map snd map.

End Map.

(** What is thrown. *)
Inductive exception : Type :=
| Error (message : string)
| SyntaxError
| QuotaExceededError.

(** How a call ends. *)
Inductive completion (A : Type) : Type :=
| Return (a : A)
| Throw (e : exception).
Arguments Throw {A}.

(** A text: the JSON of an array of tasks, the empty string, or other
    text that is not JSON. *)
Inductive json_text : Type :=
| Json (tasks : list TaskData.t)
| Empty
| Malformed.

(** [localStorage] *)
Record Storage : Type := {
  items : list (string * json_text);
  full : bool
}.

(** The items with [value] under [key]. *)
Fixpoint put (key : string) (value : json_text) (items : list (string * json_text))
  : list (string * json_text) :=
  match items with
  | [] => [(key, value)]
  | (k, v) :: items' =>
      if String.eqb k key then (key, value) :: items' else (k, v) :: put key value items'
  end.

Module TaskManager.

(** A listener: the identity of a function. *)
Definition listener : Type := nat.

Record t : Type := make {
  storageKey : string;
  tasks : Map.t TaskData.t;
  listeners : list listener;
  defaultTasks : list TaskData.t
}.

(** [new TaskManager()] *)
Definition new : M t :=
  now <- Date_now ;;
  ret {| storageKey := "focusar-tasks";
         tasks := [];
         listeners := [];
         defaultTasks :=
           [ {| TaskData.id := Some "demo-1";
                TaskData.title := Some "Welcome to FocusAR";
                TaskData.description :=
                  Some "This is a demo task to help you get started with FocusAR Roadmapper. Try adding your own tasks!";
                TaskData.status := Some "Not Started";
                TaskData.parentId := None;
                TaskData.created := Some (Date_toISOString now);
                TaskData.position := Some {| x := 0; y := 0; z := -1 |} |} ] |}.

(** The task manager, the storage, the clock, and the calls of listeners
    made so far, oldest first. *)
Record State : Type := {
  this : t;
  localStorage : Storage;
  world : World;
  calls : list (listener * list TaskData.t)
}.

(** A method: it returns or throws, and leaves a state either way. *)
Definition T (A : Type) : Type := State -> completion A * State.

Definition ret {A : Type} (a : A) : T A := fun st => (Return a, st).

Definition bind {A B : Type} (m : T A) (k : A -> T B) : T B :=
  fun st =>
    match m st with
    | (Return a, st') => k a st'
    | (Throw e, st') => (Throw e, st')
    end.

Definition throw {A : Type} (e : exception) : T A := fun st => (Throw e, st).

(** [try { m } catch (error) { handler }] *)
Definition try_catch {A : Type} (m : T A) (handler : exception -> T A) : T A :=
  fun st =>
    match m st with
    | (Return a, st') => (Return a, st')
    | (Throw e, st') => handler e st'
    end.

Declare Scope manager_scope.
Delimit Scope manager_scope with manager.
Notation "x <- m ;; k" := (bind m (fun x => k))
  (at level 61, m at next level, right associativity) : manager_scope.
Notation "m ;;; k" := (bind m (fun _ => k))
  (at level 61, right associativity) : manager_scope.
Local Open Scope manager_scope.

(** [this] *)
Definition self : T t := fun st => (Return (this st), st).

(** [this.tasks = ...], for the changes the methods of [Map] make. *)
Definition set_tasks (map : Map.t TaskData.t) : T unit :=
  fun st =>
    (Return tt,
     {| this := make (storageKey (this st)) map (listeners (this st))
                  (defaultTasks (this st));
        localStorage := localStorage st; world := world st; calls := calls st |}).

Definition set_listeners (ls : list listener) : T unit :=
  fun st =>
    (Return tt,
     {| this := make (storageKey (this st)) (tasks (this st)) ls
                  (defaultTasks (this st));
        localStorage := localStorage st; world := world st; calls := calls st |}).

(** [this.tasks.set(k, v)] *)
Definition tasks_set (k : Map.key) (v : TaskData.t) : T unit :=
  this <- self ;; set_tasks (Map.set k v (tasks this)).

(** [this.tasks.clear()] *)
Definition tasks_clear : T unit := set_tasks [].

(** [localStorage.getItem(key)]: the text, or [null]. *)
Definition localStorage_getItem (key : string) : T (option json_text) :=
  fun st => (Return (own_property (items (localStorage st)) key), st).

(** [localStorage.setItem(key, value)] *)
Definition localStorage_setItem (key : string) (value : json_text) : T unit :=
  fun st =>
    if full (localStorage st) then (Throw QuotaExceededError, st)
    else
      (Return tt,
       {| this := this st;
          localStorage :=
            {| items := put key value (items (localStorage st));
               full := full (localStorage st) |};
          world := world st; calls := calls st |}).

(** [JSON.parse(text)] *)
Definition JSON_parse (json : json_text) : T (list TaskData.t) :=
  match json with
  | Json tasks => ret tasks
  | Empty | Malformed => throw SyntaxError
  end.

(** [JSON.stringify(tasks)], and [JSON.stringify(tasks, null, 2)], which
    is the same document with other white space. *)
Definition JSON_stringify (tasks : list TaskData.t) : json_text := Json tasks.

(** [new Date().toISOString()] *)
Definition new_Date_toISOString : T string :=
  fun st =>
    let (now, w) := Date_now (world st) in
    (Return (Date_toISOString now),
     {| this := this st; localStorage := localStorage st; world := w;
        calls := calls st |}).

(** [listener(tasks)] *)
Definition call (l : listener) (tasks : list TaskData.t) : T unit :=
  fun st =>
    (Return tt,
     {| this := this st; localStorage := localStorage st; world := world st;
        calls := (calls st ++ [(l, tasks)])%list |}).

(** [xs.forEach(x => ...)] *)
Fixpoint forEach {A : Type} (f : A -> T unit) (xs : list A) : T unit :=
  match xs with
  | [] => ret tt
  | x :: xs' => f x ;;; forEach f xs'
  end.

Definition getAllTasks : T (list TaskData.t) :=
  this <- self ;; ret (Map.values (tasks this)).

Definition notifyListeners : T unit :=
  tasks <- getAllTasks ;;
  this <- self ;;
  forEach (fun listener => call listener tasks) (listeners this).

Definition saveTasks : T unit :=
  try_catch
    (this <- self ;;
     let tasks := Map.values (tasks this) in
     localStorage_setItem (storageKey this) (JSON_stringify tasks) ;;;
     notifyListeners)
    (fun error => throw error).

Definition loadTasks : T (list TaskData.t) :=
  try_catch
    (this <- self ;;
     storedTasks <- localStorage_getItem (storageKey this) ;;
     tasks <-
       match storedTasks with
       | None | Some Empty => ret []
       | Some json => JSON_parse json
       end ;;
     tasks_clear ;;;
     forEach (fun task => tasks_set (TaskData.id task) task) tasks ;;;
     ret tasks)
    (fun error => ret []).

Definition validStatuses : list string :=
  [ "Not Started"; "In Progress"; "Completed"; "Blocked" ].

Definition validateTask (this : t) (task : TaskData.t) : bool :=
  let requiredFields := [ "id"; "title"; "status" ] in
  if negb (forallb (fun field => TaskData.hasOwnProperty task field) requiredFields)
  then false
  else if negb (match TaskData.status task with
                | Some status => existsb (String.eqb status) validStatuses
                | None => false
                end)
  then false
  else if TaskData.truthy (TaskData.parentId task)
          && negb (Map.has (TaskData.parentId task) (tasks this))
  then false
  else true.

Definition addTask (task : TaskData.t) : T TaskData.t :=
  try_catch
    (this <- self ;;
     if negb (validateTask this task) then throw (Error "Invalid task data")
     else
       now <- new_Date_toISOString ;;
       tasks_set (TaskData.id task)
         {| TaskData.id := TaskData.id task;
            TaskData.title := TaskData.title task;
            TaskData.description := TaskData.description task;
            TaskData.status := TaskData.status task;
            TaskData.parentId := TaskData.parentId task;
            TaskData.created := Some now;
            TaskData.position :=
              Some match TaskData.position task with
                   | Some p => p
                   | None => {| x := 0; y := 0; z := -1 |}
                   end |} ;;;
       saveTasks ;;;
       ret task)
    (fun error => throw error).

Definition updateTask (taskId : Map.key) (updates : TaskData.t) : T TaskData.t :=
  try_catch
    (this <- self ;;
     match Map.get taskId (tasks this) with
     | None => throw (Error "Task not found")
     | Some task =>
         let updatedTask := TaskData.spread task updates in
         if negb (validateTask this updatedTask) then throw (Error "Invalid task data")
         else
           tasks_set taskId updatedTask ;;;
           saveTasks ;;;
           ret updatedTask
     end)
    (fun error => throw error).

(** [this.deleteTaskAndChildren(taskId)], which changes [this.tasks]
    only, as a function of the map.  The list of children is made before
    any of them is deleted; each recursive call reads the map that the
    calls before it left.  [None] when the fuel of the recursion is used
    up. *)
Fixpoint deleteTaskAndChildren (fuel : nat) (taskId : Map.key)
    (tasks : Map.t TaskData.t) : option (Map.t TaskData.t) :=
  match fuel with
  | O => None
  | S fuel' =>
      let children :=
        filter (fun task => Map.key_eqb (TaskData.parentId task) taskId)
          (Map.values tasks) in
      match
        fold_left
          (fun tasks child =>
             match tasks with
             | Some tasks => deleteTaskAndChildren fuel' (TaskData.id child) tasks
             | None => None
             end)
          children (Some tasks)
      with
      | Some tasks => Some (Map.delete taskId tasks)
      | None => None
      end
  end.

(** [None] when [deleteTaskAndChildren] does not return.  The [catch]
    throws what it caught. *)
Definition deleteTask (fuel : nat) (taskId : Map.key)
  : State -> option (completion unit * State) :=
  fun st =>
    if negb (Map.has taskId (tasks (this st)))
    then Some (Throw (Error "Task not found"), st)
    else
      match deleteTaskAndChildren fuel taskId (tasks (this st)) with
      | Some tasks => Some ((set_tasks tasks ;;; saveTasks) st)
      | None => None
      end.

(** [this.tasks.get(taskId) || null] *)
Definition getTask (this : t) (taskId : Map.key) : option TaskData.t :=
  Map.get taskId (tasks this).

Definition getChildTasks (this : t) (parentId : Map.key) : list TaskData.t :=
  filter (fun task => Map.key_eqb (TaskData.parentId task) parentId)
    (Map.values (tasks this)).

Definition addChangeListener (l : listener) : T unit :=
  this <- self ;;
  set_listeners
    (if existsb (Nat.eqb l) (listeners this) then listeners this
     else (listeners this ++ [l])%list).

Definition removeChangeListener (l : listener) : T unit :=
  this <- self ;;
  set_listeners (filter (fun l' => negb (Nat.eqb l l')) (listeners this)).

Definition exportTasks (this : t) : json_text :=
  JSON_stringify (Map.values (tasks this)).

Definition importTasks (json : json_text) : T unit :=
  try_catch
    (tasks <- JSON_parse json ;;
     this <- self ;;
     if negb (forallb (fun task => validateTask this task) tasks)
     then throw (Error "Invalid task data in import")
     else
       tasks_clear ;;;
       forEach (fun task => tasks_set (TaskData.id task) task) tasks ;;;
       saveTasks)
    (fun error => throw error).

Definition clearTasks : T unit :=
  try_catch (tasks_clear ;;; saveTasks) (fun error => throw error).

Definition initialize : T unit :=
  try_catch
    (tasks <- loadTasks ;;
     if (List.length tasks =? 0)%nat then
       this <- self ;;
       importTasks (JSON_stringify (defaultTasks this))
     else ret tt)
    (fun error =>
       this <- self ;;
       importTasks (JSON_stringify (defaultTasks this))).

End TaskManager.

(** * class FocusARApp (js/app.js) *)

Module FocusARApp.

(** What [getStatusClass] returns: a string of class names, or the member
    of [Object.prototype] that the status names. *)
Inductive status_class : Type :=
| ClassNames (names : string)
| PrototypeMember (name : string).

Definition statusClasses : list (string * string) :=
  [ ("Not Started", "bg-gray-100 text-gray-800");
    ("In Progress", "bg-blue-100 text-blue-800");
    ("Completed", "bg-green-100 text-green-800");
    ("Blocked", "bg-red-100 text-red-800") ].

(** The status is a string or [undefined], which as a property name is
    "undefined". *)
Definition getStatusClass (status : option string) : status_class :=
  let name := match status with Some s => s | None => "undefined" end in
  match get_property statusClasses name with
  | Own names =>
      if Js.truthy names then ClassNames names
      else ClassNames "bg-gray-100 text-gray-800"
  | Inherited => PrototypeMember name
  | Undefined => ClassNames "bg-gray-100 text-gray-800"
  end.

End FocusARApp.

(* ================================================================== *)
(** * Notions used to state the properties *)
(* ================================================================== *)

(** The nodes of a tree: the node itself, then the nodes below each child,
    children in their stored order. *)
Fixpoint nodes (node : FractalNode.t) : list FractalNode.t :=
  node :: flat_map nodes (FractalNode.children node).

(** The point every new node starts at. *)
Definition origin : Position := {| x := 0; y := 0; z := 0 |}.

(** The point [createFractalTree] anchors the root at. *)
Definition anchor : Position := {| x := 0; y := 2; z := 0 |}.

(** The tree of nodes before any layout: one node per task down to
    [maxDepth], every node still at the origin. *)
Fixpoint skeleton (this : FractalAlgorithm.t) (task : Task.t) (depth : nat)
  : FractalNode.t :=
  {| FractalNode.task := task;
     FractalNode.depth := depth;
     FractalNode.children :=
       if (depth <? FractalAlgorithm.maxDepth this)%nat then
         match Task.subtasks task with
         | Some subtasks => map (fun subtask => skeleton this subtask (depth + 1)) subtasks
         | None => []
         end
       else [];
     FractalNode.position := origin;
     FractalNode.size := 1.0;
     FractalNode.complexity := FractalNode.calculateComplexity task |}.

(** The children of [node] stand where [updateLayout] puts them. *)
Definition laid_out (node : FractalNode.t) : Prop :=
  forall index child,
    nth_error (FractalNode.children node) index = Some child ->
    FractalNode.position child
    = FractalNode.child_position (FractalNode.position node)
        (List.length (FractalNode.children node)) index.

(** The sum of a list of Numbers, left to right. *)
Definition number_sum (xs : list number) : number :=
  fold_left number_add xs (Num 0).

(** The parent-child pairs of a tree, in the order in which
    [_calculateConnections] visits them. *)
Fixpoint edges (node : FractalNode.t) : list (FractalNode.t * FractalNode.t) :=
  flat_map (fun child => (node, child) :: edges child) (FractalNode.children node).

(** The sum of a list of rationals. *)
Definition sumQ (xs : list Q) : Q := fold_right Qplus 0 xs.

(** What a caller sees of a stub in the properties below. *)
Definition title_and_complexity (s : Stub.t) : string * number :=
  (Stub.title s, Stub.complexity s).

(** The subtasks of a task, none when the property is absent. *)
Definition subtasks_of (task : Task.t) : list Task.t :=
  match Task.subtasks task with
  | Some subtasks => subtasks
  | None => []
  end.

(** ** Values in the store *)

(** The number of levels of a tree of nodes, and of tasks. *)
Fixpoint height (node : FractalNode.t) : nat :=
  S (fold_right Nat.max 0%nat (map height (FractalNode.children node))).

Fixpoint task_height (task : Task.t) : nat :=
  match Task.subtasks task with
  | Some subtasks => S (fold_right Nat.max 0%nat (map task_height subtasks))
  | None => 1
  end.

(** Every object of [h] is in [h'], at the same location and unchanged. *)
Definition preserved (h h' : list Store.object) : Prop :=
  forall l o, nth_error h l = Some o -> nth_error h' l = Some o.

(** The properties of a task object other than [subtasks]. *)
Definition same_properties (o : Store.TaskObject) (task : Task.t) : Prop :=
  Store.id o = Task.id task
  /\ Store.title o = Task.title task
  /\ Store.description o = Task.description task
  /\ Store.status o = Task.status task
  /\ Store.parentId o = Task.parentId task
  /\ Store.dependencies o = Task.dependencies task
  /\ Store.task_complexity o = Task.complexity task
  /\ Store.created o = Task.created task
  /\ Store.task_position o = Task.position task.

(** The array at [array] holds one location per element of [values],
    each related to its element by [T]; no array for no values. *)
Inductive array_at (A : Type) (T : Store.loc -> A -> Prop)
    (h : list Store.object) : option Store.loc -> option (list A) -> Prop :=
| array_at_None : array_at T h None None
| array_at_Some (array : Store.loc) (elements : list Store.loc) (values : list A) :
    nth_error h array = Some (Store.OArray elements) ->
    Forall2 T elements values ->
    array_at T h (Some array) (Some values).

(** The object at [l] is the task [task], subtasks included. *)
Inductive task_at (h : list Store.object) : Store.loc -> Task.t -> Prop :=
| task_at_intro (l : Store.loc) (o : Store.TaskObject) (task : Task.t) :
    nth_error h l = Some (Store.OTask o) ->
    same_properties o task ->
    array_at (task_at h) h (Store.subtasks o) (Task.subtasks task) ->
    task_at h l task.

(** The object at [l] is the node [node], with the nodes below it. *)
Inductive node_at (h : list Store.object) : Store.loc -> FractalNode.t -> Prop :=
| node_at_intro (l : Store.loc) (o : Store.NodeObject) (node : FractalNode.t) :
    nth_error h l = Some (Store.ONode o) ->
    task_at h (Store.task o) (FractalNode.task node) ->
    Store.depth o = FractalNode.depth node ->
    Store.position o = FractalNode.position node ->
    Store.size o = FractalNode.size node ->
    Store.complexity o = FractalNode.complexity node ->
    array_at (node_at h) h (Some (Store.children o))
      (Some (FractalNode.children node)) ->
    node_at h l node.

(** The object at [l] is the stub [s]. *)
Definition stub_at (h : list Store.object) (l : Store.loc) (s : Stub.t) : Prop :=
  nth_error h l = Some (Store.OStub s).

(** Trees one after the other in the store: the first from [a] up to some
    [m], the next from [m] on, the last up to [b]. *)
Inductive consecutive (T : nat -> nat -> Store.loc -> FractalNode.t -> Prop)
  : nat -> nat -> list Store.loc -> list FractalNode.t -> Prop :=
| consecutive_nil (a : nat) : consecutive T a a [] []
| consecutive_cons (a m b : nat) (l : Store.loc) (ls : list Store.loc)
    (node : FractalNode.t) (nodes : list FractalNode.t) :
    T a m l node ->
    consecutive T m b ls nodes ->
    consecutive T a b (l :: ls) (node :: nodes).

(** How [_buildTree] lays a tree out in the store: the array of children
    at [lo], the node right after it, then the trees of the children one
    after the other up to [hi].  The tasks are those of the store [h0]
    the computation started from. *)
Inductive tree_at (h0 h : list Store.object)
  : nat -> nat -> Store.loc -> FractalNode.t -> Prop :=
| tree_at_intro (lo hi : nat) (l : Store.loc) (node : FractalNode.t)
    (elements : list Store.loc) (task : Store.loc) :
    l = S lo ->
    (S (S lo) <= hi)%nat ->
    (hi <= List.length h)%nat ->
    nth_error h lo = Some (Store.OArray elements) ->
    nth_error h l
    = Some (Store.ONode
              {| Store.task := task;
                 Store.depth := FractalNode.depth node;
                 Store.children := lo;
                 Store.position := FractalNode.position node;
                 Store.size := FractalNode.size node;
                 Store.complexity := FractalNode.complexity node |}) ->
    task_at h0 task (FractalNode.task node) ->
    consecutive (tree_at h0 h) (S (S lo)) hi elements
      (FractalNode.children node) ->
    tree_at h0 h lo hi l node.

(** What assigning a position to the root of a tree and laying the tree
    out does to the store: the tree becomes [FractalNode.place p node],
    and nothing outside the tree changes. *)
Definition place_spec (node : FractalNode.t) : Prop :=
  forall (h0 : list Store.object) (st : Store.state) (lo hi : nat)
         (l : Store.loc) (p : Position) (fuel : nat),
    tree_at h0 (Store.objects st) lo hi l node ->
    (height node <= fuel)%nat ->
    exists st',
      Store.bind (Store.assign_position l p)
        (fun _ => Store.updateLayout fuel l) st = Some (tt, st')
      /\ tree_at h0 (Store.objects st') lo hi l (FractalNode.place p node)
      /\ (forall k, (k < lo \/ hi <= k)%nat ->
                    nth_error (Store.objects st') k = nth_error (Store.objects st) k)
      /\ List.length (Store.objects st') = List.length (Store.objects st)
      /\ Store.world st' = Store.world st.


(** What [_buildTree] does to the store: it appends the tree that the
    functional [_buildTree] returns, and changes nothing that was there. *)
Definition build_spec (h0 : list Store.object) (this : Store.FractalAlgorithm)
    (that : FractalAlgorithm.t) (task : Task.t) : Prop :=
  forall (st : Store.state) (l : Store.loc) (depth fuel : nat),
    task_at h0 l task ->
    preserved h0 (Store.objects st) ->
    (depth <= FractalAlgorithm.maxDepth that)%nat ->
    (S (FractalAlgorithm.maxDepth that - depth) <= fuel)%nat ->
    exists node st',
      Store._buildTree fuel this l depth st = Some (node, st')
      /\ tree_at h0 (Store.objects st')
           (List.length (Store.objects st)) (List.length (Store.objects st'))
           node (FractalAlgorithm._buildTree that task depth)
      /\ (forall k, (k < List.length (Store.objects st))%nat ->
                    nth_error (Store.objects st') k = nth_error (Store.objects st) k)
      /\ Store.world st' = Store.world st.


(** The state after [_createSubtask]: one more object, the stub that the
    functional [_createSubtask] returns, and the world it leaves. *)
Definition with_stub (task : Task.t) (title : string) (factor : Q)
    (st : Store.state) : Store.state :=
  {| Store.objects :=
       (Store.objects st
        ++ [Store.OStub
              (fst (FractalAlgorithm._createSubtask task title factor
                      (Store.world st)))])%list;
     Store.world :=
       snd (FractalAlgorithm._createSubtask task title factor (Store.world st)) |}.


(** The algorithm object of the functional model with the constants of
    one of the store. *)
Definition functional (this : Store.FractalAlgorithm) : FractalAlgorithm.t :=
  {| FractalAlgorithm.maxDepth := Store.maxDepth this;
     FractalAlgorithm.minTaskSize := Store.minTaskSize this;
     FractalAlgorithm.spreadFactor := Store.spreadFactor this;
     FractalAlgorithm.root := None |}.

(** ** Strings *)

(** Every character of [s] satisfies [p]. *)
Fixpoint every (p : ascii -> bool) (s : string) : bool :=
  match s with
  | EmptyString => true
  | String c s' => p c && every p s'
  end.

(** The first character of a string. *)
Definition first_char (s : string) : option ascii :=
  match s with
  | EmptyString => None
  | String c _ => Some c
  end.

(** No white space at either end. *)
Definition trimmed (s : string) : Prop :=
  (forall c, first_char s = Some c -> Js.is_space c = false)
  /\ (forall c, Js.last_char s = Some c -> Js.is_space c = false).

(** ** The task manager *)

(** Every key is the [id] of its task, and no key occurs twice. *)
Definition well_keyed (map : Map.t TaskData.t) : Prop :=
  NoDup (List.map fst map)
  /\ forall k task, In (k, task) map -> TaskData.id task = k.

(** Every task that names a parent names a key of the map. *)
Definition parents_present (map : Map.t TaskData.t) : Prop :=
  forall k task,
    In (k, task) map ->
    TaskData.truthy (TaskData.parentId task) = true ->
    Map.has (TaskData.parentId task) map = true.

(** What [addTask] stores for [task] at the instant [now]. *)
Definition stored_copy (task : TaskData.t) (now : Z) : TaskData.t :=
  {| TaskData.id := TaskData.id task;
     TaskData.title := TaskData.title task;
     TaskData.description := TaskData.description task;
     TaskData.status := TaskData.status task;
     TaskData.parentId := TaskData.parentId task;
     TaskData.created := Some (Date_toISOString now);
     TaskData.position :=
       Some match TaskData.position task with
            | Some p => p
            | None => {| x := 0; y := 0; z := -1 |}
            end |}.

(** The map [loadTasks] and [importTasks] build from an array of tasks:
    every task under its [id], a later task in the place of an earlier
    one of the same [id]. *)
Definition keyed_by_id (tasks : list TaskData.t) : Map.t TaskData.t :=
  fold_left (fun map task => Map.set (TaskData.id task) task map) tasks [].

(** The calls that tell every listener of [this] about [tasks]. *)
Definition notifications (this : TaskManager.t) (tasks : list TaskData.t)
  : list (TaskManager.listener * list TaskData.t) :=
  List.map (fun l => (l, tasks)) (TaskManager.listeners this).

(** How often the listener [l] was called. *)
Definition told (l : TaskManager.listener) (st : TaskManager.State) : nat :=
  count_occ Nat.eq_dec (List.map fst (TaskManager.calls st)) l.

(** The state with another map of tasks. *)
Definition with_tasks (st : TaskManager.State) (map : Map.t TaskData.t)
  : TaskManager.State :=
  {| TaskManager.this :=
       TaskManager.make (TaskManager.storageKey (TaskManager.this st)) map
         (TaskManager.listeners (TaskManager.this st))
         (TaskManager.defaultTasks (TaskManager.this st));
     TaskManager.localStorage := TaskManager.localStorage st;
     TaskManager.world := TaskManager.world st;
     TaskManager.calls := TaskManager.calls st |}.

(** The state after [new Date()] was read once more. *)
Definition tick (st : TaskManager.State) : TaskManager.State :=
  {| TaskManager.this := TaskManager.this st;
     TaskManager.localStorage := TaskManager.localStorage st;
     TaskManager.world := snd (Date_now (TaskManager.world st));
     TaskManager.calls := TaskManager.calls st |}.

(** The state after [saveTasks] on a storage that takes the text: the
    tasks are in the storage and every listener was called. *)
Definition saved (st : TaskManager.State) : TaskManager.State :=
  {| TaskManager.this := TaskManager.this st;
     TaskManager.localStorage :=
       {| items :=
            put (TaskManager.storageKey (TaskManager.this st))
              (Json (Map.values (TaskManager.tasks (TaskManager.this st))))
              (items (TaskManager.localStorage st));
          full := full (TaskManager.localStorage st) |};
     TaskManager.world := TaskManager.world st;
     TaskManager.calls :=
       (TaskManager.calls st
        ++ notifications (TaskManager.this st)
             (Map.values (TaskManager.tasks (TaskManager.this st))))%list |}.

(** [k] is [a], or the key of a task whose parent is under [a]: the keys
    of the subtree of [a] in [map]. *)
Inductive under (map : Map.t TaskData.t) (a : Map.key) : Map.key -> Prop :=
| under_self : under map a a
| under_child (k : Map.key) (task : TaskData.t) :
    In (k, task) map ->
    under map a (TaskData.parentId task) ->
    under map a k.

(** [rank] numbers every task of [map] above its parent and not above
    [bound]; there is such a numbering exactly when no task is its own
    ancestor. *)
Definition ranked (rank : Map.key -> nat) (bound : nat) (map : Map.t TaskData.t)
  : Prop :=
  forall k task,
    In (k, task) map -> (rank (TaskData.parentId task) < rank k <= bound)%nat.

(** One turn of the loop of [deleteTaskAndChildren]. *)
Definition delete_child (fuel : nat) (tasks : option (Map.t TaskData.t))
    (child : TaskData.t) : option (Map.t TaskData.t) :=
  match tasks with
  | Some tasks => TaskManager.deleteTaskAndChildren fuel (TaskData.id child) tasks
  | None => None
  end.

(** What a call of [deleteTaskAndChildren] with [fuel] does on a map
    without cycles: it returns the map without the entries under
    [taskId], the others in their order. *)
Definition deletes_subtree (rank : Map.key -> nat) (bound fuel : nat) : Prop :=
  forall (taskId : Map.key) (map : Map.t TaskData.t),
    well_keyed map ->
    ranked rank bound map ->
    (bound - rank taskId < fuel)%nat ->
    exists keep : Map.key * TaskData.t -> bool,
      TaskManager.deleteTaskAndChildren fuel taskId map = Some (filter keep map)
      /\ forall e, In e map -> (keep e = true <-> ~ under map taskId (fst e)).

(* ================================================================== *)
(** * Tasks and a world to run the code on *)
(* ================================================================== *)

(** A task with nothing but the required properties. *)
Definition plain_task (id : string) (description : option string)
    (subtasks : option (list Task.t)) (complexity : option Q) : Task.t :=
  {| Task.id := id;
     Task.title := "Task " ++ id;
     Task.description := description;
     Task.status := Some "Not Started";
     Task.parentId := None;
     Task.subtasks := subtasks;
     Task.dependencies := None;
     Task.complexity := complexity;
     Task.created := "2025-04-21T17:41:20.418Z";
     Task.position := None |}.

(** The task the task manager starts with ([TaskManager.defaultTasks]). *)
Definition demo_task : Task.t :=
  {| Task.id := "demo-1";
     Task.title := "Welcome to FocusAR";
     Task.description :=
       Some "This is a demo task to help you get started with FocusAR Roadmapper. Try adding your own tasks!";
     Task.status := Some "Not Started";
     Task.parentId := None;
     Task.subtasks := None;
     Task.dependencies := None;
     Task.complexity := None;
     Task.created := "2025-04-21T17:41:20.418Z";
     Task.position := Some {| x := 0; y := 0; z := -1 |} |}.

(** A task whose description fires both the core-components and the
    feature-breakdown triggers. *)
Definition export_task : Task.t :=
  plain_task "7" (Some "Implement the export feature. Add CSV download")
    (Some []) (Some 4).


(** A task without description or subtasks. *)
Definition leaf (id : string) : Task.t := plain_task id None None None.

(** A task with three subtasks. *)
Definition three_subtasks : Task.t :=
  plain_task "1" None (Some [leaf "2"; leaf "3"; leaf "4"]) None.

(** A task, its only subtask, the only subtask of that one, and so on,
    [n] levels below the first. *)
Fixpoint chain (n : nat) : Task.t :=
  match n with
  | O => plain_task "0" None None None
  | S n' => plain_task (Js.of_nat n) None (Some [chain n']) None
  end.

(** A clock that advances by one millisecond per reading and a random
    source that keeps returning one half. *)
Definition world0 : World :=
  {| clock := fun n => (1745257280418 + Z.of_nat n)%Z;
     entropy := fun _ => 0.5;
     clock_reads := 0;
     entropy_reads := 0 |}.

(** The nodes of [three_subtasks] before the last layout, the root at
    the anchor. *)
Definition three_nodes : FractalNode.t :=
  FractalNode.set_position
    (FractalAlgorithm._buildTree FractalAlgorithm.new three_subtasks 0) anchor.

(** The tree of a chain that goes one level below the default
    [maxDepth]. *)
Definition deep_tree : FractalNode.t :=
  fst (FractalAlgorithm.createFractalTree FractalAlgorithm.new (chain 6)).

(** The object of a task whose subtasks are in the array at [subtasks]. *)
Definition task_object (task : Task.t) (subtasks : option Store.loc)
  : Store.TaskObject :=
  {| Store.id := Task.id task;
     Store.title := Task.title task;
     Store.description := Task.description task;
     Store.status := Task.status task;
     Store.parentId := Task.parentId task;
     Store.subtasks := subtasks;
     Store.dependencies := Task.dependencies task;
     Store.task_complexity := Task.complexity task;
     Store.created := Task.created task;
     Store.task_position := Task.position task |}.

(** [three_subtasks] at location 0 of a store, and [export_task] at
    location 5. *)
Definition store_a : Store.state :=
  {| Store.objects :=
       [ Store.OTask (task_object three_subtasks (Some 1%nat));
         Store.OArray [2; 3; 4]%nat;
         Store.OTask (task_object (leaf "2") None);
         Store.OTask (task_object (leaf "3") None);
         Store.OTask (task_object (leaf "4") None);
         Store.OTask (task_object export_task (Some 6%nat));
         Store.OArray [] ];
     Store.world := world0 |}.

(** [three_subtasks] again, at location 5 of another store, its subtasks
    at other locations and in another order, after an unrelated array. *)
Definition store_b : Store.state :=
  {| Store.objects :=
       [ Store.OArray [];
         Store.OTask (task_object (leaf "4") None);
         Store.OTask (task_object (leaf "3") None);
         Store.OTask (task_object (leaf "2") None);
         Store.OArray [3; 2; 1]%nat;
         Store.OTask (task_object three_subtasks (Some 4%nat)) ];
     Store.world :=
       {| clock := fun _ => 0%Z; entropy := fun _ => 0;
          clock_reads := 7; entropy_reads := 3 |} |}.

(** A store with a node that has no children, at location 2. *)
Definition store_c : Store.state :=
  {| Store.objects :=
       [ Store.OTask (task_object (leaf "2") None);
         Store.OArray [];
         Store.ONode
           {| Store.task := 0%nat; Store.depth := 0; Store.children := 1%nat;
              Store.position := {| x := 0; y := 2; z := 0 |};
              Store.size := 1.0; Store.complexity := 1 |} ];
     Store.world := world0 |}.

(** The algorithm object [new FractalAlgorithm()] makes, in the store. *)
Definition new_FractalAlgorithm : Store.FractalAlgorithm :=
  {| Store.maxDepth := 5; Store.minTaskSize := 0.1; Store.spreadFactor := 1.5;
     Store.root := None |}.

(** A task with nine subtasks. *)
Definition nine_subtasks : Task.t :=
  plain_task "1" None
    (Some [leaf "2"; leaf "3"; leaf "4"; leaf "5"; leaf "6"; leaf "7"; leaf "8";
           leaf "9"; leaf "10"])
    None.

(** A subtask with a status that is none of the four. *)
Definition archived_task : Task.t :=
  {| Task.id := "5"; Task.title := "Old"; Task.description := None;
     Task.status := Some "Archived"; Task.parentId := Some "1";
     Task.subtasks := None; Task.dependencies := None;
     Task.complexity := None; Task.created := "";
     Task.position := None |}.

(** A task as the form of the application makes it, with a parent when
    one is given. *)
Definition form_task (id status : string) (parentId : option string) : TaskData.t :=
  {| TaskData.id := Some id;
     TaskData.title := Some ("Task " ++ id);
     TaskData.description := Some "";
     TaskData.status := Some status;
     TaskData.parentId := parentId;
     TaskData.created := Some "2025-04-21T17:41:20.418Z";
     TaskData.position := None |}.

(** An update that changes nothing but the parent. *)
Definition new_parent (parentId : string) : TaskData.t :=
  {| TaskData.id := None; TaskData.title := None; TaskData.description := None;
     TaskData.status := None; TaskData.parentId := Some parentId;
     TaskData.created := None; TaskData.position := None |}.

(** The clock of [world0] once more, the count of readings added to the
    first instant. *)
Definition world1 : World :=
  {| clock := fun n => (Z.of_nat n + 1745257280418)%Z;
     entropy := fun _ => 0.5;
     clock_reads := 0;
     entropy_reads := 0 |}.

(** The state after [new TaskManager()] in [world1]: nothing stored, no
    listener called. *)
Definition fresh : TaskManager.State :=
  {| TaskManager.this := fst (TaskManager.new world1);
     TaskManager.localStorage := {| items := []; full := false |};
     TaskManager.world := snd (TaskManager.new world1);
     TaskManager.calls := [] |}.

(** [fresh] with a storage that takes no more. *)
Definition fresh_full : TaskManager.State :=
  {| TaskManager.this := TaskManager.this fresh;
     TaskManager.localStorage := {| items := []; full := true |};
     TaskManager.world := TaskManager.world fresh;
     TaskManager.calls := [] |}.

(** [fresh] with text in the storage that is not JSON. *)
Definition fresh_corrupt : TaskManager.State :=
  {| TaskManager.this := TaskManager.this fresh;
     TaskManager.localStorage :=
       {| items := [("focusar-tasks", Malformed)]; full := false |};
     TaskManager.world := TaskManager.world fresh;
     TaskManager.calls := [] |}.

(** A task manager with the tasks "1", its child "1.1", the child "1.1.1"
    of that one, and "2", added in this order. *)
Definition family : TaskManager.State :=
  snd (TaskManager.addTask (form_task "2" "Completed" None)
    (snd (TaskManager.addTask (form_task "1.1.1" "Blocked" (Some "1.1"))
      (snd (TaskManager.addTask (form_task "1.1" "In Progress" (Some "1"))
        (snd (TaskManager.addTask (form_task "1" "Not Started" None) fresh))))))).

(** The number of characters of a key: in [family], a numbering of the
    tasks above their parents. *)
Definition key_length (k : Map.key) : nat :=
  match k with
  | Some s => String.length s
  | None => 0
  end.

(** [family] after task "1" was made its own parent. *)
Definition looped : TaskManager.State :=
  snd (TaskManager.updateTask (Some "1") (new_parent "1") family).

(* ================================================================== *)
(** * Theorems *)
(* ================================================================== *)

(** ** Induction on tasks and on nodes *)

Lemma Task_ind' (P : Task.t -> Prop)
    (step : forall task : Task.t,
        (forall subtasks,
            Task.subtasks task = Some subtasks -> Forall P subtasks) ->
        P task) :
  forall task, P task.
Proof.
  refine (fix IH (task : Task.t) : P task := step task _).
  refine
    (match task as t0
       return forall subtasks, Task.subtasks t0 = Some subtasks -> Forall P subtasks
     with
     | Task.make _ _ _ _ _ subs _ _ _ _ => fun subtasks e => _
     end).
  simpl in e.
  refine
    (match e in _ = o
       return match o with Some l => Forall P l | None => True end
     with
     | eq_refl =>
         match subs as o
           return match o with Some l => Forall P l | None => True end
         with
         | Some l =>
             (fix all (l : list Task.t) : Forall P l :=
                match l with
                | [] => Forall_nil P
                | t0 :: l' => Forall_cons t0 (IH t0) (all l')
                end) l
         | None => I
         end
     end).
Qed.

Lemma FractalNode_ind' (P : FractalNode.t -> Prop)
    (step : forall node : FractalNode.t,
        Forall P (FractalNode.children node) -> P node) :
  forall node, P node.
Proof.
  fix IH 1.
  intros node. apply step.
  destruct node as [ta de cs po si co]. simpl.
  induction cs as [|c cs IHcs]; constructor.
  - apply IH.
  - exact IHcs.
Qed.

(** ** Arithmetic of scores *)

Ltac qlra := Lqa.lra.
Ltac rlra := Lra.lra.

Lemma len_nonneg (A : Type) (xs : list A) : 0 <= len xs.
Proof.
  unfold len, Qle. simpl. lia.
Qed.

Lemma str_len_nonneg (s : string) : 0 <= str_len s.
Proof.
  unfold str_len, Qle. simpl. lia.
Qed.

Lemma inject_nat_nonneg (n : nat) : 0 <= inject_Z (Z.of_nat n).
Proof.
  unfold Qle. simpl. lia.
Qed.

Lemma Qdiv_nonneg (a b : Q) : 0 <= a -> 0 < b -> 0 <= a / b.
Proof.
  intros Ha Hb. apply Qle_shift_div_l; [exact Hb | qlra].
Qed.

Lemma clamp_10_bounds (score : Q) :
  1 <= score -> 1 <= Qmin 10 score /\ Qmin 10 score <= 10.
Proof.
  intros H. split.
  - apply Q.min_glb; [qlra | exact H].
  - apply Q.le_min_l.
Qed.

Lemma clamp_5_bounds (v : Q) : 0 <= v -> 0 <= Qmin 5 v /\ Qmin 5 v <= 5.
Proof.
  intros H. split.
  - apply Q.min_glb; [qlra | exact H].
  - apply Q.le_min_l.
Qed.

Lemma _analyzeTextComplexity_bounds (text : string) :
  0 <= FractalAlgorithm._analyzeTextComplexity text
  /\ FractalAlgorithm._analyzeTextComplexity text <= 5.
Proof.
  unfold FractalAlgorithm._analyzeTextComplexity.
  apply clamp_5_bounds.
  pose proof (len_nonneg (Js.split Js.is_space text)) as Hw.
  pose proof (len_nonneg (Js.split Js.is_terminator text)) as Hs.
  pose proof (inject_nat_nonneg
                (Js.count_words FractalAlgorithm.technical_terms false text)) as Ht.
  assert (0 <= len (Js.split Js.is_space text) / 50)
    by (apply Qdiv_nonneg; [exact Hw | qlra]).
  assert (0 <= len (Js.split Js.is_terminator text) / 5)
    by (apply Qdiv_nonneg; [exact Hs | qlra]).
  qlra.
Qed.

(** A loop that only adds non-negative amounts does not lower the score. *)
Lemma fold_left_add_ge (A : Type) (f : A -> Q) (xs : list A) (init : Q) :
  Forall (fun a => 0 <= f a) xs ->
  init <= fold_left (fun score a => score + f a) xs init.
Proof.
  intros H. revert init.
  induction H as [|a xs Ha _ IH]; intros init; simpl.
  - qlra.
  - specialize (IH (init + f a)). qlra.
Qed.

Lemma calculateComplexity_bounds (task : Task.t) :
  1 <= FractalNode.calculateComplexity task
  /\ FractalNode.calculateComplexity task <= 10.
Proof.
  unfold FractalNode.calculateComplexity.
  apply clamp_10_bounds.
  assert (1 <= match Task.description task with
               | Some d => if Js.truthy d then 1 + Qmin 5 (str_len d / 100) else 1
               | None => 1
               end) as Hd.
  { destruct (Task.description task) as [d|]; [|qlra].
    destruct (Js.truthy d); [|qlra].
    pose proof (str_len_nonneg d) as Hl.
    assert (0 <= Qmin 5 (str_len d / 100))
      by (apply clamp_5_bounds, Qdiv_nonneg; [exact Hl | qlra]).
    qlra. }
  destruct (Task.subtasks task) as [subtasks|]; [|exact Hd].
  pose proof (len_nonneg subtasks). qlra.
Qed.

Lemma _analyzeComplexity_bounds (task : Task.t) :
  1 <= FractalAlgorithm._analyzeComplexity task
  /\ FractalAlgorithm._analyzeComplexity task <= 10.
Proof.
  induction task as [task IH] using Task_ind'.
  destruct task as [i ti d st pa subs deps c cr po]; simpl in *.
  apply clamp_10_bounds.
  set (s1 := match d with
             | Some d0 =>
                 if Js.truthy d0
                 then 1 + FractalAlgorithm._analyzeTextComplexity d0 else 1
             | None => 1
             end).
  assert (1 <= s1) as H1.
  { subst s1. destruct d as [d0|]; [|qlra].
    destruct (Js.truthy d0); [|qlra].
    pose proof (_analyzeTextComplexity_bounds d0). qlra. }
  set (s2 := match subs with
             | Some subtasks =>
                 fold_left
                   (fun score subtask =>
                      score + FractalAlgorithm._analyzeComplexity subtask * 0.5)
                   subtasks (s1 + len subtasks)
             | None => s1
             end).
  assert (1 <= s2) as H2.
  { subst s2. destruct subs as [subtasks|]; [|exact H1].
    specialize (IH subtasks eq_refl).
    pose proof (len_nonneg subtasks) as Hl.
    pose proof (@fold_left_add_ge _
                  (fun subtask => FractalAlgorithm._analyzeComplexity subtask * 0.5)
                  subtasks (s1 + len subtasks)) as Hf.
    simpl in Hf.
    assert (Forall
              (fun a => 0 <= FractalAlgorithm._analyzeComplexity a * 0.5) subtasks)
      as Hall.
    { eapply Forall_impl; [|exact IH]. simpl. intros a [Ha _]. qlra. }
    specialize (Hf Hall). qlra. }
  destruct deps as [dependencies|]; [|exact H2].
  pose proof (len_nonneg dependencies). qlra.
Qed.

(** ** [forEach] with an index *)

Lemma mapi_from_length (A B : Type) (f : nat -> A -> B) (xs : list A) (k : nat) :
  List.length (mapi_from f k xs) = List.length xs.
Proof.
  revert k. induction xs as [|a xs IH]; intros k; simpl; [reflexivity|].
  now rewrite IH.
Qed.

Lemma nth_error_mapi_from (A B : Type) (f : nat -> A -> B) (xs : list A)
    (k index : nat) :
  nth_error (mapi_from f k xs) index
  = option_map (f (k + index)%nat) (nth_error xs index).
Proof.
  revert k index. induction xs as [|a xs IH]; intros k index; simpl.
  - destruct index; reflexivity.
  - destruct index as [|index]; simpl.
    + now rewrite Nat.add_0_r.
    + rewrite IH. now rewrite Nat.add_succ_r.
Qed.

Lemma mapi_from_ext_Forall (A B : Type) (f g : nat -> A -> B) (xs : list A) :
  Forall (fun a => forall index, f index a = g index a) xs ->
  forall k, mapi_from f k xs = mapi_from g k xs.
Proof.
  induction 1 as [|a xs Ha _ IH]; intros k; simpl; [reflexivity|].
  now rewrite Ha, IH.
Qed.

Lemma mapi_from_mapi_from (A B C : Type) (f : nat -> B -> C) (g : nat -> A -> B)
    (xs : list A) (k : nat) :
  mapi_from f k (mapi_from g k xs) = mapi_from (fun i a => f i (g i a)) k xs.
Proof.
  revert k. induction xs as [|a xs IH]; intros k; simpl; [reflexivity|].
  now rewrite IH.
Qed.

Lemma mapi_from_map (A B C : Type) (f : nat -> B -> C) (g : A -> B)
    (xs : list A) (k : nat) :
  mapi_from f k (map g xs) = mapi_from (fun i a => f i (g a)) k xs.
Proof.
  revert k. induction xs as [|a xs IH]; intros k; simpl; [reflexivity|].
  now rewrite IH.
Qed.

Lemma mapi_from_app (A B : Type) (f : nat -> A -> B) (xs ys : list A) (k : nat) :
  mapi_from f k (xs ++ ys)
  = (mapi_from f k xs ++ mapi_from f (k + List.length xs) ys)%list.
Proof.
  revert k. induction xs as [|a xs IH]; intros k; simpl.
  - now rewrite Nat.add_0_r.
  - rewrite IH. now rewrite Nat.add_succ_r.
Qed.

(** ** Layout is decided by the position of the root alone *)

Lemma place_fields (p : Position) (node : FractalNode.t) :
  FractalNode.task (FractalNode.place p node) = FractalNode.task node
  /\ FractalNode.depth (FractalNode.place p node) = FractalNode.depth node
  /\ FractalNode.position (FractalNode.place p node) = p
  /\ FractalNode.size (FractalNode.place p node) = FractalNode.size node
  /\ FractalNode.complexity (FractalNode.place p node) = FractalNode.complexity node
  /\ FractalNode.children (FractalNode.place p node)
     = mapi_from
         (fun index child =>
            FractalNode.place
              (FractalNode.child_position p
                 (List.length (FractalNode.children node)) index) child)
         0 (FractalNode.children node).
Proof.
  destruct node; simpl. repeat split; reflexivity.
Qed.

Lemma updateLayout_place (node : FractalNode.t) :
  FractalNode.updateLayout node
  = FractalNode.place (FractalNode.position node) node.
Proof.
  destruct node; reflexivity.
Qed.

Lemma place_place (p q : Position) (node : FractalNode.t) :
  FractalNode.place p (FractalNode.place q node) = FractalNode.place p node.
Proof.
  revert p q. induction node as [node IH] using FractalNode_ind'.
  intros p q. destruct node as [ta de cs po si co]; simpl in *.
  f_equal.
  rewrite mapi_from_length, mapi_from_mapi_from.
  apply mapi_from_ext_Forall.
  eapply Forall_impl; [|exact IH]. simpl.
  intros child Hc index. apply Hc.
Qed.

(** [updateLayout] as the code has it: every child is given its position
    and laid out in turn. *)
Lemma updateLayout_unfold (this : FractalNode.t) :
  FractalNode.updateLayout this
  = FractalNode.set_children this
      (mapi
         (fun index child =>
            FractalNode.updateLayout
              (FractalNode.set_position child
                 (FractalNode.child_position (FractalNode.position this)
                    (List.length (FractalNode.children this)) index)))
         (FractalNode.children this)).
Proof.
  unfold FractalNode.updateLayout at 1. f_equal. unfold mapi.
  apply mapi_from_ext_Forall. apply Forall_forall.
  intros child _ index. rewrite updateLayout_place.
  destruct child; reflexivity.
Qed.

(** The childless node is its own layout. *)
Lemma place_new (task : Task.t) (depth : nat) :
  FractalNode.place origin (FractalNode.new task depth)
  = FractalNode.new task depth.
Proof.
  reflexivity.
Qed.

(** ** The tree [_buildTree] returns, in closed form *)

Lemma addChild_place (p : Position) (node child skel : FractalNode.t) :
  FractalNode.position node = p ->
  FractalNode.place p child = FractalNode.place p skel ->
  FractalNode.addChild (FractalNode.place p node) child
  = FractalNode.place p
      (FractalNode.set_children node (FractalNode.children node ++ [skel])%list).
Proof.
  intros Hp Hc. unfold FractalNode.addChild.
  rewrite updateLayout_place.
  destruct node as [ta de cs po si co]; simpl in *. subst po.
  f_equal.
  rewrite !length_app, mapi_from_length. simpl.
  rewrite !mapi_from_app, mapi_from_length, mapi_from_mapi_from. simpl.
  f_equal.
  - apply mapi_from_ext_Forall. apply Forall_forall.
    intros c _ index. apply place_place.
  - f_equal.
    rewrite <- (place_place _ p child), Hc. apply place_place.
Qed.

Lemma fold_addChild_place (this : FractalAlgorithm.t) (depth : nat)
    (subtasks : list Task.t) :
  Forall
    (fun subtask =>
       forall d,
         FractalAlgorithm._buildTree this subtask d
         = FractalNode.place origin (skeleton this subtask d)) subtasks ->
  forall node,
    FractalNode.position node = origin ->
    fold_left
      (fun node subtask =>
         FractalNode.addChild node
           (FractalAlgorithm._buildTree this subtask (depth + 1)))
      subtasks (FractalNode.place origin node)
    = FractalNode.place origin
        (FractalNode.set_children node
           (FractalNode.children node
              ++ map (fun subtask => skeleton this subtask (depth + 1)) subtasks)%list).
Proof.
  induction 1 as [|subtask subtasks Hs _ IH]; intros node Hp; simpl.
  - rewrite app_nil_r. destruct node; reflexivity.
  - rewrite (@addChild_place origin node _ (skeleton this subtask (depth + 1)) Hp).
    + rewrite IH by (destruct node; exact Hp).
      destruct node; simpl. now rewrite <- app_assoc.
    + rewrite Hs. apply place_place.
Qed.

Lemma _buildTree_closed_form (this : FractalAlgorithm.t) (task : Task.t) :
  forall depth,
    FractalAlgorithm._buildTree this task depth
    = FractalNode.place origin (skeleton this task depth).
Proof.
  induction task as [task IH] using Task_ind'.
  intros depth.
  destruct task as [i ti d st pa subs deps c cr po]; simpl in *.
  destruct (depth <? FractalAlgorithm.maxDepth this)%nat; [|reflexivity].
  destruct subs as [subtasks|]; [|reflexivity].
  specialize (IH subtasks eq_refl).
  pose proof (@fold_addChild_place this depth subtasks IH
                (FractalNode.new
                   (Task.make i ti d st pa (Some subtasks) deps c cr po) depth)
                eq_refl) as H.
  rewrite place_new in H. exact H.
Qed.

Lemma skeleton_maxDepth (this that : FractalAlgorithm.t) (task : Task.t) :
  FractalAlgorithm.maxDepth this = FractalAlgorithm.maxDepth that ->
  forall depth, skeleton this task depth = skeleton that task depth.
Proof.
  intros Hmd. induction task as [task IH] using Task_ind'.
  intros depth. destruct task as [i ti d st pa subs deps c cr po]; simpl in *.
  rewrite Hmd. f_equal.
  destruct (depth <? FractalAlgorithm.maxDepth that)%nat; [|reflexivity].
  destruct subs as [subtasks|]; [|reflexivity].
  apply map_ext_Forall.
  eapply Forall_impl; [|exact (IH subtasks eq_refl)]. simpl.
  intros subtask H. apply H.
Qed.

Lemma createFractalTree_closed_form (this : FractalAlgorithm.t) (task : Task.t) :
  fst (FractalAlgorithm.createFractalTree this task)
  = FractalNode.place anchor (skeleton this task 0).
Proof.
  unfold FractalAlgorithm.createFractalTree. simpl.
  rewrite updateLayout_place, _buildTree_closed_form.
  destruct (FractalNode.place origin (skeleton this task 0)) eqn:E.
  simpl.
  change (FractalNode.place anchor
            (FractalNode.set_position
               (FractalNode.make task0 depth children position size complexity)
               anchor)
          = FractalNode.place anchor (skeleton this task 0)).
  rewrite <- E.
  rewrite <- (place_place anchor origin (skeleton this task 0)).
  destruct (FractalNode.place origin (skeleton this task 0)); reflexivity.
Qed.

(** Of the algorithm object, the tree depends on [maxDepth] alone: not
    on [root], [minTaskSize] or [spreadFactor]. *)
Lemma createFractalTree_depends_on_maxDepth (this that : FractalAlgorithm.t)
    (task : Task.t) :
  FractalAlgorithm.maxDepth this = FractalAlgorithm.maxDepth that ->
  fst (FractalAlgorithm.createFractalTree this task)
  = fst (FractalAlgorithm.createFractalTree that task).
Proof.
  intros Hmd. rewrite !createFractalTree_closed_form.
  now rewrite (@skeleton_maxDepth this that task Hmd).
Qed.

(** ** Properties of every node of a built tree *)

Lemma Forall_mapi_from (A B : Type) (Q : B -> Prop) (f : nat -> A -> B)
    (xs : list A) :
  Forall (fun a => forall index, Q (f index a)) xs ->
  forall k, Forall Q (mapi_from f k xs).
Proof.
  induction 1 as [|a xs Ha _ IH]; intros k; simpl; constructor; auto.
Qed.

Lemma Forall_flat_map_intro (A B : Type) (Q : B -> Prop) (f : A -> list B)
    (xs : list A) :
  Forall (fun a => Forall Q (f a)) xs -> Forall Q (flat_map f xs).
Proof.
  induction 1 as [|a xs Ha _ IH]; simpl; [constructor|].
  apply Forall_app. split; assumption.
Qed.

(** Every node of a laid-out skeleton is itself a laid-out skeleton, of a
    task at a depth within [maxDepth]. *)
Lemma built_nodes_ind (this : FractalAlgorithm.t) (P : FractalNode.t -> Prop) :
  (forall p task depth,
      (depth <= FractalAlgorithm.maxDepth this)%nat ->
      P (FractalNode.place p (skeleton this task depth))) ->
  forall task p depth,
    (depth <= FractalAlgorithm.maxDepth this)%nat ->
    Forall P (nodes (FractalNode.place p (skeleton this task depth))).
Proof.
  intros HP.
  induction task as [task IH] using Task_ind'.
  intros p depth Hd.
  pose proof (HP p task depth Hd) as Hroot.
  destruct task as [i ti d st pa subs deps c cr po]; simpl in *.
  constructor; [exact Hroot|].
  apply Forall_flat_map_intro.
  destruct (Nat.ltb_spec depth (FractalAlgorithm.maxDepth this)) as [Hlt|Hge];
    [|constructor].
  destruct subs as [subtasks|]; [|constructor].
  rewrite mapi_from_map.
  apply Forall_mapi_from.
  eapply Forall_impl; [|exact (IH subtasks eq_refl)]. simpl.
  intros subtask Hsub index. apply Hsub. lia.
Qed.

Lemma created_nodes_ind (this : FractalAlgorithm.t) (P : FractalNode.t -> Prop) :
  (forall p task depth,
      (depth <= FractalAlgorithm.maxDepth this)%nat ->
      P (FractalNode.place p (skeleton this task depth))) ->
  forall task,
    Forall P (nodes (fst (FractalAlgorithm.createFractalTree this task))).
Proof.
  intros HP task. rewrite createFractalTree_closed_form.
  apply built_nodes_ind; [exact HP | lia].
Qed.

Lemma laid_out_place (p : Position) (node : FractalNode.t) :
  laid_out (FractalNode.place p node).
Proof.
  intros index child.
  destruct (place_fields p node) as (_ & _ & Hpos & _ & _ & Hcs).
  rewrite Hpos, Hcs, mapi_from_length, nth_error_mapi_from. simpl.
  destruct (nth_error (FractalNode.children node) index) as [c|]; simpl;
    [|discriminate].
  intros [= <-].
  apply (place_fields _ c).
Qed.

(** ** What [includes] decides *)

Lemma prefix_app (needle hay : string) :
  prefix needle hay = true <-> exists post, hay = needle ++ post.
Proof.
  revert hay. induction needle as [|c needle IH]; intros hay; simpl.
  - split; [intros _; now exists hay | intros _; destruct hay; reflexivity].
  - destruct hay as [|c' hay]; simpl.
    + split; [discriminate | intros [post H]; discriminate].
    + destruct (Ascii.ascii_dec c c') as [->|Hne].
      * rewrite IH. split; intros [post H]; exists post; congruence.
      * split; [discriminate | intros [post H]; congruence].
Qed.

Lemma includes_spec (hay needle : string) :
  Js.includes hay needle = true
  <-> exists pre post, hay = pre ++ needle ++ post.
Proof.
  induction hay as [|c hay IH].
  - unfold Js.includes. rewrite orb_false_r, prefix_app. split.
    + intros [post H]. now exists "", post.
    + intros [pre [post H]]. destruct pre; [now exists post | discriminate].
  - change (Js.includes (String c hay) needle)
      with (prefix needle (String c hay) || Js.includes hay needle).
    rewrite orb_true_iff, prefix_app, IH. split.
    + intros [[post H]|[pre [post H]]].
      * now exists "", post.
      * exists (String c pre), post. simpl. now rewrite H.
    + intros [pre [post H]]. destruct pre as [|c' pre]; simpl in H.
      * left. now exists post.
      * right. exists pre, post. congruence.
Qed.

(** ** Which branch [suggestDecomposition] takes *)


Lemma has_feature_breakdown (task : Task.t) :
  FractalAlgorithm.has_pattern (FractalAlgorithm._identifyPatterns task)
    "feature-breakdown"
  = Js.includes (FractalAlgorithm.lower_description task) "feature"
    || Js.includes (FractalAlgorithm.lower_description task) "functionality".
Proof.
  unfold FractalAlgorithm._identifyPatterns.
  destruct (Js.includes _ "implement" || Js.includes _ "develop"
            || Js.includes _ "create");
    destruct (Js.includes _ "feature" || Js.includes _ "functionality");
    destruct (Js.includes _ "improve" || Js.includes _ "optimize");
    reflexivity.
Qed.

(** The feature branch reads [task.description] only when it is a string. *)
Lemma feature_breakdown_has_description (task : Task.t) :
  FractalAlgorithm.has_pattern (FractalAlgorithm._identifyPatterns task)
    "feature-breakdown" = true ->
  exists d, Task.description task = Some d.
Proof.
  rewrite has_feature_breakdown. unfold FractalAlgorithm.lower_description.
  destruct (Task.description task) as [d|]; [now exists d|].
  discriminate.
Qed.

Lemma _extractFeatures_nonempty (description : string) :
  (0 < List.length (FractalAlgorithm._extractFeatures description))%nat.
Proof.
  unfold FractalAlgorithm._extractFeatures.
  destruct (Nat.ltb_spec 0
              (List.length
                 (flat_map
                    (fun sentence =>
                       match FractalAlgorithm.match_feature false sentence with
                       | Some phrase => [Js.trim phrase]
                       | None => []
                       end)
                    (Js.split Js.is_terminator description)))) as [H|H].
  - exact H.
  - simpl. lia.
Qed.

(** ** The stubs a loop of [_createSubtask] makes *)

Lemma bind_unfold (A B : Type) (m : M A) (k : A -> M B) (w : World) :
  bind m k w = k (fst (m w)) (snd (m w)).
Proof.
  unfold bind. destruct (m w); reflexivity.
Qed.

Lemma mapM_cons (A B : Type) (f : A -> M B) (a : A) (xs : list A) (w : World) :
  mapM f (a :: xs) w
  = (fst (f a w) :: fst (mapM f xs (snd (f a w))),
     snd (mapM f xs (snd (f a w)))).
Proof.
  simpl. unfold bind, ret.
  destruct (f a w) as [y w1]. simpl.
  destruct (mapM f xs w1) as [ys w2]. reflexivity.
Qed.

Lemma mapM_createSubtask (A : Type) (task : Task.t) (title : A -> string)
    (factor : A -> Q) (xs : list A) (w : World) :
  map title_and_complexity
    (fst (mapM (fun a => FractalAlgorithm._createSubtask task (title a) (factor a))
            xs w))
  = map (fun a => (title a, mul_field (Task.complexity task) (factor a))) xs.
Proof.
  revert w. induction xs as [|a xs IH]; intros w; [reflexivity|].
  rewrite mapM_cons. simpl. rewrite IH. reflexivity.
Qed.

(** ** Sums of weights *)

Lemma sumQ_constant (A : Type) (q : Q) (xs : list A) :
  sumQ (map (fun _ => q) xs) == len xs * q.
Proof.
  induction xs as [|a xs IH]; simpl.
  - unfold len, inject_Z. simpl. ring.
  - rewrite IH. unfold len. simpl List.length.
    rewrite Nat2Z.inj_succ, <- Z.add_1_r, inject_Z_plus.
    change (inject_Z 1) with 1. ring.
Qed.

Lemma equal_shares_sum_to_1 (A : Type) (xs : list A) :
  (0 < List.length xs)%nat ->
  sumQ (map (fun _ => 1.0 / len xs) xs) == 1.
Proof.
  intros H. rewrite sumQ_constant.
  assert (~ len xs == 0) as Hne.
  { unfold len, Qeq. simpl. lia. }
  field. exact Hne.
Qed.

Lemma number_sum_from (c : Q) (weights : list Q) (acc : Q) :
  exists total,
    fold_left number_add (map (fun weight => Num (c * weight)) weights) (Num acc)
    = Num total
    /\ total == acc + c * sumQ weights.
Proof.
  revert acc. induction weights as [|weight weights IH]; intros acc; simpl.
  - exists acc. split; [reflexivity | qlra].
  - destruct (IH (acc + c * weight)) as [total [H1 H2]].
    exists total. split; [exact H1|]. rewrite H2. qlra.
Qed.

Lemma number_sum_NaN_from (xs : list number) :
  fold_left number_add xs NaN = NaN.
Proof.
  induction xs as [|a xs IH]; simpl; [reflexivity | exact IH].
Qed.

Lemma number_sum_all_NaN (xs : list number) :
  xs <> [] -> Forall (fun a => a = NaN) xs -> number_sum xs = NaN.
Proof.
  intros Hne Hall. destruct Hall as [|a xs Ha _]; [congruence|].
  subst a. unfold number_sum. simpl. apply number_sum_NaN_from.
Qed.

(** ** Maximum and minimum that return an argument *)

Lemma Qmax_left (a q : Q) : q <= a -> Qmax a q = a.
Proof.
  intros H. unfold Qmax, GenericMinMax.gmax.
  destruct (a ?= q) eqn:E; try reflexivity.
  apply Qlt_alt in E. qlra.
Qed.

Lemma _calculateConnections_edges (this : FractalAlgorithm.t) (node : FractalNode.t) :
  FractalAlgorithm._calculateConnections this node
  = map
      (fun edge =>
         {| from := FractalNode.position (fst edge);
            to := FractalNode.position (snd edge);
            strength :=
              FractalAlgorithm._calculateConnectionStrength this (fst edge) (snd edge) |})
      (edges node).
Proof.
  induction node as [node IH] using FractalNode_ind'.
  assert (forall parent cs,
             Forall
               (fun c =>
                  FractalAlgorithm._calculateConnections this c
                  = map
                      (fun edge =>
                         {| from := FractalNode.position (fst edge);
                            to := FractalNode.position (snd edge);
                            strength :=
                              FractalAlgorithm._calculateConnectionStrength this
                                (fst edge) (snd edge) |})
                      (edges c)) cs ->
             flat_map
               (fun child =>
                  {| from := FractalNode.position parent;
                     to := FractalNode.position child;
                     strength :=
                       FractalAlgorithm._calculateConnectionStrength this parent child |}
                  :: FractalAlgorithm._calculateConnections this child) cs
             = map
                 (fun edge =>
                    {| from := FractalNode.position (fst edge);
                       to := FractalNode.position (snd edge);
                       strength :=
                         FractalAlgorithm._calculateConnectionStrength this
                           (fst edge) (snd edge) |})
                 (flat_map (fun child => (parent, child) :: edges child) cs)) as Haux.
  { intros parent cs Hall.
    induction Hall as [|c cs Hc _ IHcs]; simpl; [reflexivity|].
    rewrite map_app, <- Hc, <- IHcs. reflexivity. }
  destruct node as [ta de cs po si co].
  exact (Haux (FractalNode.make ta de cs po si co) cs IH).
Qed.

Lemma map_mapi_from (A B C : Type) (g : B -> C) (f : nat -> A -> B)
    (xs : list A) (k : nat) :
  map g (mapi_from f k xs) = mapi_from (fun i a => g (f i a)) k xs.
Proof.
  revert k. induction xs as [|a xs IH]; intros k; simpl; [reflexivity|].
  now rewrite IH.
Qed.

Lemma mapi_from_const (A B : Type) (f : A -> B) (xs : list A) (k : nat) :
  mapi_from (fun _ a => f a) k xs = map f xs.
Proof.
  revert k. induction xs as [|a xs IH]; intros k; simpl; [reflexivity|].
  now rewrite IH.
Qed.

(* ================================================================== *)
(** * The store model computes what the functional model computes *)
(* ================================================================== *)

(** ** The store as a list *)

Lemma update_length (A : Type) (xs : list A) (i : nat) (x : A) :
  List.length (Store.update xs i x) = List.length xs.
Proof.
  revert i. induction xs as [|a xs IH]; intros i; simpl; [reflexivity|].
  destruct i; simpl; [reflexivity | now rewrite IH].
Qed.

Lemma nth_error_update_eq (A : Type) (xs : list A) (i : nat) (x : A) :
  (i < List.length xs)%nat -> nth_error (Store.update xs i x) i = Some x.
Proof.
  revert i. induction xs as [|a xs IH]; intros i H; simpl in *; [lia|].
  destruct i; simpl; [reflexivity | apply IH; lia].
Qed.

Lemma nth_error_update_neq (A : Type) (xs : list A) (i j : nat) (x : A) :
  i <> j -> nth_error (Store.update xs i x) j = nth_error xs j.
Proof.
  revert i j. induction xs as [|a xs IH]; intros i j H; simpl; [reflexivity|].
  destruct i, j; simpl; try reflexivity; [congruence | apply IH; congruence].
Qed.

Lemma update_same (A : Type) (xs : list A) (i : nat) (x : A) :
  nth_error xs i = Some x -> Store.update xs i x = xs.
Proof.
  revert i. induction xs as [|a xs IH]; intros i H; simpl; [reflexivity|].
  destruct i; simpl in *; [congruence | now rewrite IH].
Qed.

Lemma nth_error_lt (A : Type) (xs : list A) (i : nat) (x : A) :
  nth_error xs i = Some x -> (i < List.length xs)%nat.
Proof.
  intros H. apply nth_error_Some. congruence.
Qed.

Lemma preserved_refl (h : list Store.object) : preserved h h.
Proof.
  intros l o H. exact H.
Qed.

Lemma preserved_trans (h1 h2 h3 : list Store.object) :
  preserved h1 h2 -> preserved h2 h3 -> preserved h1 h3.
Proof.
  intros H12 H23 l o H. apply H23, H12, H.
Qed.

Lemma preserved_app (h extra : list Store.object) : preserved h (h ++ extra).
Proof.
  intros l o H. rewrite nth_error_app1; [exact H | eapply nth_error_lt; eauto].
Qed.

Lemma preserved_length (h h' : list Store.object) :
  preserved h h' -> (List.length h <= List.length h')%nat.
Proof.
  intros H.
  destruct (Nat.le_gt_cases (List.length h) (List.length h')) as [Hle|Hgt];
    [exact Hle|].
  destruct (nth_error h (List.length h - 1)) as [o|] eqn:E.
  - apply H, nth_error_lt in E. lia.
  - apply nth_error_None in E. lia.
Qed.

(** ** Running the primitives *)

Lemma bind_run {A B : Type} {m : Store.H A} (k : A -> Store.H B)
    {st st1 : Store.state} {a : A} :
  m st = Some (a, st1) -> Store.bind m k st = k a st1.
Proof.
  intros H. unfold Store.bind. now rewrite H.
Qed.

Lemma load_task_run (st : Store.state) (l : Store.loc) (o : Store.TaskObject) :
  nth_error (Store.objects st) l = Some (Store.OTask o) ->
  Store.load_task l st = Some (o, st).
Proof.
  intros H. unfold Store.load_task, Store.bind, Store.load. now rewrite H.
Qed.

Lemma load_node_run (st : Store.state) (l : Store.loc) (o : Store.NodeObject) :
  nth_error (Store.objects st) l = Some (Store.ONode o) ->
  Store.load_node l st = Some (o, st).
Proof.
  intros H. unfold Store.load_node, Store.bind, Store.load. now rewrite H.
Qed.

Lemma load_array_run (st : Store.state) (l : Store.loc) (elements : list Store.loc) :
  nth_error (Store.objects st) l = Some (Store.OArray elements) ->
  Store.load_array l st = Some (elements, st).
Proof.
  intros H. unfold Store.load_array, Store.bind, Store.load. now rewrite H.
Qed.

Lemma store_run (st : Store.state) (l : Store.loc) (o o' : Store.object) :
  nth_error (Store.objects st) l = Some o ->
  Store.store l o' st
  = Some (tt, {| Store.objects := Store.update (Store.objects st) l o';
                 Store.world := Store.world st |}).
Proof.
  intros H. unfold Store.store.
  apply nth_error_lt in H. apply Nat.ltb_lt in H. now rewrite H.
Qed.

(** ** Tasks in a larger store *)

Lemma task_at_preserved (h h' : list Store.object) :
  preserved h h' ->
  forall task l, task_at h l task -> task_at h' l task.
Proof.
  intros Hp. induction task as [task IH] using Task_ind'.
  intros l H. inversion H as [l0 o task0 Hl Hprops Hsubs]; subst.
  apply task_at_intro with o; [apply Hp, Hl | exact Hprops |].
  inversion Hsubs as [|array elements values Harr Hall E1 E2].
  - constructor.
  - symmetry in E2. specialize (IH values E2).
    apply array_at_Some with elements; [apply Hp, Harr|].
    clear - IH Hall.
    induction Hall as [|e v es vs Hev _ IHall]; constructor;
      inversion IH; subst; auto.
Qed.

Lemma Forall2_length_eq (A B : Type) (R : A -> B -> Prop) (xs : list A)
    (ys : list B) :
  Forall2 R xs ys -> List.length xs = List.length ys.
Proof.
  induction 1; simpl; congruence.
Qed.

(** ** Reading a task from the store *)

Lemma calculateComplexity_run (h0 : list Store.object) (st : Store.state)
    (l : Store.loc) (task : Task.t) :
  task_at h0 l task ->
  preserved h0 (Store.objects st) ->
  Store.calculateComplexity l st
  = Some (FractalNode.calculateComplexity task, st).
Proof.
  intros H Hp. inversion H as [l0 o task0 Hl Hprops Hsubs]; subst.
  destruct Hprops as (_ & _ & Hd & _).
  unfold Store.calculateComplexity, FractalNode.calculateComplexity.
  rewrite (bind_run _ (load_task_run st l (Hp _ _ Hl))).
  rewrite Hd.
  inversion Hsubs as [E1 E2|array elements values Harr Hall E1 E2].
  - reflexivity.
  - unfold Store.bind at 1.
    rewrite (bind_run _ (load_array_run st array (Hp _ _ Harr))).
    unfold Store.ret, len. now rewrite (Forall2_length_eq Hall).
Qed.


(** ** Trees in a changed store *)

Lemma tree_at_bounds (h0 h : list Store.object) (lo hi : nat) (l : Store.loc)
    (node : FractalNode.t) :
  tree_at h0 h lo hi l node ->
  l = S lo /\ (S (S lo) <= hi)%nat /\ (hi <= List.length h)%nat.
Proof.
  intros H. inversion H; subst. auto.
Qed.

Lemma consecutive_le (h0 h : list Store.object) (a b : nat)
    (ls : list Store.loc) (ns : list FractalNode.t) :
  consecutive (tree_at h0 h) a b ls ns -> (a <= b)%nat.
Proof.
  induction 1 as [a|a m b l ls n ns Hn _ IH]; [lia|].
  apply tree_at_bounds in Hn. lia.
Qed.

Lemma consecutive_frame (h0 h h' : list Store.object) (ns : list FractalNode.t) :
  Forall
    (fun n =>
       forall lo hi l,
         tree_at h0 h lo hi l n ->
         (forall k, (lo <= k < hi)%nat -> nth_error h' k = nth_error h k) ->
         (hi <= List.length h')%nat ->
         tree_at h0 h' lo hi l n) ns ->
  forall a b ls,
    consecutive (tree_at h0 h) a b ls ns ->
    (forall k, (a <= k < b)%nat -> nth_error h' k = nth_error h k) ->
    (b <= List.length h')%nat ->
    consecutive (tree_at h0 h') a b ls ns.
Proof.
  intros Hall a b ls Hc. induction Hc as [a|a m b l ls n ns Hn Hc IH];
    intros Hagree Hlen; [constructor|].
  inversion Hall as [|n' ns' Hn' Hns']; subst.
  pose proof (tree_at_bounds Hn) as (_ & Ham & _).
  pose proof (consecutive_le Hc) as Hmb.
  apply consecutive_cons with m.
  - apply Hn'; [exact Hn | intros k Hk; apply Hagree; lia | lia].
  - apply IH; [exact Hns' | intros k Hk; apply Hagree; lia | exact Hlen].
Qed.

Lemma tree_at_frame (h0 h h' : list Store.object) (node : FractalNode.t) :
  forall lo hi l,
    tree_at h0 h lo hi l node ->
    (forall k, (lo <= k < hi)%nat -> nth_error h' k = nth_error h k) ->
    (hi <= List.length h')%nat ->
    tree_at h0 h' lo hi l node.
Proof.
  induction node as [node IH] using FractalNode_ind'.
  intros lo hi l H Hagree Hlen.
  inversion H as [lo0 hi0 l0 node0 elements task El Hlo Hhi Harr Hnode Htask Hcs];
    subst.
  apply tree_at_intro with elements task; auto.
  - rewrite Hagree by lia. exact Harr.
  - rewrite Hagree by lia. exact Hnode.
  - apply (consecutive_frame IH Hcs); [|exact Hlen].
    intros k Hk. apply Hagree. lia.
Qed.

(** ** Heights *)

Lemma height_place (p : Position) (node : FractalNode.t) :
  height (FractalNode.place p node) = height node.
Proof.
  revert p. induction node as [node IH] using FractalNode_ind'.
  intros p. destruct node as [ta de cs po si co]; simpl in *.
  do 2 f_equal. rewrite map_mapi_from.
  rewrite <- (mapi_from_const height cs 0).
  apply mapi_from_ext_Forall.
  eapply Forall_impl; [|exact IH]. simpl. intros c Hc index. apply Hc.
Qed.

Lemma height_child (node child : FractalNode.t) :
  In child (FractalNode.children node) -> (height child < height node)%nat.
Proof.
  destruct node as [ta de cs po si co]; simpl.
  induction cs as [|c cs IH]; simpl; [tauto|].
  intros [->|Hin]; [lia|]. specialize (IH Hin). lia.
Qed.

Lemma height_positive (node : FractalNode.t) : (1 <= height node)%nat.
Proof.
  destruct node; simpl; lia.
Qed.


(** ** Layout in the store *)

Lemma assign_position_node_run (st : Store.state) (l : Store.loc)
    (o : Store.NodeObject) (p : Position) :
  nth_error (Store.objects st) l = Some (Store.ONode o) ->
  Store.assign_position l p st
  = Some (tt,
          {| Store.objects :=
               Store.update (Store.objects st) l
                 (Store.ONode
                    {| Store.task := Store.task o; Store.depth := Store.depth o;
                       Store.children := Store.children o; Store.position := p;
                       Store.size := Store.size o;
                       Store.complexity := Store.complexity o |});
             Store.world := Store.world st |}).
Proof.
  intros H. unfold Store.assign_position, Store.bind, Store.load.
  rewrite H. apply (store_run st l _ H).
Qed.

Lemma consecutive_length (T : nat -> nat -> Store.loc -> FractalNode.t -> Prop)
    (a b : nat) (ls : list Store.loc) (ns : list FractalNode.t) :
  consecutive T a b ls ns -> List.length ls = List.length ns.
Proof.
  induction 1; simpl; congruence.
Qed.

Lemma layout_loop (h0 : list Store.object) (this : Store.loc)
    (o : Store.NodeObject) (count fuel : nat) (ns : list FractalNode.t) :
  Forall place_spec ns ->
  Forall (fun c => (height c <= fuel)%nat) ns ->
  forall (ls : list Store.loc) (a b k : nat) (st : Store.state),
    consecutive (tree_at h0 (Store.objects st)) a b ls ns ->
    nth_error (Store.objects st) this = Some (Store.ONode o) ->
    (this < a)%nat ->
    (b <= List.length (Store.objects st))%nat ->
    exists st',
      Store.forEach_from
        (fun index child =>
           Store.bind (Store.load_node this)
             (fun n =>
                Store.bind
                  (Store.assign_position child
                     (FractalNode.child_position (Store.position n) count index))
                  (fun _ => Store.updateLayout fuel child)))
        k ls st = Some (tt, st')
      /\ consecutive (tree_at h0 (Store.objects st')) a b ls
           (mapi_from
              (fun index c =>
                 FractalNode.place
                   (FractalNode.child_position (Store.position o) count index) c)
              k ns)
      /\ (forall j, (j < a \/ b <= j)%nat ->
                    nth_error (Store.objects st') j = nth_error (Store.objects st) j)
      /\ List.length (Store.objects st') = List.length (Store.objects st)
      /\ Store.world st' = Store.world st.
Proof.
  intros Hspec. induction Hspec as [|c ns Hc _ IH]; intros Hfuel ls a b k st Hcs Hthis Hlt Hb.
  - inversion Hcs; subst. exists st. repeat split. constructor.
  - inversion Hcs as [|a0 m b0 l0 ls' c0 ns0 Hhead Hrest]; subst.
    inversion Hfuel as [|c0 ns0 Hfc Hfns]; subst.
    pose proof (tree_at_bounds Hhead) as (_ & Ham & _).
    pose proof (consecutive_le Hrest) as Hmb.
    destruct (Hc h0 st a m l0
                (FractalNode.child_position (Store.position o) count k) fuel
                Hhead Hfc) as (st1 & Hrun1 & Htree1 & Hframe1 & Hlen1 & Hw1).
    assert (consecutive (tree_at h0 (Store.objects st1)) m b ls' ns) as Hrest1.
    { apply (@consecutive_frame h0 (Store.objects st) (Store.objects st1) ns);
        [| exact Hrest | intros j Hj; apply Hframe1; lia | lia].
      apply Forall_forall. intros n _ lo hi l. apply tree_at_frame. }
    assert (nth_error (Store.objects st1) this = Some (Store.ONode o)) as Hthis1.
    { rewrite Hframe1 by lia. exact Hthis. }
    destruct (IH Hfns ls' m b (S k) st1 Hrest1 Hthis1 ltac:(lia) ltac:(lia))
      as (st' & Hrun & Htrees & Hframe & Hlen & Hw).
    exists st'. split; [|split; [|split; [|split]]].
    + simpl. unfold Store.bind at 1.
      rewrite (bind_run _ (load_node_run st this Hthis)).
      rewrite Hrun1. exact Hrun.
    + simpl. apply consecutive_cons with m; [|exact Htrees].
      eapply tree_at_frame; [exact Htree1 | intros j Hj; apply Hframe; lia | lia].
    + intros j Hj. rewrite Hframe by lia. apply Hframe1. lia.
    + lia.
    + congruence.
Qed.

Lemma updateLayout_step (node : FractalNode.t) :
  Forall place_spec (FractalNode.children node) ->
  forall (h0 : list Store.object) (st : Store.state) (lo hi : nat)
         (l : Store.loc) (fuel : nat),
    tree_at h0 (Store.objects st) lo hi l node ->
    (height node <= fuel)%nat ->
    exists st',
      Store.updateLayout fuel l st = Some (tt, st')
      /\ tree_at h0 (Store.objects st') lo hi l (FractalNode.updateLayout node)
      /\ (forall k, (k < lo \/ hi <= k)%nat ->
                    nth_error (Store.objects st') k = nth_error (Store.objects st) k)
      /\ List.length (Store.objects st') = List.length (Store.objects st)
      /\ Store.world st' = Store.world st.
Proof.
  intros Hspec h0 st lo hi l fuel Htree Hfuel.
  inversion Htree
    as [lo0 hi0 l0 node0 elements task El Hlo Hhi Harr Hnode Htask Hcs]; subst.
  destruct fuel as [|fuel]; [pose proof (height_positive node); lia|].
  assert (Forall (fun c => (height c <= fuel)%nat) (FractalNode.children node))
    as Hheights.
  { apply Forall_forall. intros c Hin. apply height_child in Hin. lia. }
  destruct (@layout_loop h0 (S lo) _ (List.length elements) fuel _ Hspec
              Hheights elements (S (S lo)) hi 0%nat st Hcs Hnode ltac:(lia) Hhi)
    as (st' & Hrun & Htrees & Hframe & Hlen & Hw).
  exists st'. split; [|split; [|split; [|split]]]; auto.
  - simpl. rewrite (bind_run _ (load_node_run st (S lo) Hnode)). simpl.
    rewrite (bind_run _ (load_array_run st lo Harr)). exact Hrun.
  - rewrite (consecutive_length Hcs) in Htrees. simpl in Htrees.
    destruct node as [ta de cs po si co]; simpl in *.
    apply tree_at_intro with elements task; auto; try lia.
    + rewrite Hframe by lia. exact Harr.
    + rewrite Hframe by lia. exact Hnode.
  - intros k Hk. apply Hframe. lia.
Qed.

Lemma place_run (node : FractalNode.t) : place_spec node.
Proof.
  induction node as [node IH] using FractalNode_ind'.
  intros h0 st lo hi l p fuel Htree Hfuel.
  inversion Htree
    as [lo0 hi0 l0 node0 elements task El Hlo Hhi Harr Hnode Htask Hcs]; subst.
  pose proof (assign_position_node_run st (S lo) p Hnode) as Hassign. simpl in Hassign.
  set (st1 := {| Store.objects :=
                   Store.update (Store.objects st) (S lo)
                     (Store.ONode
                        {| Store.task := task;
                           Store.depth := FractalNode.depth node;
                           Store.children := lo; Store.position := p;
                           Store.size := FractalNode.size node;
                           Store.complexity := FractalNode.complexity node |});
                 Store.world := Store.world st |}) in *.
  assert (List.length (Store.objects st1) = List.length (Store.objects st))
    as Hlen1 by apply update_length.
  assert (forall k, k <> S lo ->
                    nth_error (Store.objects st1) k = nth_error (Store.objects st) k)
    as Hframe1 by (intros k Hk; apply nth_error_update_neq; congruence).
  assert (nth_error (Store.objects st1) (S lo)
          = Some (Store.ONode
                    {| Store.task := task;
                       Store.depth := FractalNode.depth node;
                       Store.children := lo; Store.position := p;
                       Store.size := FractalNode.size node;
                       Store.complexity := FractalNode.complexity node |}))
    as Hnode1 by (apply nth_error_update_eq; lia).
  assert (Store.world st1 = Store.world st) as Hw1 by reflexivity.
  clearbody st1.
  assert (tree_at h0 (Store.objects st1) lo hi (S lo)
            (FractalNode.set_position node p)) as Htree1.
  { destruct node as [ta de cs po si co]; simpl in *.
    apply tree_at_intro with elements task; auto; try lia.
    - rewrite Hframe1 by lia. exact Harr.
    - apply (@consecutive_frame h0 (Store.objects st) (Store.objects st1) cs);
        [| exact Hcs | intros k Hk; apply Hframe1; lia | lia].
      apply Forall_forall. intros n _ lo' hi' l'. apply tree_at_frame. }
  assert (FractalNode.children (FractalNode.set_position node p)
          = FractalNode.children node) as Hcs1 by (destruct node; reflexivity).
  assert (height (FractalNode.set_position node p) = height node) as Hh1
    by (destruct node; reflexivity).
  destruct (@updateLayout_step (FractalNode.set_position node p)
              ltac:(rewrite Hcs1; exact IH) h0 st1 lo hi (S lo) fuel Htree1
              ltac:(lia))
    as (st' & Hrun & Htree' & Hframe & Hlen & Hw).
  exists st'. split; [|split; [|split; [|split]]].
  - rewrite (bind_run _ Hassign). exact Hrun.
  - rewrite updateLayout_place in Htree'.
    replace (FractalNode.place p node)
      with (FractalNode.place
              (FractalNode.position (FractalNode.set_position node p))
              (FractalNode.set_position node p))
      by (destruct node; reflexivity).
    exact Htree'.
  - intros k Hk. rewrite Hframe by exact Hk. apply Hframe1. lia.
  - lia.
  - congruence.
Qed.

Lemma updateLayout_run (h0 : list Store.object) (st : Store.state) (lo hi : nat)
    (l : Store.loc) (fuel : nat) (node : FractalNode.t) :
  tree_at h0 (Store.objects st) lo hi l node ->
  (height node <= fuel)%nat ->
  exists st',
    Store.updateLayout fuel l st = Some (tt, st')
    /\ tree_at h0 (Store.objects st') lo hi l (FractalNode.updateLayout node)
    /\ (forall k, (k < lo \/ hi <= k)%nat ->
                  nth_error (Store.objects st') k = nth_error (Store.objects st) k)
    /\ List.length (Store.objects st') = List.length (Store.objects st)
    /\ Store.world st' = Store.world st.
Proof.
  apply updateLayout_step. apply Forall_forall. intros c _. apply place_run.
Qed.


(** ** Heights of built trees *)

Lemma height_le_children (node : FractalNode.t) (bound : nat) :
  Forall (fun c => (height c <= bound)%nat) (FractalNode.children node) ->
  (height node <= S bound)%nat.
Proof.
  destruct node as [ta de cs po si co]; simpl.
  induction 1 as [|c cs Hc _ IH]; simpl; lia.
Qed.

Lemma height_skeleton (this : FractalAlgorithm.t) (task : Task.t) :
  forall depth,
    (depth <= FractalAlgorithm.maxDepth this)%nat ->
    (height (skeleton this task depth)
     <= S (FractalAlgorithm.maxDepth this - depth))%nat.
Proof.
  induction task as [task IH] using Task_ind'.
  intros depth Hd. apply height_le_children.
  destruct task as [i ti d st pa subs deps c cr po]; simpl in *.
  destruct (Nat.ltb_spec depth (FractalAlgorithm.maxDepth this)) as [Hlt|Hge];
    [|constructor].
  destruct subs as [subtasks|]; [|constructor].
  apply Forall_map.
  eapply Forall_impl; [|exact (IH subtasks eq_refl)]. simpl.
  intros subtask Hs. specialize (Hs (depth + 1)%nat ltac:(lia)). lia.
Qed.

Lemma height__buildTree (this : FractalAlgorithm.t) (task : Task.t) (depth : nat) :
  (depth <= FractalAlgorithm.maxDepth this)%nat ->
  (height (FractalAlgorithm._buildTree this task depth)
   <= S (FractalAlgorithm.maxDepth this - depth))%nat.
Proof.
  intros Hd. rewrite _buildTree_closed_form, height_place.
  now apply height_skeleton.
Qed.

Lemma children_heights_addChild (node child : FractalNode.t) (bound : nat) :
  Forall (fun c => (height c <= bound)%nat) (FractalNode.children node) ->
  (height child <= bound)%nat ->
  Forall (fun c => (height c <= bound)%nat)
    (FractalNode.children (FractalNode.addChild node child)).
Proof.
  intros Hcs Hc. unfold FractalNode.addChild, FractalNode.updateLayout, mapi.
  destruct node as [ta de cs po si co]; simpl in *.
  apply Forall_mapi_from.
  assert (Forall (fun c => (height c <= bound)%nat) (cs ++ [child])) as Hall
    by (apply Forall_app; split; [exact Hcs | constructor; [exact Hc | constructor]]).
  eapply Forall_impl; [|exact Hall]. simpl.
  intros c Hle index. now rewrite height_place.
Qed.

Lemma consecutive_app (T : nat -> nat -> Store.loc -> FractalNode.t -> Prop)
    (a m b : nat) (ls ls' : list Store.loc) (ns ns' : list FractalNode.t) :
  consecutive T a m ls ns ->
  consecutive T m b ls' ns' ->
  consecutive T a b (ls ++ ls') (ns ++ ns').
Proof.
  induction 1 as [a|a m0 m l ls n ns Hn _ IH]; intros H'; simpl; [exact H'|].
  apply consecutive_cons with m0; [exact Hn | apply IH, H'].
Qed.

(** ** Building the tree in the store *)

(** A loop that makes no use of the index. *)
Lemma forEach_from_index (A : Type) (f : A -> Store.H unit) (xs : list A)
    (i j : nat) (st : Store.state) :
  Store.forEach_from (fun _ => f) i xs st = Store.forEach_from (fun _ => f) j xs st.
Proof.
  revert i j st. induction xs as [|x xs IH]; intros i j st; simpl; [reflexivity|].
  unfold Store.bind. destruct (f x st) as [[u st']|]; [apply IH | reflexivity].
Qed.

Lemma preserved_frame (h0 : list Store.object) (st st' : Store.state) (lo : nat) :
  preserved h0 (Store.objects st) ->
  (List.length h0 <= lo)%nat ->
  (forall k, (k < lo)%nat ->
             nth_error (Store.objects st') k = nth_error (Store.objects st) k) ->
  preserved h0 (Store.objects st').
Proof.
  intros Hp Hlo Hframe l o H.
  rewrite Hframe; [apply Hp, H | apply nth_error_lt in H; lia].
Qed.

Lemma addChild_run (h0 : list Store.object) (st : Store.state) (lo : nat)
    (l child_loc : Store.loc) (node child : FractalNode.t) (fuel : nat) :
  tree_at h0 (Store.objects st) lo (List.length (Store.objects st)) child_loc child
  ->
  forall (st0 : Store.state) (base : nat),
    tree_at h0 (Store.objects st0) base lo l node ->
    (forall k, (k < lo)%nat ->
               nth_error (Store.objects st) k = nth_error (Store.objects st0) k) ->
    (height (FractalNode.set_children node
               (FractalNode.children node ++ [child])%list) <= fuel)%nat ->
    exists st',
      Store.addChild fuel l child_loc st = Some (tt, st')
      /\ tree_at h0 (Store.objects st') base (List.length (Store.objects st')) l
           (FractalNode.addChild node child)
      /\ (forall k, (k < base)%nat ->
                    nth_error (Store.objects st') k = nth_error (Store.objects st) k)
      /\ List.length (Store.objects st') = List.length (Store.objects st)
      /\ Store.world st' = Store.world st.
Proof.
  intros Hchild st0 base Hnode Hframe0 Hfuel.
  inversion Hnode
    as [lo0 hi0 l0 node0 elements task El Hlo Hhi Harr Hobj Htask Hcs]; subst.
  pose proof (tree_at_bounds Hchild) as (_ & Hclo & _).
  assert (nth_error (Store.objects st) base = Some (Store.OArray elements))
    as Harr1 by (rewrite Hframe0 by lia; exact Harr).
  pose proof Hobj as Hobj1. rewrite <- Hframe0 in Hobj1 by lia.
  (* the push *)
  set (st2 := {| Store.objects :=
                   Store.update (Store.objects st) base
                     (Store.OArray (elements ++ [child_loc]));
                 Store.world := Store.world st |}).
  assert (Store.push base child_loc st = Some (tt, st2)) as Hpush.
  { unfold Store.push. rewrite (bind_run _ (load_array_run st base Harr1)).
    apply (store_run st base _ Harr1). }
  assert (List.length (Store.objects st2) = List.length (Store.objects st))
    as Hlen2 by apply update_length.
  assert (forall k, k <> base ->
                    nth_error (Store.objects st2) k = nth_error (Store.objects st) k)
    as Hframe2 by (intros k Hk; apply nth_error_update_neq; congruence).
  assert (nth_error (Store.objects st2) base
          = Some (Store.OArray (elements ++ [child_loc]))) as Harr2
    by (apply nth_error_update_eq; apply nth_error_lt in Harr1; exact Harr1).
  assert (Store.world st2 = Store.world st) as Hw2 by reflexivity.
  clearbody st2.
  assert (tree_at h0 (Store.objects st2) base (List.length (Store.objects st2)) (S base)
            (FractalNode.set_children node
               (FractalNode.children node ++ [child])%list)) as Htree2.
  { destruct node as [ta de cs po si co]; simpl in *.
    apply tree_at_intro with (elements ++ [child_loc])%list task; auto; try lia.
    - rewrite Hframe2 by lia. exact Hobj1.
    - apply consecutive_app with lo.
      + apply (@consecutive_frame h0 (Store.objects st0) (Store.objects st2) cs);
          [| exact Hcs | | lia].
        * apply Forall_forall. intros n _ lo' hi' l'. apply tree_at_frame.
        * intros k Hk. rewrite Hframe2 by lia. apply Hframe0. lia.
      + apply consecutive_cons with (List.length (Store.objects st2)); [|constructor].
        rewrite Hlen2. eapply tree_at_frame; [exact Hchild | | lia].
        intros k Hk. apply Hframe2. lia. }
  destruct (@updateLayout_run h0 st2 base _ (S base) fuel _ Htree2 Hfuel)
    as (st' & Hrun & Htree' & Hframe & Hlen & Hw).
  exists st'. split; [|split; [|split; [|split]]].
  - unfold Store.addChild.
    rewrite (bind_run _ (load_node_run st (S base) Hobj1)). simpl.
    rewrite (bind_run _ Hpush). exact Hrun.
  - rewrite Hlen. exact Htree'.
  - intros k Hk. rewrite Hframe by lia. apply Hframe2. lia.
  - lia.
  - congruence.
Qed.

Lemma build_loop (h0 : list Store.object) (this : Store.FractalAlgorithm)
    (that : FractalAlgorithm.t) (depth fuel : nat) (l : Store.loc) (base : nat) :
  let maxDepth := FractalAlgorithm.maxDepth that in
  (depth < maxDepth)%nat ->
  (maxDepth - depth <= fuel)%nat ->
  (List.length h0 <= base)%nat ->
  forall subtasks : list Task.t,
    Forall (build_spec h0 this that) subtasks ->
    forall (elements : list Store.loc),
      Forall2 (task_at h0) elements subtasks ->
      forall (st : Store.state) (node : FractalNode.t),
        tree_at h0 (Store.objects st) base (List.length (Store.objects st)) l node ->
        preserved h0 (Store.objects st) ->
        Forall (fun c => (height c <= maxDepth - depth)%nat)
          (FractalNode.children node) ->
        exists st',
          Store.forEach
            (fun subtask =>
               Store.bind (Store._buildTree fuel this subtask (depth + 1))
                 (fun childNode => Store.addChild (S fuel) l childNode))
            elements st = Some (tt, st')
          /\ tree_at h0 (Store.objects st') base (List.length (Store.objects st')) l
               (fold_left
                  (fun node subtask =>
                     FractalNode.addChild node
                       (FractalAlgorithm._buildTree that subtask (depth + 1)))
                  subtasks node)
          /\ (forall k, (k < base)%nat ->
                        nth_error (Store.objects st') k
                        = nth_error (Store.objects st) k)
          /\ Store.world st' = Store.world st.
Proof.
  intros maxDepth Hdepth Hfuel Hbase subtasks Hspecs.
  induction Hspecs as [|subtask subtasks Hspec _ IH];
    intros elements Helems st node Htree Hp Hheights.
  - inversion Helems; subst. exists st. repeat split. exact Htree.
  - inversion Helems as [|e s es ss He Hes]; subst.
    pose proof (tree_at_bounds Htree) as (_ & Hlo & _).
    destruct (Hspec st e (depth + 1)%nat fuel He Hp ltac:(lia) ltac:(lia))
      as (child_loc & st1 & Hrun1 & Htree1 & Hframe1 & Hw1).
    set (child := FractalAlgorithm._buildTree that subtask (depth + 1)) in *.
    assert (height child <= maxDepth - depth)%nat as Hchild.
    { pose proof (@height__buildTree that subtask (depth + 1)%nat ltac:(fold maxDepth; lia)).
      fold maxDepth in H. fold child in H. lia. }
    assert (height (FractalNode.set_children node
                      (FractalNode.children node ++ [child])%list) <= S fuel)%nat
      as Hh.
    { apply Nat.le_trans with (S (maxDepth - depth)); [|lia].
      apply height_le_children. destruct node; simpl in *.
      apply Forall_app. split; [exact Hheights | constructor; [exact Hchild | constructor]]. }
    destruct (@addChild_run h0 st1 (List.length (Store.objects st)) l child_loc node
                child (S fuel) Htree1 st base Htree Hframe1 Hh)
      as (st2 & Hrun2 & Htree2 & Hframe2 & Hlen2 & Hw2).
    assert (preserved h0 (Store.objects st2)) as Hp2.
    { apply (@preserved_frame h0 st st2 base Hp Hbase).
      intros k Hk. rewrite Hframe2 by lia. apply Hframe1. lia. }
    destruct (IH es Hes st2 (FractalNode.addChild node child) Htree2 Hp2
                (@children_heights_addChild node child _ Hheights Hchild))
      as (st' & Hrun & Htree' & Hframe & Hw).
    exists st'. split; [|split; [|split]].
    + unfold Store.forEach in *. cbn [Store.forEach_from].
      assert (Store.bind (Store._buildTree fuel this e (depth + 1))
                (fun childNode => Store.addChild (S fuel) l childNode) st
              = Some (tt, st2)) as Hstep
        by (rewrite (bind_run _ Hrun1); exact Hrun2).
      rewrite (bind_run _ Hstep).
      rewrite (forEach_from_index _ es 1 0). exact Hrun.
    + exact Htree'.
    + intros k Hk. rewrite Hframe by lia. rewrite Hframe2 by lia. apply Hframe1. lia.
    + congruence.
Qed.


Lemma _buildTree_unfold (that : FractalAlgorithm.t) (task : Task.t) (depth : nat) :
  FractalAlgorithm._buildTree that task depth
  = if (depth <? FractalAlgorithm.maxDepth that)%nat then
      match Task.subtasks task with
      | Some subtasks =>
          fold_left
            (fun node subtask =>
               FractalNode.addChild node
                 (FractalAlgorithm._buildTree that subtask (depth + 1)))
            subtasks (FractalNode.new task depth)
      | None => FractalNode.new task depth
      end
    else FractalNode.new task depth.
Proof.
  destruct task; reflexivity.
Qed.

Lemma new_FractalNode_run (h0 : list Store.object) (st : Store.state)
    (l : Store.loc) (task : Task.t) (depth : nat) :
  task_at h0 l task ->
  preserved h0 (Store.objects st) ->
  exists st',
    Store.new_FractalNode l depth st
    = Some (S (List.length (Store.objects st)), st')
    /\ List.length (Store.objects st') = S (S (List.length (Store.objects st)))
    /\ tree_at h0 (Store.objects st')
         (List.length (Store.objects st)) (List.length (Store.objects st'))
         (S (List.length (Store.objects st))) (FractalNode.new task depth)
    /\ (forall k, (k < List.length (Store.objects st))%nat ->
                  nth_error (Store.objects st') k = nth_error (Store.objects st) k)
    /\ Store.world st' = Store.world st.
Proof.
  intros Htask Hp.
  set (L := List.length (Store.objects st)).
  set (st_a := {| Store.objects := (Store.objects st ++ [Store.OArray []])%list;
                  Store.world := Store.world st |}).
  set (o := Store.ONode
              {| Store.task := l; Store.depth := depth; Store.children := L;
                 Store.position := {| x := 0; y := 0; z := 0 |};
                 Store.size := 1.0;
                 Store.complexity := FractalNode.calculateComplexity task |}).
  exists {| Store.objects := (Store.objects st_a ++ [o])%list;
            Store.world := Store.world st |}.
  assert (preserved h0 (Store.objects st_a)) as Hpa
    by (eapply preserved_trans; [exact Hp | apply preserved_app]).
  assert (List.length (Store.objects st_a) = S L) as Hla
    by (simpl; rewrite length_app; simpl; lia).
  split; [|split; [|split; [|split]]].
  - unfold Store.new_FractalNode.
    assert (Store.alloc (Store.OArray []) st = Some (L, st_a)) as Ha by reflexivity.
    rewrite (bind_run _ Ha).
    rewrite (bind_run _ (calculateComplexity_run st_a Htask Hpa)).
    unfold Store.alloc. rewrite Hla. reflexivity.
  - simpl. rewrite !length_app. simpl. fold L. lia.
  - simpl Store.objects. rewrite !length_app. simpl List.length. fold L.
    replace (L + 1 + 1)%nat with (S (S L)) by lia.
    apply tree_at_intro with [] l; auto.
    + rewrite !length_app. simpl. fold L. lia.
    + rewrite nth_error_app1 by (rewrite length_app; simpl; fold L; lia).
      rewrite nth_error_app2 by (fold L; lia). fold L.
      now rewrite Nat.sub_diag.
    + rewrite nth_error_app2 by (rewrite length_app; simpl; fold L; lia).
      rewrite length_app. cbn [List.length]. fold L.
      replace (S L - (L + 1))%nat with 0%nat by lia. reflexivity.
    + constructor.
  - intros k Hk. simpl.
    rewrite nth_error_app1 by (rewrite length_app; simpl; lia).
    rewrite nth_error_app1 by lia. reflexivity.
  - reflexivity.
Qed.

Lemma _buildTree_run (h0 : list Store.object) (this : Store.FractalAlgorithm)
    (that : FractalAlgorithm.t) :
  Store.maxDepth this = FractalAlgorithm.maxDepth that ->
  forall task, build_spec h0 this that task.
Proof.
  intros Hmd.
  induction task as [task IH] using Task_ind'.
  intros st l depth fuel Htask Hp Hd Hfuel.
  destruct fuel as [|fuel]; [lia|].
  destruct (new_FractalNode_run st depth Htask Hp)
    as (st1 & Hnew & Hlen1 & Htree1 & Hframe1 & Hw1).
  set (L := List.length (Store.objects st)) in *.
  assert (preserved h0 (Store.objects st1)) as Hp1.
  { intros k o Hk. rewrite Hframe1; [apply Hp, Hk|].
    apply Hp, nth_error_lt in Hk. exact Hk. }
  inversion Htask as [l0 o task0 Hl Hprops Hsubs]; subst.
  rewrite _buildTree_unfold.
  cbn [Store._buildTree].
  rewrite (bind_run _ Hnew).
  rewrite (bind_run _ (load_task_run st1 l (Hp1 _ _ Hl))).
  rewrite Hmd.
  destruct (Nat.ltb_spec depth (FractalAlgorithm.maxDepth that)) as [Hlt|Hge].
  - inversion Hsubs as [E1 E2|array elements values Harr Hall E1 E2].
    + exists (S L), st1. repeat split; auto.
    + symmetry in E2.
      assert (List.length h0 <= L)%nat as Hbase by (apply preserved_length, Hp).
      destruct (@build_loop h0 this that depth fuel (S L) L Hlt ltac:(lia) Hbase
                  values (IH values E2) elements Hall st1
                  (FractalNode.new task depth) Htree1 Hp1 ltac:(constructor))
        as (st' & Hrun & Htree' & Hframe & Hw).
      exists (S L), st'. split; [|split; [|split]].
      * unfold Store.bind at 1. unfold Store.bind at 1.
        rewrite (load_array_run st1 array (Hp1 _ _ Harr)).
        rewrite Hrun. reflexivity.
      * exact Htree'.
      * intros k Hk. rewrite Hframe by exact Hk. apply Hframe1, Hk.
      * congruence.
  - exists (S L), st1. repeat split; auto.
Qed.

Lemma createFractalTree_run (h0 : list Store.object) (this : Store.FractalAlgorithm)
    (that : FractalAlgorithm.t) (st : Store.state) (l : Store.loc)
    (task : Task.t) (fuel : nat) :
  Store.maxDepth this = FractalAlgorithm.maxDepth that ->
  task_at h0 l task ->
  preserved h0 (Store.objects st) ->
  (FractalAlgorithm.maxDepth that < fuel)%nat ->
  exists root st',
    Store.createFractalTree fuel this l st
    = Some ((root, Store.set_root this root), st')
    /\ tree_at h0 (Store.objects st')
         (List.length (Store.objects st)) (List.length (Store.objects st')) root
         (fst (FractalAlgorithm.createFractalTree that task))
    /\ (forall k, (k < List.length (Store.objects st))%nat ->
                  nth_error (Store.objects st') k = nth_error (Store.objects st) k)
    /\ Store.world st' = Store.world st.
Proof.
  intros Hconst Htask Hp Hfuel.
  destruct (@_buildTree_run h0 this that Hconst task st l 0%nat fuel Htask Hp
              ltac:(lia) ltac:(lia))
    as (root & st1 & Hrun1 & Htree1 & Hframe1 & Hw1).
  assert (height (FractalAlgorithm._buildTree that task 0) <= fuel)%nat as Hh.
  { pose proof (@height__buildTree that task 0%nat ltac:(lia)). lia. }
  destruct (@place_run (FractalAlgorithm._buildTree that task 0) h0 st1 _ _ root
              anchor fuel Htree1 Hh)
    as (st' & Hrun & Htree' & Hframe & Hlen & Hw).
  exists root, st'. split; [|split; [|split]].
  - unfold Store.createFractalTree.
    rewrite (bind_run _ Hrun1).
    unfold Store.bind in Hrun |- *. unfold anchor in Hrun.
    destruct (Store.assign_position root {| x := 0; y := 2; z := 0 |} st1)
      as [[u st2]|]; [|discriminate].
    rewrite Hrun. reflexivity.
  - rewrite Hlen.
    replace (fst (FractalAlgorithm.createFractalTree that task))
      with (FractalNode.place anchor (FractalAlgorithm._buildTree that task 0)).
    + exact Htree'.
    + unfold FractalAlgorithm.createFractalTree. simpl.
      rewrite updateLayout_place.
      destruct (FractalAlgorithm._buildTree that task 0); reflexivity.
  - intros k Hk. rewrite Hframe; [apply Hframe1, Hk|].
    left. exact Hk.
  - congruence.
Qed.

(** A tree laid out in the store is a node with its children. *)
Lemma tree_at_node_at (h0 h : list Store.object) :
  preserved h0 h ->
  forall node lo hi l, tree_at h0 h lo hi l node -> node_at h l node.
Proof.
  intros Hp. induction node as [node IH] using FractalNode_ind'.
  intros lo hi l H.
  inversion H as [lo0 hi0 l0 node0 elements task El Hlo Hhi Harr Hnode Htask Hcs];
    subst.
  eapply node_at_intro; [exact Hnode | | | | | |]; simpl; auto.
  - eapply task_at_preserved; [exact Hp | exact Htask].
  - apply array_at_Some with elements; [exact Harr|].
    clear - IH Hcs. induction Hcs as [a|a m b l ls n ns Hn _ IHcs]; constructor.
    + inversion IH; subst. eauto.
    + inversion IH; subst. auto.
Qed.


(** ** The advisor in the store *)

Lemma task_height_unfold (task : Task.t) :
  task_height task
  = match Task.subtasks task with
    | Some subtasks => S (fold_right Nat.max 0%nat (map task_height subtasks))
    | None => 1%nat
    end.
Proof.
  destruct task; reflexivity.
Qed.

Lemma _analyzeComplexity_unfold (task : Task.t) :
  FractalAlgorithm._analyzeComplexity task
  = let score := 1 in
    let score :=
      match Task.description task with
      | Some d =>
          if Js.truthy d
          then score + FractalAlgorithm._analyzeTextComplexity d else score
      | None => score
      end in
    let score :=
      match Task.subtasks task with
      | Some subtasks =>
          fold_left
            (fun score subtask =>
               score + FractalAlgorithm._analyzeComplexity subtask * 0.5)
            subtasks (score + len subtasks)
      | None => score
      end in
    let score :=
      match Task.dependencies task with
      | Some dependencies => score + len dependencies * 0.5
      | None => score
      end in
    Qmin 10 score.
Proof.
  destruct task; reflexivity.
Qed.

Lemma _analyzeComplexity_run (h0 : list Store.object) (task : Task.t) :
  forall (st : Store.state) (l : Store.loc) (fuel : nat),
    task_at h0 l task ->
    preserved h0 (Store.objects st) ->
    (task_height task <= fuel)%nat ->
    Store._analyzeComplexity fuel l st
    = Some (FractalAlgorithm._analyzeComplexity task, st).
Proof.
  induction task as [task IH] using Task_ind'.
  intros st l fuel Htask Hp Hfuel.
  rewrite task_height_unfold in Hfuel.
  inversion Htask as [l0 o task0 Hl Hprops Hsubs]; subst.
  destruct Hprops as (_ & _ & Hd & _ & _ & Hdeps & _).
  destruct fuel as [|fuel]; [destruct (Task.subtasks task); lia|].
  rewrite _analyzeComplexity_unfold.
  cbn [Store._analyzeComplexity].
  rewrite (bind_run _ (load_task_run st l (Hp _ _ Hl))).
  rewrite Hd, Hdeps. cbv zeta.
  set (s1 := match Task.description task with
             | Some d =>
                 if Js.truthy d
                 then 1 + FractalAlgorithm._analyzeTextComplexity d else 1
             | None => 1
             end).
  inversion Hsubs as [E1 E2|array elements values Harr Hall E1 E2].
  - reflexivity.
  - symmetry in E2. rewrite E2 in Hfuel.
    specialize (IH values E2).
    unfold Store.bind at 1. unfold Store.bind at 1.
    rewrite (load_array_run st array (Hp _ _ Harr)).
    replace (len elements) with (len values)
      by (unfold len; now rewrite (Forall2_length_eq Hall)).
    assert (forall init,
               Store.foldM
                 (fun score subtask =>
                    Store.bind (Store._analyzeComplexity fuel subtask)
                      (fun c => Store.ret (score + c * 0.5)))
                 elements init st
               = Some (fold_left
                         (fun score subtask =>
                            score
                            + FractalAlgorithm._analyzeComplexity subtask * 0.5)
                         values init, st)) as Hfold.
    { assert (Forall (fun v => (task_height v <= fuel)%nat) values) as Hh.
      { apply Forall_forall. intros v Hin.
        assert (task_height v
                <= fold_right Nat.max 0%nat (map task_height values))%nat.
        { clear - Hin. induction values as [|a vs IHv]; simpl in *; [tauto|].
          destruct Hin as [->|Hin]; [lia | specialize (IHv Hin); lia]. }
        lia. }
      clear - IH Hall Hh Hp.
      induction Hall as [|e v es vs Hev _ IHall]; intros init; [reflexivity|].
      inversion IH as [|v0 vs0 Hv Hvs]; subst.
      inversion Hh as [|v0 vs0 Hhv Hhvs]; subst.
      simpl. unfold Store.bind at 1. unfold Store.bind at 1.
      rewrite (Hv st e fuel Hev Hp Hhv). unfold Store.ret at 1.
      apply IHall; assumption. }
    rewrite Hfold. reflexivity.
Qed.

Lemma _identifyPatterns_run (h0 : list Store.object) (st : Store.state)
    (l : Store.loc) (task : Task.t) :
  task_at h0 l task ->
  preserved h0 (Store.objects st) ->
  Store._identifyPatterns l st = Some (FractalAlgorithm._identifyPatterns task, st).
Proof.
  intros Htask Hp.
  inversion Htask as [l0 o task0 Hl Hprops Hsubs]; subst.
  destruct Hprops as (_ & _ & Hd & _).
  unfold Store._identifyPatterns.
  rewrite (bind_run _ (load_task_run st l (Hp _ _ Hl))).
  rewrite Hd. reflexivity.
Qed.

Lemma _createSubtask_run (h0 : list Store.object) (st : Store.state)
    (l : Store.loc) (task : Task.t) (title : string) (factor : Q) :
  task_at h0 l task ->
  preserved h0 (Store.objects st) ->
  Store._createSubtask l title factor st
  = Some (List.length (Store.objects st), with_stub task title factor st).
Proof.
  intros Htask Hp.
  inversion Htask as [l0 o task0 Hl Hprops Hsubs]; subst.
  destruct Hprops as (Hid & Htitle & _ & _ & _ & _ & Hc & _).
  unfold Store._createSubtask, Store.bind, Store.lift, Store.load_task,
    Store.load, Store.bind, Store.alloc, with_stub. simpl.
  rewrite (Hp _ _ Hl). simpl. rewrite Hid, Htitle, Hc. reflexivity.
Qed.

Lemma push_run (st : Store.state) (array x : Store.loc)
    (elements : list Store.loc) :
  nth_error (Store.objects st) array = Some (Store.OArray elements) ->
  Store.push array x st
  = Some (tt,
          {| Store.objects :=
               Store.update (Store.objects st) array
                 (Store.OArray (elements ++ [x]));
             Store.world := Store.world st |}).
Proof.
  intros H. unfold Store.push.
  rewrite (bind_run _ (load_array_run st array H)).
  apply (store_run st array _ H).
Qed.

(** One round of the loops of [suggestDecomposition]: a stub is made and
    pushed. *)
Lemma create_and_push (h0 : list Store.object) (st : Store.state)
    (l array : Store.loc) (task : Task.t) (title : string) (factor : Q)
    (elements : list Store.loc) (stubs : list Stub.t) :
  task_at h0 l task ->
  preserved h0 (Store.objects st) ->
  nth_error (Store.objects st) array = Some (Store.OArray elements) ->
  Forall2 (stub_at (Store.objects st)) elements stubs ->
  exists st',
    Store.bind (Store._createSubtask l title factor)
      (fun s => Store.push array s) st = Some (tt, st')
    /\ nth_error (Store.objects st') array
       = Some (Store.OArray (elements ++ [List.length (Store.objects st)]))
    /\ Forall2 (stub_at (Store.objects st'))
         (elements ++ [List.length (Store.objects st)])
         (stubs
          ++ [fst (FractalAlgorithm._createSubtask task title factor
                     (Store.world st))])
    /\ (forall k, (k < List.length (Store.objects st))%nat -> k <> array ->
                  nth_error (Store.objects st') k = nth_error (Store.objects st) k)
    /\ List.length (Store.objects st') = S (List.length (Store.objects st))
    /\ Store.world st'
       = snd (FractalAlgorithm._createSubtask task title factor (Store.world st)).
Proof.
  intros Htask Hp Harr Hstubs.
  pose proof (_createSubtask_run st title factor Htask Hp) as Hcreate.
  set (st1 := with_stub task title factor st) in *.
  assert (nth_error (Store.objects st1) array = Some (Store.OArray elements))
    as Harr1.
  { unfold st1, with_stub. simpl.
    rewrite nth_error_app1 by (eapply nth_error_lt; eauto). exact Harr. }
  pose proof (push_run st1 array (List.length (Store.objects st)) Harr1) as Hpush.
  eexists. split; [rewrite (bind_run _ Hcreate); exact Hpush|].
  pose proof (nth_error_lt _ _ Harr) as Hlt.
  simpl. split; [|split; [|split; [|split]]].
  - apply nth_error_update_eq. rewrite length_app. simpl. lia.
  - apply Forall2_app.
    + eapply Forall2_impl; [|exact Hstubs].
      intros e s He. unfold stub_at in *.
      rewrite nth_error_update_neq by (intros ->; congruence).
      rewrite nth_error_app1 by (eapply nth_error_lt; eauto). exact He.
    + constructor; [|constructor]. unfold stub_at.
      rewrite nth_error_update_neq by lia.
      rewrite nth_error_app2 by lia. now rewrite Nat.sub_diag.
  - intros k Hk Hne. rewrite nth_error_update_neq by congruence.
    now rewrite nth_error_app1 by lia.
  - rewrite update_length, length_app. simpl. lia.
  - reflexivity.
Qed.


Lemma stub_loop (h0 : list Store.object) (l array : Store.loc) (task : Task.t)
    (A : Type) (title : A -> string) (factor : A -> Q) :
  task_at h0 l task ->
  (List.length h0 <= array)%nat ->
  forall (xs : list A) (st : Store.state) (elements : list Store.loc)
         (stubs : list Stub.t),
    preserved h0 (Store.objects st) ->
    nth_error (Store.objects st) array = Some (Store.OArray elements) ->
    Forall2 (stub_at (Store.objects st)) elements stubs ->
    Forall (fun e => (array < e)%nat) elements ->
    exists st' elements',
      Store.forEach
        (fun x =>
           Store.bind (Store._createSubtask l (title x) (factor x))
             (fun s => Store.push array s))
        xs st = Some (tt, st')
      /\ nth_error (Store.objects st') array = Some (Store.OArray elements')
      /\ Forall2 (stub_at (Store.objects st')) elements'
           (stubs
            ++ fst (mapM
                      (fun x =>
                         FractalAlgorithm._createSubtask task (title x) (factor x))
                      xs (Store.world st)))
      /\ Forall (fun e => (array < e)%nat) elements'
      /\ (forall k, (k < array)%nat ->
                    nth_error (Store.objects st') k = nth_error (Store.objects st) k)
      /\ Store.world st'
         = snd (mapM
                  (fun x =>
                     FractalAlgorithm._createSubtask task (title x) (factor x))
                  xs (Store.world st)).
Proof.
  intros Htask Harray.
  induction xs as [|x xs IH]; intros st elements stubs Hp Harr Hstubs Hfresh.
  - exists st, elements. simpl. rewrite app_nil_r. repeat split; auto.
  - pose proof (nth_error_lt _ _ Harr) as Hlt.
    destruct (@create_and_push h0 st l array task (title x) (factor x) elements
                stubs Htask Hp Harr Hstubs)
      as (st1 & Hrun1 & Harr1 & Hstubs1 & Hframe1 & Hlen1 & Hw1).
    assert (preserved h0 (Store.objects st1)) as Hp1.
    { apply (@preserved_frame h0 st st1 array Hp Harray).
      intros k Hk. apply Hframe1; lia. }
    assert (Forall (fun e => (array < e)%nat)
              (elements ++ [List.length (Store.objects st)])) as Hfresh1.
    { apply Forall_app. split; [exact Hfresh | constructor; [lia | constructor]]. }
    destruct (IH st1 _ _ Hp1 Harr1 Hstubs1 Hfresh1)
      as (st' & elements' & Hrun & Harr' & Hstubs' & Hfresh' & Hframe & Hw).
    exists st', elements'. split; [|split; [|split; [|split; [|split]]]].
    + unfold Store.forEach in *. cbn [Store.forEach_from].
      rewrite (bind_run _ Hrun1).
      rewrite (forEach_from_index _ xs 1 0). exact Hrun.
    + exact Harr'.
    + rewrite mapM_cons. cbn [fst snd].
      rewrite <- Hw1. rewrite <- app_assoc in Hstubs'. exact Hstubs'.
    + exact Hfresh'.
    + intros k Hk. rewrite Hframe by exact Hk. apply Hframe1; lia.
    + rewrite mapM_cons. cbn [fst snd]. rewrite <- Hw1. exact Hw.
Qed.

Lemma with_stub_length (task : Task.t) (title : string) (factor : Q)
    (st : Store.state) :
  List.length (Store.objects (with_stub task title factor st))
  = S (List.length (Store.objects st)).
Proof.
  simpl. rewrite length_app. simpl. lia.
Qed.

(** The four stubs of the core-components branch: four objects are made,
    then pushed. *)
Lemma four_stubs (h0 : list Store.object) (st : Store.state) (l array : Store.loc)
    (task : Task.t) (t1 t2 t3 t4 : string) (f1 f2 f3 f4 : Q) :
  task_at h0 l task ->
  preserved h0 (Store.objects st) ->
  nth_error (Store.objects st) array = Some (Store.OArray []) ->
  exists st' elements,
    Store.bind (Store._createSubtask l t1 f1)
      (fun s1 =>
         Store.bind (Store._createSubtask l t2 f2)
           (fun s2 =>
              Store.bind (Store._createSubtask l t3 f3)
                (fun s3 =>
                   Store.bind (Store._createSubtask l t4 f4)
                     (fun s4 =>
                        Store.bind (Store.push array s1)
                          (fun _ =>
                             Store.bind (Store.push array s2)
                               (fun _ =>
                                  Store.bind (Store.push array s3)
                                    (fun _ => Store.push array s4))))))) st
    = Some (tt, st')
    /\ nth_error (Store.objects st') array = Some (Store.OArray elements)
    /\ Forall2 (stub_at (Store.objects st')) elements
         (fst (bind (FractalAlgorithm._createSubtask task t1 f1)
                 (fun s1 =>
                    bind (FractalAlgorithm._createSubtask task t2 f2)
                      (fun s2 =>
                         bind (FractalAlgorithm._createSubtask task t3 f3)
                           (fun s3 =>
                              bind (FractalAlgorithm._createSubtask task t4 f4)
                                (fun s4 => ret [s1; s2; s3; s4]))))
                 (Store.world st)))
    /\ Forall (fun e => (array < e)%nat) elements
    /\ (forall k, (k < array)%nat ->
                  nth_error (Store.objects st') k = nth_error (Store.objects st) k)
    /\ Store.world st'
       = snd (bind (FractalAlgorithm._createSubtask task t1 f1)
                (fun s1 =>
                   bind (FractalAlgorithm._createSubtask task t2 f2)
                     (fun s2 =>
                        bind (FractalAlgorithm._createSubtask task t3 f3)
                          (fun s3 =>
                             bind (FractalAlgorithm._createSubtask task t4 f4)
                               (fun s4 => ret [s1; s2; s3; s4]))))
                (Store.world st)).
Proof.
  intros Htask Hp Harr.
  pose proof (nth_error_lt _ _ Harr) as Hlt.
  set (st1 := with_stub task t1 f1 st).
  set (st2 := with_stub task t2 f2 st1).
  set (st3 := with_stub task t3 f3 st2).
  set (st4 := with_stub task t4 f4 st3).
  set (L := List.length (Store.objects st)) in *.
  assert (preserved (Store.objects st) (Store.objects st1)) as P1
    by apply preserved_app.
  assert (preserved (Store.objects st1) (Store.objects st2)) as P2
    by apply preserved_app.
  assert (preserved (Store.objects st2) (Store.objects st3)) as P3
    by apply preserved_app.
  assert (preserved (Store.objects st3) (Store.objects st4)) as P4
    by apply preserved_app.
  assert (List.length (Store.objects st1) = S L) as L1
    by (unfold st1; rewrite with_stub_length; reflexivity).
  assert (List.length (Store.objects st2) = S (S L)) as L2
    by (unfold st2; rewrite with_stub_length, L1; reflexivity).
  assert (List.length (Store.objects st3) = S (S (S L))) as L3
    by (unfold st3; rewrite with_stub_length, L2; reflexivity).
  assert (List.length (Store.objects st4) = S (S (S (S L)))) as L4
    by (unfold st4; rewrite with_stub_length, L3; reflexivity).
  assert (forall s title factor,
             nth_error (Store.objects (with_stub task title factor s))
               (List.length (Store.objects s))
             = Some (Store.OStub
                       (fst (FractalAlgorithm._createSubtask task title factor
                               (Store.world s))))) as Hnew.
  { intros s title factor. simpl.
    rewrite nth_error_app2 by lia. now rewrite Nat.sub_diag. }
  pose proof (Hnew st t1 f1) as S1. fold st1 in S1. fold L in S1.
  pose proof (Hnew st1 t2 f2) as S2. fold st2 in S2. rewrite L1 in S2.
  pose proof (Hnew st2 t3 f3) as S3. fold st3 in S3. rewrite L2 in S3.
  pose proof (Hnew st3 t4 f4) as S4. fold st4 in S4. rewrite L3 in S4.
  assert (preserved h0 (Store.objects st1)) as Hp1
    by (eapply preserved_trans; eauto).
  assert (preserved h0 (Store.objects st2)) as Hp2
    by (eapply preserved_trans; eauto).
  assert (preserved h0 (Store.objects st3)) as Hp3
    by (eapply preserved_trans; eauto).
  pose proof (_createSubtask_run st t1 f1 Htask Hp) as C1. fold st1 L in C1.
  pose proof (_createSubtask_run st1 t2 f2 Htask Hp1) as C2.
  fold st2 in C2. rewrite L1 in C2.
  pose proof (_createSubtask_run st2 t3 f3 Htask Hp2) as C3.
  fold st3 in C3. rewrite L2 in C3.
  pose proof (_createSubtask_run st3 t4 f4 Htask Hp3) as C4.
  fold st4 in C4. rewrite L3 in C4.
  assert (nth_error (Store.objects st4) array = Some (Store.OArray [])) as A4
    by (apply P4, P3, P2, P1, Harr).
  assert (Store.world st1
          = snd (FractalAlgorithm._createSubtask task t1 f1 (Store.world st)))
    as W1 by reflexivity.
  assert (Store.world st2
          = snd (FractalAlgorithm._createSubtask task t2 f2 (Store.world st1)))
    as W2 by reflexivity.
  assert (Store.world st3
          = snd (FractalAlgorithm._createSubtask task t3 f3 (Store.world st2)))
    as W3 by reflexivity.
  assert (Store.world st4
          = snd (FractalAlgorithm._createSubtask task t4 f4 (Store.world st3)))
    as W4 by reflexivity.
  rewrite !bind_unfold. unfold ret. cbn [fst snd].
  rewrite <- W1, <- W2, <- W3, <- W4.
  clearbody st4 st3 st2 st1.
  (* the four pushes *)
  pose proof (push_run st4 array L A4) as Q1. simpl in Q1.
  set (st5 := {| Store.objects :=
                   Store.update (Store.objects st4) array (Store.OArray [L]);
                 Store.world := Store.world st4 |}) in *.
  assert (nth_error (Store.objects st5) array = Some (Store.OArray [L])) as A5
    by (apply nth_error_update_eq; lia).
  pose proof (push_run st5 array (S L) A5) as Q2. simpl in Q2.
  set (st6 := {| Store.objects :=
                   Store.update (Store.objects st5) array
                     (Store.OArray [L; S L]);
                 Store.world := Store.world st5 |}) in *.
  assert (nth_error (Store.objects st6) array
          = Some (Store.OArray [L; S L])) as A6
    by (apply nth_error_update_eq; simpl; rewrite update_length; lia).
  pose proof (push_run st6 array (S (S L)) A6) as Q3. simpl in Q3.
  set (st7 := {| Store.objects :=
                   Store.update (Store.objects st6) array
                     (Store.OArray [L; S L; S (S L)]);
                 Store.world := Store.world st6 |}) in *.
  assert (nth_error (Store.objects st7) array
          = Some (Store.OArray [L; S L; S (S L)])) as A7
    by (apply nth_error_update_eq; simpl; rewrite !update_length; lia).
  pose proof (push_run st7 array (S (S (S L))) A7) as Q4. simpl in Q4.
  set (st8 := {| Store.objects :=
                   Store.update (Store.objects st7) array
                     (Store.OArray [L; S L; S (S L); S (S (S L))]);
                 Store.world := Store.world st7 |}) in *.
  assert (forall k, k <> array ->
                    nth_error (Store.objects st8) k = nth_error (Store.objects st4) k)
    as Hframe.
  { intros k Hk. simpl. rewrite !nth_error_update_neq by congruence. reflexivity. }
  exists st8, [L; S L; S (S L); S (S (S L))].
  split; [|split; [|split; [|split; [|split]]]].
  - rewrite (bind_run _ C1), (bind_run _ C2), (bind_run _ C3), (bind_run _ C4).
    rewrite (bind_run _ Q1), (bind_run _ Q2), (bind_run _ Q3). exact Q4.
  - apply nth_error_update_eq. simpl. rewrite !update_length. lia.
  - repeat constructor; unfold stub_at; rewrite Hframe by lia.
    + apply P4, P3, P2, S1.
    + apply P4, P3, S2.
    + apply P4, S3.
    + exact S4.
  - repeat constructor; lia.
  - intros k Hk. rewrite Hframe by lia.
    destruct (nth_error (Store.objects st) k) as [o|] eqn:E.
    + apply P4, P3, P2, P1, E.
    + apply nth_error_None in E. lia.
  - reflexivity.
Qed.

(** [suggestDecomposition] in the store returns a new array of new
    objects, the stubs that the functional [suggestDecomposition] returns
    in the same world, and leaves every object that was there alone. *)
Lemma suggestDecomposition_run (st : Store.state) (l : Store.loc)
    (task : Task.t) (fuel : nat) :
  task_at (Store.objects st) l task ->
  (task_height task <= fuel)%nat ->
  exists array st' elements,
    Store.suggestDecomposition fuel l st = Some (array, st')
    /\ nth_error (Store.objects st') array = Some (Store.OArray elements)
    /\ Forall2 (stub_at (Store.objects st')) elements
         (fst (FractalAlgorithm.suggestDecomposition task (Store.world st)))
    /\ Forall (fun e => (List.length (Store.objects st) <= e)%nat) (array :: elements)
    /\ preserved (Store.objects st) (Store.objects st')
    /\ Store.world st'
       = snd (FractalAlgorithm.suggestDecomposition task (Store.world st)).
Proof.
  intros Htask Hfuel.
  set (h0 := Store.objects st) in *.
  set (L := List.length h0).
  set (st1 := {| Store.objects := (h0 ++ [Store.OArray []])%list;
                 Store.world := Store.world st |}).
  assert (preserved h0 (Store.objects st1)) as Hp1 by apply preserved_app.
  assert (nth_error (Store.objects st1) L = Some (Store.OArray [])) as Harr1.
  { simpl. rewrite nth_error_app2 by (unfold L; lia). unfold L.
    now rewrite Nat.sub_diag. }
  assert (forall st' elements,
             nth_error (Store.objects st') L = Some (Store.OArray elements) ->
             Forall (fun e => (L < e)%nat) elements ->
             (forall k, (k < L)%nat ->
                        nth_error (Store.objects st') k
                        = nth_error (Store.objects st1) k) ->
             Forall (fun e => (L <= e)%nat) (L :: elements)
             /\ preserved h0 (Store.objects st')) as Hfinish.
  { intros st' elements Harr' Hfresh Hframe. split.
    - constructor; [lia|]. eapply Forall_impl; [|exact Hfresh]. simpl. lia.
    - apply (@preserved_frame h0 st1 st' L Hp1 (le_n _) Hframe). }
  unfold Store.suggestDecomposition, FractalAlgorithm.suggestDecomposition.
  rewrite (bind_run _ (@_analyzeComplexity_run h0 task st l fuel Htask
                         (preserved_refl h0) Hfuel)).
  rewrite (bind_run _ (@_identifyPatterns_run h0 st l task Htask
                         (preserved_refl h0))).
  assert (Store.alloc (Store.OArray []) st = Some (L, st1)) as Halloc
    by reflexivity.
  rewrite (bind_run _ Halloc).
  change (Store.world st) with (Store.world st1).
  destruct (FractalAlgorithm.has_pattern
              (FractalAlgorithm._identifyPatterns task) "core-components").
  - destruct (@four_stubs h0 st1 l L task
                "Research & Planning" "Core Implementation"
                "Testing & Validation" "Documentation" 0.2 0.4 0.2 0.2
                Htask Hp1 Harr1)
      as (st' & elements & Hrun & Harr' & Hstubs & Hfresh & Hframe & Hw).
    destruct (Hfinish st' elements Harr' Hfresh Hframe) as [Hf Hp'].
    exists L, st', elements. split; [|repeat split; auto].
    unfold Store.bind at 1.
    unfold Store.bind in Hrun |- *.
    destruct (Store._createSubtask l "Research & Planning" 0.2 st1)
      as [[s1 q1]|]; [|discriminate].
    destruct (Store._createSubtask l "Core Implementation" 0.4 q1)
      as [[s2 q2]|]; [|discriminate].
    destruct (Store._createSubtask l "Testing & Validation" 0.2 q2)
      as [[s3 q3]|]; [|discriminate].
    destruct (Store._createSubtask l "Documentation" 0.2 q3)
      as [[s4 q4]|]; [|discriminate].
    rewrite Hrun. reflexivity.
  - destruct (FractalAlgorithm.has_pattern
                (FractalAlgorithm._identifyPatterns task) "feature-breakdown")
      eqn:Hfeature.
    + destruct (feature_breakdown_has_description task Hfeature) as [d Hd].
      inversion Htask as [l0 o task0 Hl Hprops Hsubs]; subst.
      destruct Hprops as (_ & _ & Hdo & _).
      rewrite Hd in *.
      set (features := FractalAlgorithm._extractFeatures d).
      destruct (@stub_loop h0 l L task _ (fun feature : string => feature)
                  (fun _ => 1.0 / len features) Htask (le_n _) features st1 [] []
                  Hp1 Harr1 ltac:(constructor) ltac:(constructor))
        as (st' & elements & Hrun & Harr' & Hstubs & Hfresh & Hframe & Hw).
      destruct (Hfinish st' elements Harr' Hfresh Hframe) as [Hf Hp'].
      exists L, st', elements. split; [|repeat split; auto].
      unfold Store.bind at 1.
      rewrite (bind_run _ (load_task_run st1 l (Hp1 _ _ Hl))).
      rewrite Hdo. fold features. rewrite Hrun. reflexivity.
    + set (n := Z.to_nat
                  (Z.max 2
                     (Z.min 5
                        (Math_ceil (FractalAlgorithm._analyzeComplexity task / 2))))).
      destruct (@stub_loop h0 l L task _
                  (fun i : nat => "Phase " ++ Js.of_nat (i + 1))
                  (fun _ => 1.0 / inject_Z (Z.of_nat n)) Htask (le_n _)
                  (seq 0 n) st1 [] []
                  Hp1 Harr1 ltac:(constructor) ltac:(constructor))
        as (st' & elements & Hrun & Harr' & Hstubs & Hfresh & Hframe & Hw).
      destruct (Hfinish st' elements Harr' Hfresh Hframe) as [Hf Hp'].
      exists L, st', elements. split; [|repeat split; auto].
      unfold Store.bind at 1. rewrite Hrun. reflexivity.
Qed.


(** [createFractalTree] in the store: it returns, it leaves every object
    that was there alone, and the node it returns is the tree the
    functional [createFractalTree] computes from the task. *)
Lemma createFractalTree_store (this : Store.FractalAlgorithm)
    (that : FractalAlgorithm.t) (st : Store.state) (l : Store.loc)
    (task : Task.t) (fuel : nat) :
  Store.maxDepth this = FractalAlgorithm.maxDepth that ->
  task_at (Store.objects st) l task ->
  (Store.maxDepth this < fuel)%nat ->
  exists root st',
    Store.createFractalTree fuel this l st
    = Some ((root, Store.set_root this root), st')
    /\ node_at (Store.objects st') root
         (fst (FractalAlgorithm.createFractalTree that task))
    /\ preserved (Store.objects st) (Store.objects st')
    /\ (List.length (Store.objects st) < root)%nat
    /\ Store.world st' = Store.world st.
Proof.
  intros Hmd Htask Hfuel.
  destruct (@createFractalTree_run (Store.objects st) this that st l task fuel
              Hmd Htask (preserved_refl _) ltac:(lia))
    as (root & st' & Hrun & Htree & Hframe & Hw).
  assert (preserved (Store.objects st) (Store.objects st')) as Hp.
  { intros k o Hk. rewrite Hframe; [exact Hk | eapply nth_error_lt; eauto]. }
  exists root, st'. split; [exact Hrun|]. split; [|split; [exact Hp|split; [|exact Hw]]].
  - eapply tree_at_node_at; [exact Hp | exact Htree].
  - apply tree_at_bounds in Htree. lia.
Qed.

(** ** Nodes in a larger store *)

Lemma node_at_preserved (h h' : list Store.object) :
  preserved h h' ->
  forall node l, node_at h l node -> node_at h' l node.
Proof.
  intros Hp. induction node as [node IH] using FractalNode_ind'.
  intros l H.
  inversion H as [l0 o node0 Hl Htask Hd Hpos Hsize Hc Hcs]; subst.
  apply node_at_intro with o; auto.
  - eapply task_at_preserved; eauto.
  - inversion Hcs as [|array elements values Harr Hall E1 E2]; subst.
    apply array_at_Some with elements; [apply Hp, Harr|].
    clear - IH Hall.
    induction Hall as [|e v es vs Hev _ IHall]; constructor;
      inversion IH; subst; auto.
Qed.

(** ** The layout with rounding *)

Section Rounding.

Local Open Scope R_scope.

Lemma sin_Rabs (t : R) : Rabs (sin t) <= Rabs t.
Proof.
  assert (forall s, 0 <= s -> Rabs (sin s) <= s) as Hpos.
  { intros s Hs. apply Rabs_le. destruct (Req_dec s 0) as [->|Hne].
    - rewrite sin_0. lra.
    - assert (0 < s) as Hlt by lra. pose proof (sin_lt_x s Hlt).
      pose proof (SIN_bound s) as [Hlo _].
      split; [|lra].
      destruct (Rle_dec s 1) as [Hle|Hgt].
      + pose proof PI2_3_2. assert (0 <= sin s) by (apply sin_ge_0; lra). lra.
      + lra. }
  destruct (Rle_dec 0 t) as [Ht|Ht].
  - rewrite (Rabs_right t) by lra. now apply Hpos.
  - rewrite (Rabs_left t) by lra. rewrite <- (Rabs_Ropp (sin t)), <- sin_neg.
    apply Hpos. lra.
Qed.

Lemma cos_Lipschitz (a b : R) : Rabs (cos a - cos b) <= Rabs (a - b).
Proof.
  rewrite form2. rewrite !Rabs_mult.
  pose proof (sin_Rabs ((a - b) / 2)) as H1.
  pose proof (SIN_bound ((a + b) / 2)) as [H2 H3].
  assert (Rabs (sin ((a + b) / 2)) <= 1) as H4 by (apply Rabs_le; lra).
  rewrite (Rabs_left (-2)) by lra.
  replace (Rabs ((a - b) / 2)) with (Rabs (a - b) / 2) in H1
    by (unfold Rdiv; rewrite Rabs_mult, (Rabs_right (/ 2)); lra).
  pose proof (Rabs_pos (sin ((a - b) / 2))).
  pose proof (Rabs_pos (sin ((a + b) / 2))).
  nra.
Qed.

Lemma sin_Lipschitz (a b : R) : Rabs (sin a - sin b) <= Rabs (a - b).
Proof.
  rewrite form4. rewrite !Rabs_mult.
  pose proof (sin_Rabs ((a - b) / 2)) as H1.
  pose proof (COS_bound ((a + b) / 2)) as [H2 H3].
  assert (Rabs (cos ((a + b) / 2)) <= 1) as H4 by (apply Rabs_le; lra).
  rewrite (Rabs_right 2) by lra.
  replace (Rabs ((a - b) / 2)) with (Rabs (a - b) / 2) in H1
    by (unfold Rdiv; rewrite Rabs_mult, (Rabs_right (/ 2)); lra).
  pose proof (Rabs_pos (sin ((a - b) / 2))).
  pose proof (Rabs_pos (cos ((a + b) / 2))).
  nra.
Qed.

(** So does [max(a, .)]. *)
Lemma Rmax_Lipschitz (a b c : R) : Rabs (Rmax a b - Rmax a c) <= Rabs (b - c).
Proof.
  unfold Rmax. destruct (Rle_dec a b), (Rle_dec a c);
    unfold Rabs; repeat destruct Rcase_abs; lra.
Qed.

(** An arithmetic [A] of unit roundoff [u]. *)
Variable A : Arithmetic.
Variable u : R.
Hypothesis Haccurate : accurate A u.

(** Rounding a value that is within [k * u] of [V], relative to [V],
    leaves it within [(k + 1 + 1/64) * u]. *)
Lemma rounded_near (k v V : R) :
  0 <= k <= 16 ->
  Rabs (v - V) <= k * u * Rabs V ->
  Rabs (rounded A v - V) <= (k + 1 + / 64) * u * Rabs V.
Proof.
  destruct Haccurate as (Hu & Hround & _).
  intros Hk H. specialize (Hround v).
  assert (Rabs v <= Rabs V + Rabs (v - V)) as Hv.
  { replace v with (V + (v - V)) at 1 by ring. apply Rabs_triang. }
  assert (Rabs (rounded A v - V) <= Rabs (rounded A v - v) + Rabs (v - V)) as Ht.
  { replace (rounded A v - V) with ((rounded A v - v) + (v - V)) by ring.
    apply Rabs_triang. }
  pose proof (Rabs_pos V). pose proof (Rabs_pos v). pose proof (Rabs_pos (v - V)).
  pose proof (Rabs_pos (rounded A v - v)).
  nra.
Qed.

(** A product or quotient by an exact Number keeps the relative error. *)
Lemma scaled_near (k v V c : R) :
  Rabs (v - V) <= k * u * Rabs V ->
  Rabs (v * c - V * c) <= k * u * Rabs (V * c).
Proof.
  intros H. replace (v * c - V * c) with ((v - V) * c) by ring.
  rewrite !Rabs_mult. pose proof (Rabs_pos c). nra.
Qed.

(** The angle of a child, after the four roundings that lead to it, is
    within [33 * u] of [index * 2 * PI / n]. *)
Lemma angle_near (n index : nat) :
  (index < n)%nat ->
  Rabs (rounded A (rounded A (rounded A (2 * Math_PI A) / INR n) * INR index)
        - INR index * (2 * PI) / INR n)
  <= 33 * u.
Proof.
  intros Hlt. destruct Haccurate as (Hu & Hround & HPI & _).
  pose proof PI_RGT_0 as Hpi0. pose proof PI_4 as Hpi4.
  assert (0 < INR n) as Hn by (apply lt_0_INR; lia).
  assert (0 <= INR index) as Hi by apply pos_INR.
  assert (INR index <= INR n) as Hin by (apply le_INR; lia).
  assert (Rabs (2 * Math_PI A - 2 * PI) <= 1 * u * Rabs (2 * PI)) as H1.
  { replace (2 * Math_PI A - 2 * PI) with (2 * (Math_PI A - PI)) by ring.
    rewrite !Rabs_mult, (Rabs_right 2), (Rabs_right PI) by lra. lra. }
  apply rounded_near in H1; [|lra].
  apply (@scaled_near _ _ _ (/ INR n)) in H1.
  apply rounded_near in H1; [|lra].
  apply (@scaled_near _ _ _ (INR index)) in H1.
  apply rounded_near in H1; [|lra].
  replace (INR index * (2 * PI) / INR n) with (2 * PI * / INR n * INR index)
    by (unfold Rdiv; ring).
  unfold Rdiv. eapply Rle_trans; [exact H1|].
  assert (Rabs (2 * PI * / INR n * INR index) <= 8) as Hb.
  { assert (0 <= INR index * / INR n <= 1) as Hr.
    { split.
      - apply Rmult_le_pos; [lra|]. left. now apply Rinv_0_lt_compat.
      - apply Rmult_le_reg_r with (INR n); [exact Hn|].
        rewrite Rmult_assoc, Rinv_l by lra. lra. }
    replace (2 * PI * / INR n * INR index) with (2 * PI * (INR index * / INR n))
      by ring.
    rewrite Rabs_right by nra. nra. }
  pose proof (Rabs_pos (2 * PI * / INR n * INR index)). nra.
Qed.

(** The radius, after two roundings, is within [3 * u * r] of
    [r = max(0.5, n * 0.2)]. *)
Lemma radius_near (n : nat) :
  let r := Rmax 0.5 (INR n * 0.2) in
  Rabs (Rmax 0.5 (rounded A (INR n * rounded A 0.2)) - r) <= 3 * u * r
  /\ 0.5 <= r.
Proof.
  intros r. destruct Haccurate as (Hu & Hround & _).
  assert (0 <= INR n) as Hn by apply pos_INR.
  assert (0.5 <= r) as Hr by (subst r; apply Rmax_l).
  split; [|exact Hr].
  eapply Rle_trans; [apply Rmax_Lipschitz|].
  assert (Rabs (0.2 - 0.2) <= 0 * u * Rabs 0.2) as H1.
  { replace (0.2 - 0.2) with 0 by ring. rewrite Rabs_R0. lra. }
  apply rounded_near in H1; [|lra].
  apply (@scaled_near _ _ _ (INR n)) in H1.
  apply rounded_near in H1; [|lra].
  replace (rounded A 0.2 * INR n) with (INR n * rounded A 0.2) in H1 by ring.
  replace (0.2 * INR n) with (INR n * 0.2) in H1 by ring.
  eapply Rle_trans; [exact H1|].
  assert (Rabs (INR n * 0.2) <= r) as Hb.
  { rewrite Rabs_right by nra. subst r. apply Rmax_r. }
  pose proof (Rabs_pos (INR n * 0.2)). nra.
Qed.

(** A coordinate [p0 + t * radius], after its two roundings, for a [t]
    within [35 * u] of the cosine or sine [T]. *)
Lemma coordinate_near (p0 t T rf r : R) :
  Rabs (t - T) <= 35 * u ->
  Rabs T <= 1 ->
  Rabs (rf - r) <= 3 * u * r ->
  0.5 <= r ->
  Rabs (rounded A (p0 + rounded A (t * rf)) - (p0 + T * r))
  <= u * (Rabs p0 + 43 * r).
Proof.
  intros Ht HT Hrf Hr. destruct Haccurate as (Hu & Hround & _).
  pose proof (Hround (t * rf)) as H1.
  pose proof (Hround (p0 + rounded A (t * rf))) as H2.
  set (m := rounded A (t * rf)) in *.
  set (xc := rounded A (p0 + m)) in *.
  set (w := u * r).
  assert (0 <= w) as Hw by (subst w; nra).
  assert (u * w <= / 1024 * w) as Huw by nra.
  assert (Rabs rf <= r + 3 * w) as Hrfb.
  { replace rf with (r + (rf - r)) by ring.
    eapply Rle_trans; [apply Rabs_triang|]. rewrite (Rabs_right r) by lra.
    subst w. lra. }
  assert (Rabs (t * rf - T * r) <= 39 * w) as Hprod.
  { replace (t * rf - T * r) with ((t - T) * rf + T * (rf - r)) by ring.
    eapply Rle_trans; [apply Rabs_triang|]. rewrite !Rabs_mult.
    pose proof (Rabs_pos (t - T)). pose proof (Rabs_pos rf).
    pose proof (Rabs_pos T). pose proof (Rabs_pos (rf - r)).
    assert (Rabs (t - T) * Rabs rf <= 35 * u * (r + 3 * w)) by nra.
    assert (Rabs T * Rabs (rf - r) <= 3 * w) by (subst w; nra).
    assert (35 * u * (r + 3 * w) = 35 * w + 105 * (u * w)) by (subst w; ring).
    lra. }
  assert (Rabs (T * r) <= r) as HM.
  { rewrite Rabs_mult, (Rabs_right r) by lra. pose proof (Rabs_pos T). nra. }
  assert (Rabs (t * rf) <= r + 39 * w) as Hm0.
  { replace (t * rf) with (T * r + (t * rf - T * r)) by ring.
    eapply Rle_trans; [apply Rabs_triang|]. lra. }
  assert (Rabs (m - t * rf) <= w + 39 * (u * w)) as Hm1.
  { eapply Rle_trans; [exact H1|]. pose proof (Rabs_pos (t * rf)).
    assert (u * Rabs (t * rf) <= u * (r + 39 * w)) by nra.
    replace (w + 39 * (u * w)) with (u * (r + 39 * w)) by (subst w; ring).
    lra. }
  assert (Rabs (m - T * r) <= 41 * w) as Hm2.
  { replace (m - T * r) with ((m - t * rf) + (t * rf - T * r)) by ring.
    eapply Rle_trans; [apply Rabs_triang|]. lra. }
  assert (Rabs m <= r + 41 * w) as Hm3.
  { replace m with (T * r + (m - T * r)) by ring.
    eapply Rle_trans; [apply Rabs_triang|]. lra. }
  assert (Rabs (xc - (p0 + m)) <= u * Rabs p0 + w + 41 * (u * w)) as Hx.
  { eapply Rle_trans; [exact H2|].
    assert (Rabs (p0 + m) <= Rabs p0 + (r + 41 * w))
      by (eapply Rle_trans; [apply Rabs_triang|]; lra).
    replace (u * Rabs p0 + w + 41 * (u * w)) with (u * (Rabs p0 + (r + 41 * w)))
      by (subst w; ring).
    apply Rmult_le_compat_l; lra. }
  replace (xc - (p0 + T * r)) with ((xc - (p0 + m)) + (m - T * r)) by ring.
  eapply Rle_trans; [apply Rabs_triang|].
  replace (u * (Rabs p0 + 43 * r)) with (u * Rabs p0 + 43 * w) by (subst w; ring).
  lra.
Qed.

(** Where [FractalNode.child_position_in] puts a child. *)
Lemma child_position_near (p : Position) (n index : nat) :
  (index < n)%nat ->
  let r := Rmax 0.5 (INR n * 0.2) in
  let angle := INR index * (2 * PI) / INR n in
  let c := FractalNode.child_position_in A p n index in
  Rabs (x c - (x p + cos angle * r)) <= u * (Rabs (x p) + 43 * r)
  /\ Rabs (y c - (y p - 0.5)) <= u * Rabs (y p - 0.5)
  /\ Rabs (z c - (z p + sin angle * r)) <= u * (Rabs (z p) + 43 * r).
Proof.
  intros Hlt r angle c.
  pose proof (angle_near Hlt) as Ha. fold angle in Ha.
  destruct (radius_near n) as [Hrf Hr]. fold r in Hrf, Hr.
  destruct Haccurate as (Hu & Hround & _ & Hcos & Hsin).
  subst c. unfold FractalNode.child_position_in. cbn [x y z].
  set (a := rounded A (rounded A (rounded A (2 * Math_PI A) / INR n) * INR index)) in *.
  split; [|split].
  - apply coordinate_near; try assumption.
    + replace (Math_cos A a - cos angle)
        with ((Math_cos A a - cos a) + (cos a - cos angle)) by ring.
      eapply Rle_trans; [apply Rabs_triang|].
      pose proof (Hcos a). pose proof (cos_Lipschitz a angle). lra.
    + apply Rabs_le. pose proof (COS_bound angle). lra.
  - apply Hround.
  - apply coordinate_near; try assumption.
    + replace (Math_sin A a - sin angle)
        with ((Math_sin A a - sin a) + (sin a - sin angle)) by ring.
      eapply Rle_trans; [apply Rabs_triang|].
      pose proof (Hsin a). pose proof (sin_Lipschitz a angle). lra.
    + apply Rabs_le. pose proof (SIN_bound angle). lra.
Qed.

End Rounding.

Lemma place_in_position (A : Arithmetic) (p : Position) (node : FractalNode.t) :
  FractalNode.position (FractalNode.place_in A p node) = p.
Proof.
  destruct node; reflexivity.
Qed.

(** Without rounding, these are [child_position], [place] and
    [updateLayout]. *)
Lemma child_position_in_exact (p : Position) (n index : nat) :
  FractalNode.child_position_in exact p n index = FractalNode.child_position p n index.
Proof.
  reflexivity.
Qed.

Lemma place_in_exact (p : Position) (node : FractalNode.t) :
  FractalNode.place_in exact p node = FractalNode.place p node.
Proof.
  revert p. induction node as [node IH] using FractalNode_ind'.
  intros p. destruct node as [ta de cs po si co]; simpl in *.
  f_equal. apply mapi_from_ext_Forall.
  eapply Forall_impl; [|exact IH]. simpl. intros c Hc index. apply Hc.
Qed.

Lemma updateLayout_in_exact (node : FractalNode.t) :
  FractalNode.updateLayout_in exact node = FractalNode.updateLayout node.
Proof.
  unfold FractalNode.updateLayout_in, FractalNode.updateLayout, mapi. f_equal.
  apply mapi_from_ext_Forall. apply Forall_forall. intros c _ index.
  apply place_in_exact.
Qed.

Lemma accurate_exact : accurate exact 0.
Proof.
  unfold accurate. cbn [rounded Math_PI Math_cos Math_sin exact].
  split; [split; [lra | left; apply Rinv_0_lt_compat; lra]|].
  repeat split; intros; rewrite Rminus_diag, Rabs_R0; lra.
Qed.

(** [sqrt 3] to sixteen places. *)
Lemma sqrt_3_bounds : (1.7320508075688772 < sqrt 3 < 1.7320508075688773)%R.
Proof.
  split.
  - rewrite <- (sqrt_pow2 1.7320508075688772) by rlra.
    apply sqrt_lt_1_alt. rlra.
  - rewrite <- (sqrt_pow2 1.7320508075688773) by rlra.
    apply sqrt_lt_1_alt. rlra.
Qed.

(** ** Edges and levels of a tree *)

(** The edges of a tree join a node of the tree to one of its children. *)
Lemma edges_in (node parent child : FractalNode.t) :
  In (parent, child) (edges node) ->
  In parent (nodes node) /\ In child (FractalNode.children parent).
Proof.
  revert parent child.
  induction node as [node IH] using FractalNode_ind'.
  intros parent child Hin.
  destruct node as [ta de cs po si co]; simpl in *.
  apply in_flat_map in Hin. destruct Hin as [c [Hc Hin]].
  destruct Hin as [E|Hin].
  - injection E as <- <-. split; [now left | exact Hc].
  - rewrite Forall_forall in IH.
    destruct (IH c Hc parent child Hin) as [H1 H2].
    split; [|exact H2]. right. apply in_flat_map. now exists c.
Qed.

(** The children of a node of a tree are nodes of the tree. *)
Lemma children_in_nodes (node parent child : FractalNode.t) :
  In parent (nodes node) ->
  In child (FractalNode.children parent) ->
  In child (nodes node).
Proof.
  revert parent child.
  induction node as [node IH] using FractalNode_ind'.
  intros parent child Hp Hc.
  destruct node as [ta de cs po si co]; simpl in *.
  destruct Hp as [<-|Hp].
  - simpl in Hc. right. apply in_flat_map. exists child. split; [exact Hc|].
    destruct child; simpl. now left.
  - right. apply in_flat_map in Hp. destruct Hp as [c [Hin Hp]].
    apply in_flat_map. exists c. split; [exact Hin|].
    rewrite Forall_forall in IH. exact (IH c Hin parent child Hp Hc).
Qed.

(** In a laid-out skeleton the height of a node is decided by its depth. *)
Lemma placed_levels (this : FractalAlgorithm.t) (task : Task.t) :
  forall (p : Position) (depth : nat),
    Forall
      (fun node =>
         (depth <= FractalNode.depth node)%nat
         /\ y (FractalNode.position node)
            = (y p - 0.5 * (INR (FractalNode.depth node) - INR depth))%R)
      (nodes (FractalNode.place p (skeleton this task depth))).
Proof.
  induction task as [task IH] using Task_ind'.
  intros p depth.
  destruct task as [i ti d st pa subs deps c cr po]; simpl in *.
  constructor.
  - simpl. split; [lia | ring].
  - apply Forall_flat_map_intro.
    destruct (depth <? FractalAlgorithm.maxDepth this)%nat; [|constructor].
    destruct subs as [subtasks|]; [|constructor].
    rewrite mapi_from_map. apply Forall_mapi_from.
    eapply Forall_impl; [|exact (IH subtasks eq_refl)]. simpl.
    intros subtask Hsub index.
    eapply Forall_impl; [|apply Hsub]. simpl.
    intros node [Hd Hy]. split; [lia|].
    rewrite Hy. cbn [y FractalNode.child_position].
    rewrite Nat.add_1_r, S_INR. ring.
Qed.

(** At depth [maxDepth] the depth factor is zero and the lower clamp
    decides. *)
Lemma _calculateConnectionStrength_at_maxDepth
    (this : FractalAlgorithm.t) (parent child : FractalNode.t) :
  (0 < FractalAlgorithm.maxDepth this)%nat ->
  FractalNode.depth child = FractalAlgorithm.maxDepth this ->
  FractalAlgorithm._calculateConnectionStrength this parent child = 0.2.
Proof.
  intros Hpos Hd. unfold FractalAlgorithm._calculateConnectionStrength.
  rewrite Hd. apply Qmax_left.
  set (m := inject_Z (Z.of_nat (FractalAlgorithm.maxDepth this))).
  assert (~ m == 0) as Hm by (subst m; unfold Qeq; simpl; lia).
  set (cf := (FractalNode.complexity parent + FractalNode.complexity child) / 20).
  assert ((1 - m / m) * cf == 0) as Hz by (field; exact Hm).
  apply Qle_trans with ((1 - m / m) * cf); [apply Q.le_min_r|].
  rewrite Hz. qlra.
Qed.

(* ================================================================== *)
(** * The properties *)
(* ================================================================== *)

(** C1.  The complexity score of [FractalNode] ([calculateComplexity])
    and the one of the advisor ([_analyzeComplexity]) lie between 1 and 10
    for every task, however deep or wide, and so does the [complexity] of
    every node of every tree [createFractalTree] returns.  The code
    clamps from above only; the lower bound holds because the score
    starts at 1 and every amount added to it is non-negative. *)
Theorem complexity_between_1_and_10 :
  (forall task : Task.t,
      1 <= FractalNode.calculateComplexity task
      /\ FractalNode.calculateComplexity task <= 10)
  /\ (forall task : Task.t,
         1 <= FractalAlgorithm._analyzeComplexity task
         /\ FractalAlgorithm._analyzeComplexity task <= 10)
  /\ (forall (this : FractalAlgorithm.t) (task : Task.t),
         Forall
           (fun node =>
              1 <= FractalNode.complexity node
              /\ FractalNode.complexity node <= 10)
           (nodes (fst (FractalAlgorithm.createFractalTree this task)))).
Proof.
  split; [exact calculateComplexity_bounds|].
  split; [exact _analyzeComplexity_bounds|].
  intros this task. apply created_nodes_ind.
  intros p task0 depth _.
  destruct (place_fields p (skeleton this task0 depth)) as (_ & _ & _ & _ & Hc & _).
  rewrite Hc. destruct task0; simpl. apply calculateComplexity_bounds.
Qed.

(** C2, amended.  After [updateLayout] on a node, computed in an
    arithmetic of unit roundoff [u], the child of index [index] (0-based,
    in stored order) of its [n >= 1] children stands where the formula of
    the code puts it, every operation rounded.  That point is within
    [u * (|x| + 43 * r)] in x, and within [u * (|z| + 43 * r)] in z, of the
    point [(x + cos(index*2*PI/n)*r, z + sin(index*2*PI/n)*r)], which is
    on the circle of radius [r = max(0.5, n*0.2)] around the node, the
    points of the children [2*PI/n] apart; its height is [y - 0.5],
    rounded.  [(x, y, z)] is the position of the node.  Without rounding
    ([u = 0]) the child is on the circle; with the rounding of doubles
    ([u = 2^-53]) it is as near as stated, and need not be on it: see
    the ring of three below. *)
Theorem updateLayout_places_children_near_a_circle
    (A : Arithmetic) (u : R) (node : FractalNode.t) (index : nat)
    (child : FractalNode.t) :
  accurate A u ->
  let parent := FractalNode.updateLayout_in A node in
  let n := List.length (FractalNode.children parent) in
  let r := Rmax 0.5 (INR n * 0.2) in
  let angle := (INR index * (2 * PI) / INR n)%R in
  let p := FractalNode.position parent in
  let c := FractalNode.position child in
  nth_error (FractalNode.children parent) index = Some child ->
  (1 <= n)%nat
  /\ c = FractalNode.child_position_in A p n index
  /\ (Rabs (x c - (x p + cos angle * r)) <= u * (Rabs (x p) + 43 * r))%R
  /\ (Rabs (y c - (y p - 0.5)) <= u * Rabs (y p - 0.5))%R
  /\ (Rabs (z c - (z p + sin angle * r)) <= u * (Rabs (z p) + 43 * r))%R
  /\ ((cos angle * r) ^ 2 + (sin angle * r) ^ 2 = r ^ 2)%R.
Proof.
  intros Hacc parent n r angle p c H.
  assert (index < n)%nat as Hlt by (apply nth_error_Some; subst n; congruence).
  split; [lia|].
  assert (c = FractalNode.child_position_in A p n index) as Hc.
  { subst c p n parent. unfold FractalNode.updateLayout_in in *. simpl in *.
    unfold mapi in *. rewrite mapi_from_length in *.
    rewrite nth_error_mapi_from in H.
    destruct (nth_error (FractalNode.children node) index) as [c0|];
      [|discriminate].
    simpl in H. injection H as <-. apply place_in_position. }
  split; [exact Hc|].
  rewrite Hc.
  destruct (child_position_near Hacc p Hlt) as (Hx & Hy & Hz).
  split; [exact Hx|]. split; [exact Hy|]. split; [exact Hz|].
  pose proof (sin2_cos2 angle) as Hsc. unfold Rsqr in Hsc.
  transitivity ((sin angle * sin angle + cos angle * cos angle) * r ^ 2)%R;
    [ring | rewrite Hsc; ring].
Qed.

Lemma updateLayout_places_children_near_a_circle_witness :
  accurate exact 0
  /\ exists child,
       nth_error
         (FractalNode.children (FractalNode.updateLayout_in exact three_nodes)) 1
       = Some child
       /\ FractalNode.position child
          = {| x := 0 + cos (2 * PI / INR 3 * INR 1) * Rmax 0.5 (INR 3 * 0.2);
               y := 2 - 0.5;
               z := 0 + sin (2 * PI / INR 3 * INR 1) * Rmax 0.5 (INR 3 * 0.2) |}.
Proof.
  split; [exact accurate_exact|].
  eexists. split; [reflexivity|].
  exact (proj1 (proj2 (@updateLayout_places_children_near_a_circle
                         exact 0 three_nodes 1 _ accurate_exact eq_refl))).
Defined.

Section Doubles.

Import PrimFloat.

(** On doubles the children of a ring of three are not on its circle.
    The radius [Math.max(0.5, 3 * 0.2)] is 0.6000000000000001, not 0.6.
    At the angle [2 * Math.PI / 3 * 1] of the child of index 1, which is
    2.0943951023931953, an engine that returns the doubles nearest to the
    cosine and the sine puts the child of a node at [(0, 2, 0)] at
    [(-0.29999999999999993, 1.5, 0.5196152422706632)]: the squares of its
    offsets in x and z add up to 0.36000000000000004, and the square of
    the radius is 0.3600000000000001. *)
Lemma ring_of_three_is_off_the_circle_in_doubles :
  let radius := Double.radius 3 in
  let p := {| Double.x := 0; Double.y := 2; Double.z := 0 |}%float in
  radius = 0.6000000000000001%float
  /\ radius <> 0.6%float
  /\ forall E : Double.Engine,
       Double.Math_cos E 2.0943951023931953%float = (-0.4999999999999998)%float ->
       Double.Math_sin E 2.0943951023931953%float = 0.8660254037844387%float ->
       let c := Double.child_position E p 3 1 in
       let dx := (Double.x c - Double.x p)%float in
       let dz := (Double.z c - Double.z p)%float in
       c = {| Double.x := -0.29999999999999993;
              Double.y := 1.5;
              Double.z := 0.5196152422706632 |}%float
       /\ (dx * dx + dz * dz = 0.36000000000000004)%float
       /\ (radius * radius = 0.3600000000000001)%float
       /\ (dx * dx + dz * dz <> radius * radius)%float.
Proof.
  intros radius p. split; [reflexivity|]. split.
  - intros H. apply (f_equal (fun v => PrimFloat.eqb v 0.6)) in H.
    vm_compute in H. discriminate.
  - intros E Hcos Hsin c dx dz.
    assert (c = {| Double.x := -0.29999999999999993;
                   Double.y := 1.5;
                   Double.z := 0.5196152422706632 |}%float) as Hc.
    { subst c. unfold Double.child_position.
      change (2 * Double.Math_PI / 3 * 1)%float with 2.0943951023931953%float.
      rewrite Hcos, Hsin. reflexivity. }
    split; [exact Hc|]. subst dx dz. rewrite Hc.
    split; [reflexivity|]. split; [reflexivity|].
    intros H.
    apply (f_equal (fun v => PrimFloat.eqb v 0.3600000000000001)) in H.
    vm_compute in H. discriminate.
Qed.

(** They are as near to it as the bound for [u = 2^-53] has it: the
    child of index 1 above, its coordinates taken as rationals, against
    the point at angle [2*PI/3] of the circle of radius 0.6. *)
Example ring_of_three_is_near_the_circle_in_doubles :
  let u := (/ 2 ^ 53)%R in
  let r := Rmax 0.5 (INR 3 * 0.2) in
  let angle := (INR 1 * (2 * PI) / INR 3)%R in
  exists qx qz : Q,
    Double.to_Q (-0.29999999999999993)%float = Some qx
    /\ Double.to_Q 0.5196152422706632%float = Some qz
    /\ (Rabs (Q2R qx - (0 + cos angle * r)) <= u * (Rabs 0 + 43 * r))%R
    /\ (Rabs (Q2R qz - (0 + sin angle * r)) <= u * (Rabs 0 + 43 * r))%R.
Proof.
  intros u r angle.
  assert (r = 0.6%R) as Hr.
  { subst r. simpl INR. rewrite Rmax_right; rlra. }
  assert (angle = (2 * (PI / 3))%R) as Ha by (subst angle; simpl INR; field).
  assert (exists qx, Double.to_Q (-0.29999999999999993)%float = Some qx)
    as [qx Hx] by (vm_compute; eexists; reflexivity).
  assert (exists qz, Double.to_Q 0.5196152422706632%float = Some qz)
    as [qz Hz] by (vm_compute; eexists; reflexivity).
  exists qx, qz. split; [exact Hx|]. split; [exact Hz|].
  vm_compute in Hx, Hz. injection Hx as <-. injection Hz as <-.
  rewrite Hr, Ha, cos_2PI3, sin_2PI3, Rabs_R0.
  pose proof sqrt_3_bounds as [Hlo Hhi].
  subst u. unfold Q2R. cbn [Qnum Qden].
  split; apply Rabs_le; split; rlra.
Qed.

End Doubles.

(** Every node of a tree that [createFractalTree] returns has its
    children where [updateLayout] puts them. *)
Lemma created_tree_laid_out (this : FractalAlgorithm.t) (task : Task.t) :
  Forall laid_out (nodes (fst (FractalAlgorithm.createFractalTree this task))).
Proof.
  apply created_nodes_ind. intros p task0 depth _. apply laid_out_place.
Qed.

(** C3.  In the tree [createFractalTree] returns, the root has depth 0
    and stands for the task given; every child has the depth of its
    parent plus one; no node is deeper than [maxDepth]; a node above
    [maxDepth] has one child per subtask of its task, in order; a node at
    [maxDepth] has no children, whatever subtasks its task has. *)
Theorem created_tree_stops_at_maxDepth (this : FractalAlgorithm.t) (task : Task.t) :
  let tree := fst (FractalAlgorithm.createFractalTree this task) in
  FractalNode.depth tree = 0%nat
  /\ FractalNode.task tree = task
  /\ Forall
       (fun node =>
          Forall
            (fun child =>
               FractalNode.depth child = (FractalNode.depth node + 1)%nat)
            (FractalNode.children node)
          /\ (FractalNode.depth node <= FractalAlgorithm.maxDepth this)%nat
          /\ (((FractalNode.depth node < FractalAlgorithm.maxDepth this)%nat
               /\ map FractalNode.task (FractalNode.children node)
                  = subtasks_of (FractalNode.task node))
              \/ (FractalNode.depth node = FractalAlgorithm.maxDepth this
                  /\ FractalNode.children node = [])))
       (nodes tree).
Proof.
  intros tree. subst tree.
  split; [|split].
  - rewrite createFractalTree_closed_form.
    destruct (place_fields anchor (skeleton this task 0)) as (_ & Hd & _).
    rewrite Hd. destruct task; reflexivity.
  - rewrite createFractalTree_closed_form.
    destruct (place_fields anchor (skeleton this task 0)) as (Ht & _).
    rewrite Ht. destruct task; reflexivity.
  - apply created_nodes_ind.
    intros p task0 depth Hd.
    destruct (place_fields p (skeleton this task0 depth))
      as (Ht & Hde & _ & _ & _ & Hcs).
    rewrite Ht, Hde, Hcs.
    assert (FractalNode.task (skeleton this task0 depth) = task0) as Hsk_t
      by (destruct task0; reflexivity).
    assert (FractalNode.depth (skeleton this task0 depth) = depth) as Hsk_d
      by (destruct task0; reflexivity).
    assert (FractalNode.children (skeleton this task0 depth)
            = if (depth <? FractalAlgorithm.maxDepth this)%nat
              then map (fun subtask => skeleton this subtask (depth + 1))
                     (subtasks_of task0)
              else []) as Hsk_c.
    { unfold subtasks_of. destruct task0 as [i ti d st pa subs deps c cr po].
      simpl. destruct (depth <? FractalAlgorithm.maxDepth this)%nat;
        [|reflexivity].
      destruct subs; reflexivity. }
    rewrite Hsk_t, Hsk_d, Hsk_c.
    split; [|split; [exact Hd|]].
    + apply Forall_mapi_from. apply Forall_forall.
      intros child Hin index.
      destruct (place_fields
                  (FractalNode.child_position p
                     (List.length
                        (if (depth <? FractalAlgorithm.maxDepth this)%nat
                         then map (fun subtask => skeleton this subtask (depth + 1))
                                (subtasks_of task0)
                         else [])) index) child) as (_ & Hcd & _).
      rewrite Hcd.
      destruct (depth <? FractalAlgorithm.maxDepth this)%nat; [|destruct Hin].
      apply in_map_iff in Hin. destruct Hin as [subtask [<- _]].
      destruct subtask; reflexivity.
    + destruct (Nat.ltb_spec depth (FractalAlgorithm.maxDepth this)) as [Hlt|Hge].
      * left. split; [exact Hlt|].
        rewrite map_mapi_from, mapi_from_map.
        rewrite (mapi_from_ext_Forall
                   (fun i a =>
                      FractalNode.task
                        (FractalNode.place
                           (FractalNode.child_position p
                              (List.length
                                 (map (fun subtask => skeleton this subtask (depth + 1))
                                    (subtasks_of task0))) i)
                           (skeleton this a (depth + 1))))
                   (fun _ a => a)).
        -- rewrite mapi_from_const. apply map_id.
        -- apply Forall_forall. intros a _ index.
           destruct (place_fields
                       (FractalNode.child_position p
                          (List.length
                             (map (fun subtask => skeleton this subtask (depth + 1))
                                (subtasks_of task0))) index)
                       (skeleton this a (depth + 1))) as (Hta & _).
           rewrite Hta. destruct a; reflexivity.
      * right. split; [lia | reflexivity].
Qed.

Lemma created_tree_stops_at_maxDepth_witness :
  (FractalNode.depth deep_tree = 0%nat
   /\ FractalNode.task deep_tree = chain 6
   /\ Forall
        (fun node =>
           Forall
             (fun child =>
                FractalNode.depth child = (FractalNode.depth node + 1)%nat)
             (FractalNode.children node)
           /\ (FractalNode.depth node <= 5)%nat
           /\ (((FractalNode.depth node < 5)%nat
                /\ map FractalNode.task (FractalNode.children node)
                   = subtasks_of (FractalNode.task node))
               \/ (FractalNode.depth node = 5%nat
                   /\ FractalNode.children node = [])))
        (nodes deep_tree))
  /\ exists node,
       In node (nodes deep_tree)
       /\ FractalNode.depth node = 5%nat
       /\ FractalNode.children node = []
       /\ subtasks_of (FractalNode.task node) = [chain 0].
Proof.
  split.
  - exact (created_tree_stops_at_maxDepth FractalAlgorithm.new (chain 6)).
  - eexists. split; [|split; [|split]].
    + unfold deep_tree. rewrite createFractalTree_closed_form. simpl.
      do 5 right. left. reflexivity.
    + reflexivity.
    + reflexivity.
    + reflexivity.
Defined.


(** ** The string functions, run *)

Example split_on_white_space :
  Js.split Js.is_space " implement  the login form "
  = [""; "implement"; "the"; "login"; "form"; ""].
Proof. reflexivity. Qed.

Example split_on_terminators :
  Js.split Js.is_terminator "One. Two?! Three" = ["One"; " Two"; " Three"]
  /\ Js.split Js.is_terminator "" = [""].
Proof. split; reflexivity. Qed.

Example technical_terms_are_whole_words :
  Js.count_words FractalAlgorithm.technical_terms false
    "Implement tests; test, TEST_ testing create-optimize" = 4%nat.
Proof. reflexivity. Qed.

Example features_of_a_description :
  FractalAlgorithm._extractFeatures
    "Add feature X. Please add functionality Y, now! Padding z. add  , then"
  = ["feature X"; "functionality Y"; ""]
  /\ FractalAlgorithm._extractFeatures "No verb here" = ["Core Feature"].
Proof. split; reflexivity. Qed.

Example text_complexity_of_the_login_description :
  FractalAlgorithm._analyzeTextComplexity
    "implement the login form and create the session API" == 1.38.
Proof. reflexivity. Qed.

(** A status that names a property of [Object.prototype] finds that
    property, which has no channels: every channel is [NaN]. *)
Example _calculateColor_inherited_key :
  FractalAlgorithm._calculateColor
    (FractalNode.new
       {| Task.id := "6"; Task.title := "Odd"; Task.description := None;
          Task.status := Some "constructor"; Task.parentId := None;
          Task.subtasks := None; Task.dependencies := None;
          Task.complexity := None; Task.created := "";
          Task.position := None |} 0)
  = Ok {| r := NaN; g := NaN; b := NaN |}.
Proof. reflexivity. Qed.

(** The ring of three children has radius 0.6. *)
Example ring_of_three : Rmax 0.5 (INR 3 * 0.2) = 0.6%R.
Proof.
  unfold Rmax. simpl INR.
  destruct (Rle_dec 0.5 ((1 + 1 + 1) * 0.2)) as [H|H]; rlra.
Qed.

(** Two descriptions of the specification, run. *)
Example login_patterns :
  FractalAlgorithm._identifyPatterns
    (plain_task "9"
       (Some "implement the login form and create the session API") (Some []) None)
  = ["core-components"].
Proof. reflexivity. Qed.

Example bare_task_complexity :
  FractalAlgorithm._analyzeComplexity (plain_task "9" None None None) = 1
  /\ map Stub.title
       (fst (FractalAlgorithm.suggestDecomposition
               (plain_task "9" None None None) world0))
     = ["Phase 1"; "Phase 2"].
Proof. split; reflexivity. Qed.

(** C4, where the code departs from it.  For a status that is a string
    but none of the four keys of [baseColors], as a nested subtask may
    carry (the task manager validates the status of top-level tasks only),
    [baseColors[status]] is [undefined] and reading [color.r] throws: no
    gray is returned.  The fallback [status || 'Not Started'] covers the
    absent and the empty status only. *)
Theorem _calculateColor_unknown_status_throws :
  FractalAlgorithm._calculateColor
    (FractalNode.new
       {| Task.id := "5"; Task.title := "Old"; Task.description := None;
          Task.status := Some "Archived"; Task.parentId := Some "1";
          Task.subtasks := None; Task.dependencies := None;
          Task.complexity := None; Task.created := "";
          Task.position := None |} 1)
  = TypeError.
Proof. reflexivity. Qed.

(** The part of C4 that the code meets: for the four statuses, and for a
    status that is absent or empty, the colour is the palette entry (the
    gray of "Not Started" in the latter case), each channel multiplied by
    [0.5 + complexity/20] and clamped to 255. *)
Lemma _calculateColor_known_status (node : FractalNode.t) (cr cg cb : Q) :
  let status := Task.status (FractalNode.task node) in
  let intensity := 0.5 + FractalNode.complexity node / 20 in
  (status = Some "Not Started" \/ status = None \/ status = Some "")
  /\ (cr, cg, cb) = (128, 128, 128)
  \/ status = Some "In Progress" /\ (cr, cg, cb) = (79, 70, 229)
  \/ status = Some "Completed" /\ (cr, cg, cb) = (34, 197, 94)
  \/ status = Some "Blocked" /\ (cr, cg, cb) = (239, 68, 68) ->
  FractalAlgorithm._calculateColor node
  = Ok {| r := Num (Qmin 255 (cr * intensity));
          g := Num (Qmin 255 (cg * intensity));
          b := Num (Qmin 255 (cb * intensity)) |}.
Proof.
  intros status intensity H. subst status intensity.
  unfold FractalAlgorithm._calculateColor.
  destruct H as [[[H|[H|H]] E]|[[H E]|[[H E]|[H E]]]];
    rewrite H; injection E as -> -> ->; reflexivity.
Qed.

Example blocked_complexity_10 (node : FractalNode.t) :
  Task.status (FractalNode.task node) = Some "Blocked" ->
  FractalNode.complexity node = 10 ->
  exists red green blue,
    FractalAlgorithm._calculateColor node
    = Ok {| r := Num red; g := Num green; b := Num blue |}
    /\ red == 239 /\ green == 68 /\ blue == 68.
Proof.
  intros Hs Hc. unfold FractalAlgorithm._calculateColor.
  rewrite Hs, Hc. simpl.
  do 3 eexists. split; [reflexivity|].
  repeat split; vm_compute; reflexivity.
Qed.

(** ** The weights of the stubs *)

(** The titles and weights [suggestDecomposition] works with: whatever
    the branch, there is at least one stub and the weights add up to 1. *)
Lemma suggestDecomposition_plan (task : Task.t) (w : World) :
  exists plan : list (string * Q),
    map title_and_complexity (fst (FractalAlgorithm.suggestDecomposition task w))
    = map (fun entry => (fst entry, mul_field (Task.complexity task) (snd entry)))
        plan
    /\ plan <> []
    /\ sumQ (map snd plan) == 1.
Proof.
  unfold FractalAlgorithm.suggestDecomposition.
  destruct (FractalAlgorithm.has_pattern _ "core-components").
  - exists [("Research & Planning", 0.2); ("Core Implementation", 0.4);
            ("Testing & Validation", 0.2); ("Documentation", 0.2)].
    split; [reflexivity|]. split; [discriminate|]. reflexivity.
  - destruct (FractalAlgorithm.has_pattern _ "feature-breakdown").
    + set (features :=
             FractalAlgorithm._extractFeatures
               match Task.description task with Some d => d | None => "" end).
      exists (map (fun feature => (feature, 1.0 / len features)) features).
      split; [|split].
      * rewrite (mapM_createSubtask task (fun feature => feature)
                   (fun _ => 1.0 / len features)).
        rewrite map_map. reflexivity.
      * pose proof (_extractFeatures_nonempty
                      match Task.description task with Some d => d | None => "" end)
          as Hne.
        fold features in Hne. destruct features; [simpl in Hne; lia | discriminate].
      * rewrite map_map. simpl.
        apply equal_shares_sum_to_1. apply _extractFeatures_nonempty.
    + set (n := Z.to_nat
                  (Z.max 2
                     (Z.min 5
                        (Math_ceil (FractalAlgorithm._analyzeComplexity task / 2))))).
      assert (2 <= n)%nat as Hn by (subst n; lia).
      exists (map (fun i => ("Phase " ++ Js.of_nat (i + 1),
                             1.0 / inject_Z (Z.of_nat n))) (seq 0 n)).
      split; [|split].
      * rewrite (mapM_createSubtask task
                   (fun i => "Phase " ++ Js.of_nat (i + 1))
                   (fun _ => 1.0 / inject_Z (Z.of_nat n))).
        rewrite map_map. reflexivity.
      * destruct n; [lia | discriminate].
      * rewrite map_map. simpl.
        pose proof (@equal_shares_sum_to_1 _ (seq 0 n)) as H.
        unfold len in H. rewrite length_seq in H. apply H. lia.
Qed.

(** C5, where the code departs from it.  [suggestDecomposition] computes
    the score of the task, between 1 and 10, and uses it for the number
    of phases only; the complexity of a stub is the product of the
    [complexity] property of the task object and the weight.  For a task
    without that property, as every task is that the task manager stores
    or the form of the application makes, the complexity of every stub
    is [NaN] and so is their sum: it is no Number, and so not the
    complexity of the parent within any tolerance. *)
Theorem stubs_of_a_task_without_complexity_are_NaN (task : Task.t) (w : World) :
  Task.complexity task = None ->
  let stubs := fst (FractalAlgorithm.suggestDecomposition task w) in
  let score := FractalAlgorithm._analyzeComplexity task in
  stubs <> []
  /\ Forall (fun s => Stub.complexity s = NaN) stubs
  /\ number_sum (map Stub.complexity stubs) = NaN
  /\ (forall total : Q, number_sum (map Stub.complexity stubs) <> Num total)
  /\ 1 <= score <= 10.
Proof.
  intros Htc stubs score.
  destruct (suggestDecomposition_plan task w) as (plan & Hplan & Hne & _).
  fold stubs in Hplan.
  assert (map Stub.complexity stubs
          = map (fun entry => mul_field (Task.complexity task) (snd entry)) plan)
    as Hc.
  { replace (map Stub.complexity stubs)
      with (map snd (map title_and_complexity stubs))
      by (rewrite map_map; reflexivity).
    rewrite Hplan, map_map. reflexivity. }
  rewrite Htc in Hc. simpl in Hc.
  assert (stubs <> []) as Hs.
  { intros E. rewrite E in Hplan. destruct plan; [congruence | discriminate]. }
  split; [exact Hs|].
  assert (Forall (fun s => Stub.complexity s = NaN) stubs) as Hall.
  { apply Forall_forall. intros s Hin.
    apply (in_map Stub.complexity) in Hin. rewrite Hc in Hin.
    apply in_map_iff in Hin. destruct Hin as [entry [E _]]. now symmetry. }
  split; [exact Hall|].
  assert (number_sum (map Stub.complexity stubs) = NaN) as Hsum.
  { apply number_sum_all_NaN.
    - destruct stubs; [congruence | discriminate].
    - apply Forall_forall. intros a Hin. apply in_map_iff in Hin.
      destruct Hin as [s [<- Hin]].
      rewrite Forall_forall in Hall. now apply Hall. }
  split; [exact Hsum|]. split; [intros total; rewrite Hsum; discriminate|].
  apply _analyzeComplexity_bounds.
Qed.

Lemma stubs_of_a_task_without_complexity_are_NaN_witness :
  map title_and_complexity
    (fst (FractalAlgorithm.suggestDecomposition demo_task world0))
  = [("Phase 1", NaN); ("Phase 2", NaN)]
  /\ number_sum
       (map Stub.complexity
          (fst (FractalAlgorithm.suggestDecomposition demo_task world0)))
     = NaN.
Proof.
  split; [reflexivity|].
  exact (proj1 (proj2 (proj2 (@stubs_of_a_task_without_complexity_are_NaN
                                demo_task world0 eq_refl)))).
Defined.



(** C7.  Two calls of [createFractalTree] on tasks of the same structure,
    in whatever stores, at whatever locations and through whatever
    algorithm objects of the same [maxDepth], both return, and both return
    the same tree: the one the functional [createFractalTree] computes
    from the task and [maxDepth], with the same [depth], [complexity],
    [position] and [size] at every node.  A second call on the store and
    the algorithm object that the first call leaves returns that tree
    once more, at a new location, and the first tree is as it was. *)
Theorem createFractalTree_is_deterministic
    (this1 this2 : Store.FractalAlgorithm) (that : FractalAlgorithm.t)
    (st1 st2 : Store.state) (l1 l2 : Store.loc) (task : Task.t)
    (fuel1 fuel2 : nat) :
  Store.maxDepth this1 = FractalAlgorithm.maxDepth that ->
  Store.maxDepth this2 = FractalAlgorithm.maxDepth that ->
  task_at (Store.objects st1) l1 task ->
  task_at (Store.objects st2) l2 task ->
  (FractalAlgorithm.maxDepth that < fuel1)%nat ->
  (FractalAlgorithm.maxDepth that < fuel2)%nat ->
  let tree := fst (FractalAlgorithm.createFractalTree that task) in
  exists root1 st1' root2 st2' root3 st3',
    Store.createFractalTree fuel1 this1 l1 st1
    = Some ((root1, Store.set_root this1 root1), st1')
    /\ node_at (Store.objects st1') root1 tree
    /\ Store.createFractalTree fuel2 this2 l2 st2
       = Some ((root2, Store.set_root this2 root2), st2')
    /\ node_at (Store.objects st2') root2 tree
    /\ Store.createFractalTree fuel1 (Store.set_root this1 root1) l1 st1'
       = Some ((root3, Store.set_root (Store.set_root this1 root1) root3), st3')
    /\ node_at (Store.objects st3') root3 tree
    /\ node_at (Store.objects st3') root1 tree
    /\ root3 <> root1.
Proof.
  intros Hmd1 Hmd2 Htask1 Htask2 Hfuel1 Hfuel2 tree.
  destruct (@createFractalTree_store this1 that st1 l1 task fuel1 Hmd1 Htask1
              ltac:(lia))
    as (root1 & st1' & Hrun1 & Hnode1 & Hp1 & Hfresh1 & _).
  destruct (@createFractalTree_store this2 that st2 l2 task fuel2 Hmd2 Htask2
              ltac:(lia))
    as (root2 & st2' & Hrun2 & Hnode2 & _).
  destruct (@createFractalTree_store (Store.set_root this1 root1) that st1' l1
              task fuel1 Hmd1 (task_at_preserved Hp1 Htask1)
              ltac:(simpl; lia))
    as (root3 & st3' & Hrun3 & Hnode3 & Hp3 & Hfresh3 & _).
  exists root1, st1', root2, st2', root3, st3'.
  repeat split; auto.
  - eapply node_at_preserved; [exact Hp3 | exact Hnode1].
  - inversion Hnode1 as [l0 o node0 Hl _ _ _ _ _ _]; subst.
    apply nth_error_lt in Hl. lia.
Qed.

Ltac stored :=
  repeat first
    [ reflexivity
    | eapply task_at_intro
    | eapply array_at_Some
    | eapply array_at_None
    | eapply Forall2_cons
    | eapply Forall2_nil
    | split ].

Lemma createFractalTree_is_deterministic_witness :
  exists root1 st1' root2 st2' root3 st3',
    Store.createFractalTree 6 new_FractalAlgorithm 0%nat store_a
    = Some ((root1, Store.set_root new_FractalAlgorithm root1), st1')
    /\ node_at (Store.objects st1') root1
         (fst (FractalAlgorithm.createFractalTree FractalAlgorithm.new
                 three_subtasks))
    /\ Store.createFractalTree 9 (Store.set_root new_FractalAlgorithm 1%nat)
         5%nat store_b
       = Some ((root2,
                Store.set_root (Store.set_root new_FractalAlgorithm 1%nat) root2),
               st2')
    /\ node_at (Store.objects st2') root2
         (fst (FractalAlgorithm.createFractalTree FractalAlgorithm.new
                 three_subtasks))
    /\ Store.createFractalTree 6 (Store.set_root new_FractalAlgorithm root1)
         0%nat st1'
       = Some ((root3,
                Store.set_root (Store.set_root new_FractalAlgorithm root1) root3),
               st3')
    /\ node_at (Store.objects st3') root3
         (fst (FractalAlgorithm.createFractalTree FractalAlgorithm.new
                 three_subtasks))
    /\ node_at (Store.objects st3') root1
         (fst (FractalAlgorithm.createFractalTree FractalAlgorithm.new
                 three_subtasks))
    /\ root3 <> root1.
Proof.
  apply (@createFractalTree_is_deterministic
           new_FractalAlgorithm (Store.set_root new_FractalAlgorithm 1%nat)
           FractalAlgorithm.new store_a store_b 0%nat 5%nat three_subtasks 6 9).
  - reflexivity.
  - reflexivity.
  - unfold store_a. stored.
  - unfold store_b. stored.
  - simpl. lia.
  - simpl. lia.
Defined.

(** C8.  [updateLayout] on a node without children returns, and returns
    the store it was given: no position, of this node or of any other, is
    changed.  The quotient [2 * PI / 0] that the code forms for the angle
    is not used and stops nothing.  The functional [updateLayout]
    likewise returns the node it was given. *)
Theorem updateLayout_without_children_changes_nothing :
  (forall (fuel : nat) (st : Store.state) (this : Store.loc)
          (n : Store.NodeObject),
      nth_error (Store.objects st) this = Some (Store.ONode n) ->
      nth_error (Store.objects st) (Store.children n) = Some (Store.OArray []) ->
      Store.updateLayout (S fuel) this st = Some (tt, st))
  /\ (forall node : FractalNode.t,
         FractalNode.children node = [] ->
         FractalNode.updateLayout node = node).
Proof.
  split.
  - intros fuel st this n Hn Hcs. cbn [Store.updateLayout].
    rewrite (bind_run _ (load_node_run st this Hn)).
    rewrite (bind_run _ (load_array_run st (Store.children n) Hcs)).
    reflexivity.
  - intros node H. destruct node as [ta de cs po si co]. simpl in H. subst cs.
    reflexivity.
Qed.

Lemma updateLayout_without_children_changes_nothing_witness :
  Store.updateLayout 1 2%nat store_c = Some (tt, store_c)
  /\ FractalNode.updateLayout (FractalNode.new demo_task 0)
     = FractalNode.new demo_task 0.
Proof.
  split.
  - eapply (proj1 updateLayout_without_children_changes_nothing 0%nat store_c 2%nat);
      reflexivity.
  - apply (proj2 updateLayout_without_children_changes_nothing). reflexivity.
Defined.

(** C9.  [createFractalTree] and [suggestDecomposition] return, and every
    object the store held before the call (the task given, its subtasks
    at every level, their arrays, and whatever else) is at its location
    and unchanged after it; in particular the location of the task still
    holds the same task.  What [suggestDecomposition] returns is an array
    that was not in the store before, of stubs that were not in the store
    before. *)
Theorem tasks_are_left_alone :
  (forall (this : Store.FractalAlgorithm) (st : Store.state) (l : Store.loc)
          (task : Task.t) (fuel : nat),
      task_at (Store.objects st) l task ->
      (Store.maxDepth this < fuel)%nat ->
      exists root st',
        Store.createFractalTree fuel this l st
        = Some ((root, Store.set_root this root), st')
        /\ preserved (Store.objects st) (Store.objects st')
        /\ task_at (Store.objects st') l task)
  /\ (forall (st : Store.state) (l : Store.loc) (task : Task.t) (fuel : nat),
         task_at (Store.objects st) l task ->
         (task_height task <= fuel)%nat ->
         exists array st' elements,
           Store.suggestDecomposition fuel l st = Some (array, st')
           /\ preserved (Store.objects st) (Store.objects st')
           /\ task_at (Store.objects st') l task
           /\ nth_error (Store.objects st') array = Some (Store.OArray elements)
           /\ (List.length (Store.objects st) <= array)%nat
           /\ Forall
                (fun e =>
                   (List.length (Store.objects st) <= e)%nat
                   /\ exists s, stub_at (Store.objects st') e s)
                elements).
Proof.
  split.
  - intros this st l task fuel Htask Hfuel.
    destruct (@createFractalTree_store this (functional this) st l task fuel
                eq_refl Htask Hfuel)
      as (root & st' & Hrun & _ & Hp & _).
    exists root, st'. split; [exact Hrun|]. split; [exact Hp|].
    eapply task_at_preserved; eauto.
  - intros st l task fuel Htask Hfuel.
    destruct (suggestDecomposition_run st Htask Hfuel)
      as (array & st' & elements & Hrun & Harr & Hstubs & Hfresh & Hp & _).
    exists array, st', elements.
    split; [exact Hrun|]. split; [exact Hp|].
    split; [eapply task_at_preserved; eauto|]. split; [exact Harr|].
    inversion Hfresh as [|a es Ha Hes]; subst. split; [exact Ha|].
    clear - Hes Hstubs. revert Hes.
    induction Hstubs as [|e s es ss Hs _ IH]; intros Hes; constructor.
    + inversion Hes; subst. split; [assumption | now exists s].
    + inversion Hes; subst. auto.
Qed.

Lemma tasks_are_left_alone_witness :
  (exists root st',
      Store.createFractalTree 6 new_FractalAlgorithm 0%nat store_a
      = Some ((root, Store.set_root new_FractalAlgorithm root), st')
      /\ preserved (Store.objects store_a) (Store.objects st')
      /\ task_at (Store.objects st') 0%nat three_subtasks)
  /\ (exists array st' elements,
         Store.suggestDecomposition 1 5%nat store_a = Some (array, st')
         /\ preserved (Store.objects store_a) (Store.objects st')
         /\ task_at (Store.objects st') 5%nat export_task
         /\ nth_error (Store.objects st') array = Some (Store.OArray elements)
         /\ (List.length (Store.objects store_a) <= array)%nat
         /\ Forall
              (fun e =>
                 (List.length (Store.objects store_a) <= e)%nat
                 /\ exists s, stub_at (Store.objects st') e s)
              elements).
Proof.
  split.
  - apply (proj1 tasks_are_left_alone new_FractalAlgorithm store_a 0%nat
             three_subtasks 6%nat).
    + unfold store_a. stored.
    + simpl. lia.
  - apply (proj2 tasks_are_left_alone store_a 5%nat export_task 1%nat).
    + unfold store_a. stored.
    + simpl. lia.
Defined.

(** C10.  Whenever [maxDepth] is positive, as the default 5 is, every
    connection that [_calculateConnections] returns for a tree
    [createFractalTree] returned and that leads to a child at depth
    [maxDepth] has strength exactly 0.2: the connection from a node of
    the tree to a child at depth [maxDepth] is in the list with strength
    0.2, and every connection of the list that ends at the level of
    depth [maxDepth], [y = 2 - maxDepth/2], has strength 0.2, whatever
    the complexities of the two nodes are. *)
Theorem connection_to_maxDepth_has_strength_0_2
    (this : FractalAlgorithm.t) (task : Task.t) :
  (0 < FractalAlgorithm.maxDepth this)%nat ->
  let tree := fst (FractalAlgorithm.createFractalTree this task) in
  let connections := FractalAlgorithm._calculateConnections this tree in
  (forall parent child,
      In parent (nodes tree) ->
      In child (FractalNode.children parent) ->
      FractalNode.depth child = FractalAlgorithm.maxDepth this ->
      In {| from := FractalNode.position parent;
            to := FractalNode.position child;
            strength := 0.2 |} connections)
  /\ (forall c,
         In c connections ->
         y (to c) = (2 - 0.5 * INR (FractalAlgorithm.maxDepth this))%R ->
         strength c = 0.2).
Proof.
  intros Hpos tree connections. split.
  - intros parent child Hp Hc Hd.
    rewrite <- (_calculateConnectionStrength_at_maxDepth this parent child Hpos Hd).
    subst connections.
    clear Hd. revert Hp. generalize tree. clear tree.
    intros tree. induction tree as [tree IH] using FractalNode_ind'.
    intros Hp. destruct tree as [ta de cs po si co]; simpl in *.
    destruct Hp as [<-|Hp].
    + simpl in Hc. apply in_flat_map. exists child. split; [exact Hc|]. now left.
    + apply in_flat_map in Hp. destruct Hp as [c [Hin Hp]].
      apply in_flat_map. exists c. split; [exact Hin|]. right.
      rewrite Forall_forall in IH. exact (IH c Hin Hp).
  - intros c Hin Hy. subst connections.
    rewrite _calculateConnections_edges in Hin.
    apply in_map_iff in Hin. destruct Hin as [[parent child] [<- Hin]].
    cbn [to strength fst snd] in *.
    apply edges_in in Hin. destruct Hin as [Hp Hc].
    pose proof (children_in_nodes _ _ _ Hp Hc) as Hn.
    subst tree. rewrite createFractalTree_closed_form in Hn.
    pose proof (placed_levels this task anchor 0) as Hall.
    rewrite Forall_forall in Hall. destruct (Hall child Hn) as [_ Hlevel].
    rewrite Hlevel in Hy. simpl in Hy.
    apply _calculateConnectionStrength_at_maxDepth; [exact Hpos|].
    apply INR_eq. rlra.
Qed.

Lemma connection_to_maxDepth_has_strength_0_2_witness :
  exists c,
    In c (FractalAlgorithm._calculateConnections FractalAlgorithm.new deep_tree)
    /\ y (to c) = (2 - 0.5 * INR 5)%R
    /\ strength c = 0.2.
Proof.
  assert (0 < FractalAlgorithm.maxDepth FractalAlgorithm.new)%nat as Hpos
    by (cbn; lia).
  pose proof (proj2 (@connection_to_maxDepth_has_strength_0_2
                       FractalAlgorithm.new (chain 6) Hpos)) as H.
  cbv zeta in H. fold deep_tree in H.
  assert (exists c,
             In c (FractalAlgorithm._calculateConnections FractalAlgorithm.new
                     deep_tree)
             /\ y (to c) = (2 - 0.5 * INR 5)%R) as (c & Hin & Hy).
  { unfold deep_tree. rewrite createFractalTree_closed_form. simpl.
    eexists. split; [do 4 right; left; reflexivity|]. simpl. rlra. }
  exists c. split; [exact Hin|]. split; [exact Hy|].
  exact (H c Hin Hy).
Defined.

(* ================================================================== *)
(** * Further properties of the fractal engine *)
(* ================================================================== *)

(** ** Sizes and colours *)

Lemma Math_pow_pos (n : nat) : 0 < Math_pow 0.8 n /\ Math_pow 0.8 n <= 1.
Proof.
  induction n as [|n [IH1 IH2]]; simpl.
  - split; qlra.
  - split; qlra.
Qed.

Lemma Math_pow_antitone (m n : nat) :
  (m <= n)%nat -> Math_pow 0.8 n <= Math_pow 0.8 m.
Proof.
  induction 1 as [|n _ IH]; simpl.
  - qlra.
  - pose proof (Math_pow_pos n). qlra.
Qed.

Lemma Qmult_le_both (a b c d : Q) :
  0 <= a -> a <= b -> 0 <= c -> c <= d -> a * c <= b * d.
Proof.
  intros. Lqa.nra.
Qed.

Lemma Qdiv_20 (c : Q) : c / 20 == c * 0.05.
Proof. field. Qed.

Lemma created_node_bounds (this : FractalAlgorithm.t) (task : Task.t) :
  Forall
    (fun node =>
       (FractalNode.depth node <= FractalAlgorithm.maxDepth this)%nat
       /\ 1 <= FractalNode.complexity node
       /\ FractalNode.complexity node <= 10)
    (nodes (fst (FractalAlgorithm.createFractalTree this task))).
Proof.
  apply created_nodes_ind. intros p task0 depth Hd.
  destruct (place_fields p (skeleton this task0 depth)) as (_ & Hde & _ & _ & Hc & _).
  rewrite Hde, Hc. destruct task0; simpl.
  split; [exact Hd|]. apply calculateComplexity_bounds.
Qed.

(** X1.  When [minTaskSize] is at most [0.8^maxDepth * 0.55], as the 0.1
    of the constructor is for its [maxDepth] of 5, the floor of
    [_calculateSize] decides for no node of a tree [createFractalTree]
    returns: the size is [0.8^depth * (0.5 + complexity/20)], and it lies
    between [0.8^maxDepth * 0.55] and 1. *)
Theorem created_tree_sizes_clear_the_floor
    (this : FractalAlgorithm.t) (task : Task.t) (node : FractalNode.t) :
  FractalAlgorithm.minTaskSize this
  <= Math_pow 0.8 (FractalAlgorithm.maxDepth this) * 0.55 ->
  In node (nodes (fst (FractalAlgorithm.createFractalTree this task))) ->
  FractalAlgorithm._calculateSize this node
  == Math_pow 0.8 (FractalNode.depth node) * (0.5 + FractalNode.complexity node / 20)
  /\ Math_pow 0.8 (FractalAlgorithm.maxDepth this) * 0.55
     <= FractalAlgorithm._calculateSize this node
  /\ FractalAlgorithm._calculateSize this node <= 1.
Proof.
  intros Hmin Hin.
  pose proof (created_node_bounds this task) as Hall.
  rewrite Forall_forall in Hall. destruct (Hall node Hin) as (Hd & Hc1 & Hc10).
  unfold FractalAlgorithm._calculateSize.
  set (df := Math_pow 0.8 (FractalNode.depth node)).
  set (cf := 0.5 + FractalNode.complexity node / 20).
  pose proof (Math_pow_pos (FractalNode.depth node)) as [Hp0 Hp1]. fold df in Hp0, Hp1.
  pose proof (Math_pow_pos (FractalAlgorithm.maxDepth this)) as [Hm0 Hm1].
  pose proof (Math_pow_antitone Hd) as Hmono. fold df in Hmono.
  assert (0.55 <= cf /\ cf <= 1) as [Hcf0 Hcf1].
  { subst cf. rewrite (Qdiv_20 (FractalNode.complexity node)). split; qlra. }
  assert (Math_pow 0.8 (FractalAlgorithm.maxDepth this) * 0.55 <= df * cf) as Hlow.
  { apply Qmult_le_both; qlra. }
  assert (df * cf <= 1) as Hup.
  { assert (df * cf <= 1 * 1) by (apply Qmult_le_both; qlra). qlra. }
  assert (Qmax (FractalAlgorithm.minTaskSize this) (df * cf) == df * cf) as E.
  { apply Q.max_r. qlra. }
  rewrite E. repeat split; qlra.
Qed.

Lemma created_tree_sizes_clear_the_floor_witness :
  Math_pow 0.8 5 * 0.55
  <= FractalAlgorithm._calculateSize FractalAlgorithm.new deep_tree
  /\ FractalAlgorithm._calculateSize FractalAlgorithm.new deep_tree <= 1.
Proof.
  refine (proj2 (@created_tree_sizes_clear_the_floor FractalAlgorithm.new
                   (chain 6) deep_tree _ _)).
  - apply Qle_bool_imp_le. reflexivity.
  - unfold deep_tree. rewrite createFractalTree_closed_form. simpl.
    left. reflexivity.
Defined.

(** X2.  [_calculateSize] does not grow with depth and does not shrink
    with complexity: a node that is at least as deep as another and at
    most as complex (the complexity not negative) is at most as large. *)
Theorem deeper_and_simpler_is_never_larger
    (this : FractalAlgorithm.t) (a b : FractalNode.t) :
  (FractalNode.depth a <= FractalNode.depth b)%nat ->
  FractalNode.complexity b <= FractalNode.complexity a ->
  0 <= FractalNode.complexity b ->
  FractalAlgorithm._calculateSize this b <= FractalAlgorithm._calculateSize this a.
Proof.
  intros Hd Hc H0. unfold FractalAlgorithm._calculateSize.
  apply Q.max_le_compat_l.
  rewrite (Qdiv_20 (FractalNode.complexity a)), (Qdiv_20 (FractalNode.complexity b)).
  pose proof (Math_pow_antitone Hd) as Hmono.
  pose proof (Math_pow_pos (FractalNode.depth b)) as [Hb _].
  apply Qmult_le_both; qlra.
Qed.

Lemma deeper_and_simpler_is_never_larger_witness :
  FractalAlgorithm._calculateSize FractalAlgorithm.new
    (FractalNode.new (leaf "2") 3)
  <= FractalAlgorithm._calculateSize FractalAlgorithm.new
       (FractalNode.new three_subtasks 0).
Proof.
  apply deeper_and_simpler_is_never_larger.
  - simpl. lia.
  - apply Qle_bool_imp_le. reflexivity.
  - apply Qle_bool_imp_le. reflexivity.
Defined.

Lemma Qmin_right (a q : Q) : q < a -> Qmin a q = q.
Proof.
  intros H. unfold Qmin, GenericMinMax.gmin.
  destruct (a ?= q) eqn:E; try reflexivity.
  - apply Qeq_alt in E. qlra.
  - apply Qlt_alt in E. qlra.
Qed.

(** X3.  For a node of complexity between 1 and 10, as every node made by
    [new FractalNode] has, and a status that is a key of [baseColors],
    [Math.min(255, ...)] of [_calculateColor] never decides: each channel
    is the palette value times [0.5 + complexity/20], between 55% of the
    palette value and the palette value. *)
Theorem palette_colours_are_never_clamped
    (node : FractalNode.t) (status : string) (cr cg cb : Q) :
  Task.status (FractalNode.task node) = Some status ->
  In (status, (cr, cg, cb)) FractalAlgorithm.baseColors ->
  1 <= FractalNode.complexity node ->
  FractalNode.complexity node <= 10 ->
  let intensity := 0.5 + FractalNode.complexity node / 20 in
  FractalAlgorithm._calculateColor node
  = Ok {| r := Num (cr * intensity);
          g := Num (cg * intensity);
          b := Num (cb * intensity) |}
  /\ 0.55 * cr <= cr * intensity <= cr
  /\ 0.55 * cg <= cg * intensity <= cg
  /\ 0.55 * cb <= cb * intensity <= cb.
Proof.
  intros Hs Hin H1 H10 intensity.
  assert (0.55 <= intensity /\ intensity <= 1) as [Hi0 Hi1].
  { subst intensity. rewrite (Qdiv_20 (FractalNode.complexity node)). split; qlra. }
  unfold FractalAlgorithm._calculateColor. rewrite Hs. fold intensity.
  simpl in Hin.
  destruct Hin as [E|[E|[E|[E|[]]]]]; injection E as <- <- <- <-; simpl;
    (split;
     [ rewrite !Qmin_right by Lqa.nra; reflexivity
     | repeat split; Lqa.nra ]).
Qed.

Lemma palette_colours_are_never_clamped_witness :
  FractalAlgorithm._calculateColor (FractalNode.new demo_task 0)
  = Ok {| r := Num (128 * (0.5 + FractalNode.calculateComplexity demo_task / 20));
          g := Num (128 * (0.5 + FractalNode.calculateComplexity demo_task / 20));
          b := Num (128 * (0.5 + FractalNode.calculateComplexity demo_task / 20)) |}.
Proof.
  refine (proj1 (@palette_colours_are_never_clamped (FractalNode.new demo_task 0)
                   "Not Started" 128 128 128 eq_refl _ _ _)).
  - left. reflexivity.
  - apply Qle_bool_imp_le. reflexivity.
  - apply Qle_bool_imp_le. reflexivity.
Defined.

(** ** Connections *)

Lemma edges_children (node : FractalNode.t) :
  map snd (edges node) = tl (nodes node).
Proof.
  induction node as [node IH] using FractalNode_ind'.
  assert (forall (parent : FractalNode.t) cs,
             Forall (fun c => map snd (edges c) = tl (nodes c)) cs ->
             map snd (flat_map (fun child => (parent, child) :: edges child) cs)
             = flat_map nodes cs) as Haux.
  { intros parent cs Hall.
    induction Hall as [|c cs Hc _ IHcs]; simpl; [reflexivity|].
    rewrite map_app, IHcs, Hc. destruct c; reflexivity. }
  destruct node as [ta de cs po si co].
  exact (Haux (FractalNode.make ta de cs po si co) cs IH).
Qed.

Lemma connections_targets (this : FractalAlgorithm.t) (node : FractalNode.t) :
  map to (FractalAlgorithm._calculateConnections this node)
  = map FractalNode.position (tl (nodes node)).
Proof.
  rewrite _calculateConnections_edges, map_map. simpl.
  rewrite <- edges_children, map_map. reflexivity.
Qed.

(** X4.  [_calculateConnections] returns one connection per node below
    the node given, in the order in which the nodes are met going down
    child by child: the end points [to] are the positions of these nodes,
    and there is one connection less than there are nodes. *)
Theorem one_connection_per_node_below_the_root
    (this : FractalAlgorithm.t) (node : FractalNode.t) :
  map to (FractalAlgorithm._calculateConnections this node)
  = map FractalNode.position (tl (nodes node))
  /\ List.length (FractalAlgorithm._calculateConnections this node)
     = (List.length (nodes node) - 1)%nat.
Proof.
  split; [apply connections_targets|].
  rewrite <- (length_map to), connections_targets, length_map.
  destruct node; simpl. lia.
Qed.

(** X5.  Every connection of a tree [createFractalTree] returns joins a
    node of the tree to one of its children: it starts at the position
    of the node, ends at the position of the child, which is half a unit
    lower, and has the strength of the pair. *)
Theorem created_tree_connections_descend
    (this : FractalAlgorithm.t) (task : Task.t) (c : Connection) :
  let tree := fst (FractalAlgorithm.createFractalTree this task) in
  In c (FractalAlgorithm._calculateConnections this tree) ->
  y (to c) = (y (from c) - 0.5)%R
  /\ exists parent child : FractalNode.t,
       In parent (nodes tree)
       /\ In child (FractalNode.children parent)
       /\ from c = FractalNode.position parent
       /\ to c = FractalNode.position child
       /\ strength c
          = FractalAlgorithm._calculateConnectionStrength this parent child.
Proof.
  intros tree Hin. subst tree. rewrite _calculateConnections_edges in Hin.
  apply in_map_iff in Hin. destruct Hin as [[parent child] [<- Hin]].
  cbn [from to strength fst snd].
  apply edges_in in Hin. destruct Hin as [Hp Hc]. split.
  - pose proof (created_tree_laid_out this task) as Hall.
    rewrite Forall_forall in Hall. specialize (Hall parent Hp).
    apply In_nth_error in Hc. destruct Hc as [index Hc].
    rewrite (Hall index child Hc). reflexivity.
  - exists parent, child. repeat split; assumption.
Qed.

Lemma created_tree_connections_descend_witness :
  exists c,
    In c (FractalAlgorithm._calculateConnections FractalAlgorithm.new
            (fst (FractalAlgorithm.createFractalTree FractalAlgorithm.new
                    three_subtasks)))
    /\ y (to c) = (y (from c) - 0.5)%R.
Proof.
  assert (exists c,
             In c (FractalAlgorithm._calculateConnections FractalAlgorithm.new
                     (fst (FractalAlgorithm.createFractalTree FractalAlgorithm.new
                             three_subtasks)))) as [c Hin].
  { rewrite createFractalTree_closed_form. simpl. eexists. left. reflexivity. }
  exists c. split; [exact Hin|].
  exact (proj1 (@created_tree_connections_descend FractalAlgorithm.new
                  three_subtasks c Hin)).
Defined.

(** ** Levels *)

(** X6.  In a tree [createFractalTree] returns, the height of a node is
    decided by its depth: a node at depth [d] stands at [y = 2 - d/2]. *)
Theorem created_tree_levels (this : FractalAlgorithm.t) (task : Task.t)
    (node : FractalNode.t) :
  In node (nodes (fst (FractalAlgorithm.createFractalTree this task))) ->
  y (FractalNode.position node) = (2 - 0.5 * INR (FractalNode.depth node))%R.
Proof.
  rewrite createFractalTree_closed_form. intros Hin.
  pose proof (placed_levels this task anchor 0) as Hall.
  rewrite Forall_forall in Hall. destruct (Hall node Hin) as [_ Hy].
  rewrite Hy. simpl. ring.
Qed.

Lemma created_tree_levels_witness :
  exists node,
    In node (nodes deep_tree)
    /\ FractalNode.depth node = 5%nat
    /\ y (FractalNode.position node) = (2 - 0.5 * INR 5)%R.
Proof.
  assert (exists node,
             In node (nodes (fst (FractalAlgorithm.createFractalTree
                                    FractalAlgorithm.new (chain 6))))
             /\ FractalNode.depth node = 5%nat) as (node & Hin & Hd).
  { rewrite createFractalTree_closed_form. simpl. eexists. split.
    - do 5 right. left. reflexivity.
    - reflexivity. }
  exists node. split; [exact Hin|]. split; [exact Hd|].
  rewrite <- Hd.
  exact (@created_tree_levels FractalAlgorithm.new (chain 6) node Hin).
Defined.

(** ** Strength *)

(** X7.  The strength of a connection is at least 0.2 and at most
    [max(0.2, 1 - depth/maxDepth)] for the depth of the child, whenever
    [maxDepth] is positive and the two complexities add up to between 0
    and 20, as those of nodes made by [new FractalNode] do: no connection
    is stronger than its depth allows. *)
Theorem connection_strength_fades_with_depth
    (this : FractalAlgorithm.t) (parent child : FractalNode.t) :
  (0 < FractalAlgorithm.maxDepth this)%nat ->
  0 <= FractalNode.complexity parent + FractalNode.complexity child ->
  FractalNode.complexity parent + FractalNode.complexity child <= 20 ->
  let fade :=
    1 - inject_Z (Z.of_nat (FractalNode.depth child))
        / inject_Z (Z.of_nat (FractalAlgorithm.maxDepth this)) in
  0.2 <= FractalAlgorithm._calculateConnectionStrength this parent child
  /\ FractalAlgorithm._calculateConnectionStrength this parent child <= Qmax 0.2 fade.
Proof.
  intros Hpos H0 H20 fade.
  unfold FractalAlgorithm._calculateConnectionStrength. fold fade.
  set (cf := (FractalNode.complexity parent + FractalNode.complexity child) / 20).
  assert (0 <= cf /\ cf <= 1) as [Hc0 Hc1].
  { subst cf.
    rewrite (Qdiv_20 (FractalNode.complexity parent + FractalNode.complexity child)).
    split; qlra. }
  split; [apply Q.le_max_l|].
  apply Q.max_lub; [apply Q.le_max_l|].
  destruct (Qlt_le_dec fade 0) as [Hneg|Hnn].
  - apply Qle_trans with 0.2; [|apply Q.le_max_l].
    apply Qle_trans with (fade * cf); [apply Q.le_min_r|]. Lqa.nra.
  - apply Qle_trans with fade; [|apply Q.le_max_r].
    apply Qle_trans with (fade * cf); [apply Q.le_min_r|]. Lqa.nra.
Qed.

Lemma connection_strength_fades_with_depth_witness :
  0.2 <= FractalAlgorithm._calculateConnectionStrength FractalAlgorithm.new
           (FractalNode.new three_subtasks 0) (FractalNode.new (leaf "2") 1)
  /\ FractalAlgorithm._calculateConnectionStrength FractalAlgorithm.new
       (FractalNode.new three_subtasks 0) (FractalNode.new (leaf "2") 1)
     <= Qmax 0.2 (1 - inject_Z (Z.of_nat 1) / inject_Z (Z.of_nat 5)).
Proof.
  apply (@connection_strength_fades_with_depth FractalAlgorithm.new
           (FractalNode.new three_subtasks 0) (FractalNode.new (leaf "2") 1)).
  - simpl. lia.
  - apply Qle_bool_imp_le. reflexivity.
  - apply Qle_bool_imp_le. reflexivity.
Defined.

(** ** Saturation *)

Lemma Qmin_left (a q : Q) : a <= q -> Qmin a q = a.
Proof.
  intros H. unfold Qmin, GenericMinMax.gmin.
  destruct (a ?= q) eqn:E; try reflexivity.
  apply Qgt_alt in E. qlra.
Qed.

Lemma len_cons (A : Type) (a : A) (xs : list A) : len (a :: xs) == len xs + 1.
Proof.
  unfold len. simpl List.length.
  rewrite Nat2Z.inj_succ, <- Z.add_1_r, inject_Z_plus. reflexivity.
Qed.

Lemma fold_left_add_at_least (A : Type) (f : A -> Q) (low : Q) (xs : list A)
    (init : Q) :
  Forall (fun a => low <= f a) xs ->
  init + len xs * low <= fold_left (fun score a => score + f a) xs init.
Proof.
  intros H. revert init.
  induction H as [|a xs Ha _ IH]; intros init; simpl.
  - unfold len. simpl. change (inject_Z 0) with 0. qlra.
  - specialize (IH (init + f a)). rewrite len_cons. Lqa.nra.
Qed.

Lemma len_ge (A : Type) (xs : list A) (n : nat) :
  (n <= List.length xs)%nat -> inject_Z (Z.of_nat n) <= len xs.
Proof.
  intros H. unfold len. rewrite <- Zle_Qle. lia.
Qed.

(** X8.  Subtasks alone saturate the scores: a task with six or more
    subtasks has [_analyzeComplexity] exactly 10, since every subtask adds
    1 and half of its own score, which is at least 1; a task with nine or
    more subtasks has [calculateComplexity] exactly 10. *)
Theorem many_subtasks_saturate_the_score (task : Task.t) (subtasks : list Task.t) :
  Task.subtasks task = Some subtasks ->
  ((6 <= List.length subtasks)%nat ->
   FractalAlgorithm._analyzeComplexity task = 10)
  /\ ((9 <= List.length subtasks)%nat ->
      FractalNode.calculateComplexity task = 10).
Proof.
  intros Hsub. split; intros Hn.
  - destruct task as [i ti d st pa subs deps c cr po]; simpl in *. subst subs.
    apply Qmin_left.
    set (s1 := match d with
               | Some d0 =>
                   if Js.truthy d0
                   then 1 + FractalAlgorithm._analyzeTextComplexity d0 else 1
               | None => 1
               end).
    assert (1 <= s1) as H1.
    { subst s1. destruct d as [d0|]; [|qlra].
      destruct (Js.truthy d0); [|qlra].
      pose proof (_analyzeTextComplexity_bounds d0). qlra. }
    pose proof (@fold_left_add_at_least _
                  (fun subtask => FractalAlgorithm._analyzeComplexity subtask * 0.5)
                  0.5 subtasks (s1 + len subtasks)) as Hf.
    simpl in Hf.
    assert (Forall
              (fun a => 0.5 <= FractalAlgorithm._analyzeComplexity a * 0.5) subtasks)
      as Hall.
    { apply Forall_forall. intros a _.
      pose proof (_analyzeComplexity_bounds a). qlra. }
    specialize (Hf Hall).
    pose proof (len_ge subtasks Hn) as Hl. change (inject_Z (Z.of_nat 6)) with 6 in Hl.
    destruct deps as [dependencies|].
    + pose proof (len_nonneg dependencies). qlra.
    + qlra.
  - unfold FractalNode.calculateComplexity. rewrite Hsub.
    apply Qmin_left.
    assert (1 <= match Task.description task with
                 | Some d => if Js.truthy d then 1 + Qmin 5 (str_len d / 100) else 1
                 | None => 1
                 end) as Hd.
    { destruct (Task.description task) as [d|]; [|qlra].
      destruct (Js.truthy d); [|qlra].
      pose proof (str_len_nonneg d) as Hl.
      assert (0 <= Qmin 5 (str_len d / 100))
        by (apply clamp_5_bounds, Qdiv_nonneg; [exact Hl | qlra]).
      qlra. }
    pose proof (len_ge subtasks Hn) as Hl. change (inject_Z (Z.of_nat 9)) with 9 in Hl.
    qlra.
Qed.

Lemma many_subtasks_saturate_the_score_witness :
  FractalAlgorithm._analyzeComplexity nine_subtasks = 10
  /\ FractalNode.calculateComplexity nine_subtasks = 10.
Proof.
  split.
  - apply (proj1 (@many_subtasks_saturate_the_score nine_subtasks _ eq_refl)).
    simpl. lia.
  - apply (proj2 (@many_subtasks_saturate_the_score nine_subtasks _ eq_refl)).
    simpl. lia.
Defined.

(** ** Layout once more *)

(** X9.  Laying out twice is laying out once: [updateLayout] after
    [updateLayout] changes nothing, and the tree [createFractalTree]
    returns is left as it is by another [updateLayout] of its root. *)
Theorem updateLayout_is_idempotent :
  (forall node : FractalNode.t,
      FractalNode.updateLayout (FractalNode.updateLayout node)
      = FractalNode.updateLayout node)
  /\ (forall (this : FractalAlgorithm.t) (task : Task.t),
         FractalNode.updateLayout (fst (FractalAlgorithm.createFractalTree this task))
         = fst (FractalAlgorithm.createFractalTree this task)).
Proof.
  split.
  - intros node. rewrite !updateLayout_place.
    destruct (place_fields (FractalNode.position node) node) as (_ & _ & Hp & _).
    rewrite Hp. apply place_place.
  - intros this task. rewrite createFractalTree_closed_form, updateLayout_place.
    destruct (place_fields anchor (skeleton this task 0)) as (_ & _ & Hp & _).
    rewrite Hp. apply place_place.
Qed.

(** ** Siblings *)






(** ** Strings *)

Lemma every_span (p : ascii -> bool) (s : string) :
  every p (fst (Js.span p s)) = true.
Proof.
  induction s as [|c s IH]; simpl; [reflexivity|].
  destruct (p c) eqn:E; [|reflexivity].
  destruct (Js.span p s) as [a b]. simpl in *. now rewrite E, IH.
Qed.

Lemma every_dropWhile (p q : ascii -> bool) (s : string) :
  every p s = true -> every p (Js.dropWhile q s) = true.
Proof.
  induction s as [|c s IH]; simpl; [reflexivity|].
  intros H. apply andb_true_iff in H. destruct H as [Hc Hs].
  destruct (q c); [now apply IH|]. simpl. now rewrite Hc, Hs.
Qed.

Lemma every_rev_onto (p : ascii -> bool) (s acc : string) :
  every p s = true -> every p acc = true -> every p (Js.rev_onto s acc) = true.
Proof.
  revert acc. induction s as [|c s IH]; simpl; intros acc Hs Ha; [exact Ha|].
  apply andb_true_iff in Hs. destruct Hs as [Hc Hs].
  apply IH; [exact Hs|]. simpl. now rewrite Hc, Ha.
Qed.

Lemma every_trim (p : ascii -> bool) (s : string) :
  every p s = true -> every p (Js.trim s) = true.
Proof.
  intros H. unfold Js.trim, Js.rev.
  apply every_rev_onto; [|reflexivity].
  apply every_dropWhile. apply every_rev_onto; [|reflexivity].
  now apply every_dropWhile.
Qed.

Lemma first_char_dropWhile (p : ascii -> bool) (s : string) (c : ascii) :
  first_char (Js.dropWhile p s) = Some c -> p c = false.
Proof.
  induction s as [|c' s IH]; simpl; [discriminate|].
  destruct (p c') eqn:E; [exact IH|]. simpl. intros [= <-]. exact E.
Qed.

(** The last character of [rev_onto s acc] is that of [acc], or the first
    of [s] when [acc] is empty. *)
Lemma last_char_rev_onto (s acc : string) :
  Js.last_char (Js.rev_onto s acc)
  = match Js.last_char acc with
    | Some c => Some c
    | None => first_char s
    end.
Proof.
  revert acc. induction s as [|c s IH]; intros acc; simpl.
  - destruct (Js.last_char acc); reflexivity.
  - rewrite IH. simpl. destruct acc as [|a acc]; [reflexivity|].
    destruct (Js.last_char (String a acc)) eqn:E; [reflexivity|].
    exfalso. clear - E. revert a E.
    induction acc as [|b acc IHacc]; intros a E; [discriminate|].
    apply (IHacc b). exact E.
Qed.

(** The first character of [rev_onto s acc] is the last of [s], or the
    first of [acc] when [s] is empty. *)
Lemma first_char_rev_onto (s acc : string) :
  first_char (Js.rev_onto s acc)
  = match Js.last_char s with
    | Some c => Some c
    | None => first_char acc
    end.
Proof.
  revert acc. induction s as [|c s IH]; intros acc; simpl; [reflexivity|].
  rewrite IH. destruct s as [|c' s]; [reflexivity|].
  destruct (Js.last_char (String c' s)) eqn:E; [reflexivity|].
  exfalso. clear - E. revert c' E.
  induction s as [|b s IHs]; intros c' E; [discriminate|].
  apply (IHs b). exact E.
Qed.

(** What is left of a string after [dropWhile] ends as the string did. *)
Lemma last_char_dropWhile (p : ascii -> bool) (s : string) (c : ascii) :
  Js.last_char (Js.dropWhile p s) = Some c -> Js.last_char s = Some c.
Proof.
  induction s as [|c' s IH]; simpl; [discriminate|].
  destruct (p c').
  - intros H. specialize (IH H). destruct s; [discriminate | exact IH].
  - intros H. exact H.
Qed.

Lemma trim_trimmed (s : string) : trimmed (Js.trim s).
Proof.
  unfold trimmed, Js.trim, Js.rev. split; intros c H.
  - rewrite first_char_rev_onto in H.
    destruct (Js.last_char
                (Js.dropWhile Js.is_space
                   (Js.rev_onto (Js.dropWhile Js.is_space s) ""))) as [c'|] eqn:E;
      [|discriminate].
    injection H as <-.
    apply last_char_dropWhile in E.
    rewrite last_char_rev_onto in E. simpl in E.
    now apply first_char_dropWhile in E.
  - rewrite last_char_rev_onto in H. simpl in H.
    now apply first_char_dropWhile in H.
Qed.

(** ** Features *)

Lemma every_single_space (more : string) (c : ascii) :
  every Js.is_space more = true ->
  Js.last_char more = Some c ->
  negb (Js.is_stop c) = true.
Proof.
  induction more as [|a more IH]; simpl; [discriminate|].
  intros H. apply andb_true_iff in H. destruct H as [Ha Hm].
  destruct more as [|b more].
  - intros [= <-]. clear - Ha.
    unfold Js.is_space, Js.is_stop, Js.is_terminator, Js.between in *.
    destruct (Nat.eqb_spec (Js.code a) 44), (Nat.eqb_spec (Js.code a) 46),
      (Nat.eqb_spec (Js.code a) 33), (Nat.eqb_spec (Js.code a) 63);
      try reflexivity; exfalso;
      repeat match goal with H : Js.code a = _ |- _ => rewrite H in Ha end;
      discriminate.
  - intros H. now apply IH.
Qed.

Lemma match_phrase_clean (rest phrase : string) :
  FractalAlgorithm.match_phrase rest = Some phrase ->
  every (fun c => negb (Js.is_stop c)) phrase = true.
Proof.
  unfold FractalAlgorithm.match_phrase.
  pose proof (every_span Js.is_space rest) as Hsp.
  destruct (Js.span Js.is_space rest) as [spaces after]. simpl in Hsp.
  pose proof (every_span (fun c => negb (Js.is_stop c)) after) as Hph.
  destruct (Js.span (fun c => negb (Js.is_stop c)) after) as [ph rest']. simpl in Hph.
  destruct spaces as [|s0 more]; [discriminate|].
  destruct (Js.truthy ph).
  - intros [= <-]. exact Hph.
  - destruct (Js.last_char more) as [c|] eqn:E; [|discriminate].
    intros [= <-]. simpl. rewrite andb_true_r.
    simpl in Hsp. apply andb_true_iff in Hsp. destruct Hsp as [_ Hmore].
    exact (every_single_space more Hmore E).
Qed.

Lemma match_feature_clean (s : string) :
  forall (prev_word : bool) (phrase : string),
    FractalAlgorithm.match_feature prev_word s = Some phrase ->
    every (fun c => negb (Js.is_stop c)) phrase = true.
Proof.
  induction s as [|c s IH]; intros prev_word phrase; simpl; [discriminate|].
  destruct prev_word.
  - apply IH.
  - destruct (FractalAlgorithm.match_feature_here (String c s)) as [ph|] eqn:E.
    + intros [= <-]. unfold FractalAlgorithm.match_feature_here in E.
      destruct (find (Js.starts_with_ci (String c s)) FractalAlgorithm.feature_verbs);
        [|discriminate].
      exact (match_phrase_clean _ E).
    + apply IH.
Qed.

(** X11.  No title [_extractFeatures] returns holds a comma, a full stop,
    an exclamation mark or a question mark, and none begins or ends with
    white space.  (A title may be empty: see [features_of_a_description].) *)
Theorem features_are_trimmed_and_free_of_stops (description feature : string) :
  In feature (FractalAlgorithm._extractFeatures description) ->
  every (fun c => negb (Js.is_stop c)) feature = true
  /\ trimmed feature.
Proof.
  unfold FractalAlgorithm._extractFeatures.
  set (features :=
         flat_map
           (fun sentence =>
              match FractalAlgorithm.match_feature false sentence with
              | Some phrase => [Js.trim phrase]
              | None => []
              end)
           (Js.split Js.is_terminator description)).
  destruct (0 <? List.length features)%nat.
  - intros Hin. subst features. apply in_flat_map in Hin.
    destruct Hin as [sentence [_ Hin]].
    destruct (FractalAlgorithm.match_feature false sentence) as [phrase|] eqn:E;
      [|destruct Hin].
    destruct Hin as [<-|[]]. split.
    + apply every_trim. exact (match_feature_clean _ _ E).
    + apply trim_trimmed.
  - intros [<-|[]]. split; [reflexivity|].
    split; intros c [= <-]; reflexivity.
Qed.

Lemma features_are_trimmed_and_free_of_stops_witness :
  every (fun c => negb (Js.is_stop c)) "CSV download" = true
  /\ trimmed "CSV download".
Proof.
  apply (@features_are_trimmed_and_free_of_stops
           "Implement the export feature. Add   CSV download , later"
           "CSV download").
  vm_compute. right. left. reflexivity.
Defined.

(** ** Stubs *)

Lemma mapM_Forall (A B : Type) (P : B -> Prop) (f : A -> M B) (xs : list A) :
  (forall a w, P (fst (f a w))) ->
  forall w, Forall P (fst (mapM f xs w)).
Proof.
  intros Hf. induction xs as [|a xs IH]; intros w.
  - constructor.
  - rewrite mapM_cons. simpl. constructor; [apply Hf | apply IH].
Qed.

Lemma mapM_length (A B : Type) (f : A -> M B) (xs : list A) (w : World) :
  List.length (fst (mapM f xs w)) = List.length xs.
Proof.
  revert w. induction xs as [|a xs IH]; intros w; [reflexivity|].
  rewrite mapM_cons. simpl. now rewrite IH.
Qed.

(** X12.  Whatever the branch, [suggestDecomposition] returns at least
    one stub, and every stub is "Not Started", names the task as its
    parent and is described as part of it. *)
Theorem stubs_belong_to_their_parent (task : Task.t) (w : World) :
  let stubs := fst (FractalAlgorithm.suggestDecomposition task w) in
  stubs <> []
  /\ Forall
       (fun s =>
          Stub.status s = "Not Started"
          /\ Stub.parentId s = Task.id task
          /\ Stub.description s = "Part of: " ++ Task.title task)
       stubs.
Proof.
  intros stubs. subst stubs.
  assert (forall title factor w0,
             let s := fst (FractalAlgorithm._createSubtask task title factor w0) in
             Stub.status s = "Not Started"
             /\ Stub.parentId s = Task.id task
             /\ Stub.description s = "Part of: " ++ Task.title task) as Hone.
  { intros title factor w0. repeat split. }
  unfold FractalAlgorithm.suggestDecomposition.
  destruct (FractalAlgorithm.has_pattern _ "core-components").
  - rewrite !bind_unfold. unfold ret. cbn [fst].
    split; [discriminate|].
    repeat (constructor; [apply Hone|]). constructor.
  - destruct (FractalAlgorithm.has_pattern _ "feature-breakdown").
    + split.
      * intros E. apply (f_equal (@List.length _)) in E.
        rewrite mapM_length in E.
        pose proof (_extractFeatures_nonempty
                      match Task.description task with Some d => d | None => "" end).
        simpl in E. lia.
      * apply mapM_Forall. intros a w0. apply Hone.
    + split.
      * intros E. apply (f_equal (@List.length _)) in E.
        rewrite mapM_length, length_seq in E. simpl in E. lia.
      * apply mapM_Forall. intros a w0. apply Hone.
Qed.

(* ================================================================== *)
(** * The task manager *)
(* ================================================================== *)

(** A property of the map of a given state, entry by entry: the map is
    computed and every entry is looked at. *)
Ltac given_map :=
  match goal with
  | |- context [TaskManager.tasks (TaskManager.this ?st)] =>
      let map := eval vm_compute in (TaskManager.tasks (TaskManager.this st)) in
      change (TaskManager.tasks (TaskManager.this st)) with map
  end;
  first
    [ split;
      [repeat (constructor; [simpl; intuition discriminate|]); constructor|]
    | idtac ];
  intros k task Hin; simpl in Hin;
  repeat (destruct Hin as [Hin|Hin];
          [ injection Hin as <- <-;
            first [ reflexivity
                  | simpl; lia
                  | intros _; reflexivity
                  | intros H; discriminate H ]
          | ]);
  destruct Hin.

(** ** Maps *)

Lemma key_eqb_spec (a b : Map.key) : reflect (a = b) (Map.key_eqb a b).
Proof.
  destruct a as [s|], b as [s'|]; simpl; try (constructor; congruence).
  destruct (String.eqb_spec s s'); constructor; congruence.
Qed.

Lemma key_eqb_refl (a : Map.key) : Map.key_eqb a a = true.
Proof.
  destruct (key_eqb_spec a a); congruence.
Qed.

Lemma get_set_same (V : Type) (k : Map.key) (v : V) (map : Map.t V) :
  Map.get k (Map.set k v map) = Some v.
Proof.
  induction map as [|[k' v'] map IH]; simpl.
  - now rewrite key_eqb_refl.
  - destruct (Map.key_eqb k' k) eqn:E; simpl.
    + now rewrite key_eqb_refl.
    + now rewrite E.
Qed.

Lemma get_set_other (V : Type) (k k0 : Map.key) (v : V) (map : Map.t V) :
  k0 <> k -> Map.get k0 (Map.set k v map) = Map.get k0 map.
Proof.
  intros Hne. induction map as [|[k' v'] map IH]; simpl.
  - destruct (key_eqb_spec k k0); [congruence | reflexivity].
  - destruct (key_eqb_spec k' k) as [->|Hk]; simpl.
    + destruct (key_eqb_spec k k0); [congruence | reflexivity].
    + destruct (key_eqb_spec k' k0); [reflexivity | exact IH].
Qed.

(** [set] keeps the keys in place and adds a new key at the end. *)
Lemma keys_set (V : Type) (k : Map.key) (v : V) (map : Map.t V) :
  List.map fst (Map.set k v map)
  = if Map.has k map then List.map fst map else (List.map fst map ++ [k])%list.
Proof.
  unfold Map.has. induction map as [|[k' v'] map IH]; simpl; [reflexivity|].
  destruct (key_eqb_spec k' k) as [->|Hk]; simpl; [reflexivity|].
  rewrite IH. destruct (Map.get k map); reflexivity.
Qed.

Lemma get_In (V : Type) (k : Map.key) (v : V) (map : Map.t V) :
  Map.get k map = Some v -> In (k, v) map.
Proof.
  induction map as [|[k' v'] map IH]; simpl; [discriminate|].
  destruct (key_eqb_spec k' k) as [->|Hk].
  - intros [= ->]. now left.
  - intros H. right. now apply IH.
Qed.

Lemma get_None_keys (V : Type) (k : Map.key) (map : Map.t V) :
  Map.get k map = None <-> ~ In k (List.map fst map).
Proof.
  induction map as [|[k' v'] map IH]; simpl; [tauto|].
  destruct (key_eqb_spec k' k) as [->|Hk].
  - split; [discriminate | intros H; exfalso; apply H; now left].
  - rewrite IH. tauto.
Qed.

Lemma has_keys (V : Type) (k : Map.key) (map : Map.t V) :
  Map.has k map = true <-> In k (List.map fst map).
Proof.
  unfold Map.has. destruct (Map.get k map) eqn:E.
  - split; [|reflexivity]. intros _. apply get_In in E.
    apply in_map_iff. now exists (k, v).
  - apply get_None_keys in E. split; [discriminate | contradiction].
Qed.

Lemma NoDup_set (V : Type) (k : Map.key) (v : V) (map : Map.t V) :
  NoDup (List.map fst map) -> NoDup (List.map fst (Map.set k v map)).
Proof.
  intros H. rewrite keys_set. destruct (Map.has k map) eqn:E; [exact H|].
  apply NoDup_app; [exact H | repeat constructor; intros [] |].
  intros a Ha [<-|[]].
  apply has_keys in Ha. congruence.
Qed.

Lemma In_set (V : Type) (k k0 : Map.key) (v v0 : V) (map : Map.t V) :
  In (k0, v0) (Map.set k v map) -> (k0, v0) = (k, v) \/ In (k0, v0) map.
Proof.
  induction map as [|[k' v'] map IH]; simpl.
  - intros [E|[]]. now left.
  - destruct (Map.key_eqb k' k); simpl.
    + intros [E|H]; [now left | right; now right].
    + intros [E|H]; [right; now left|].
      destruct (IH H) as [E|H']; [now left | right; now right].
Qed.

Lemma well_keyed_nil : well_keyed [].
Proof.
  split; [constructor | intros k task []].
Qed.

Lemma well_keyed_set (task : TaskData.t) (map : Map.t TaskData.t) :
  well_keyed map -> well_keyed (Map.set (TaskData.id task) task map).
Proof.
  intros [Hnd Hid]. split; [now apply NoDup_set|].
  intros k t Hin. apply In_set in Hin. destruct Hin as [E|Hin].
  - now injection E as -> ->.
  - now apply Hid.
Qed.

(** ** Running the methods *)

Lemma forEach_call (tasks : list TaskData.t) (ls : list TaskManager.listener)
    (st : TaskManager.State) :
  TaskManager.forEach (fun l => TaskManager.call l tasks) ls st
  = (Return tt,
     {| TaskManager.this := TaskManager.this st;
        TaskManager.localStorage := TaskManager.localStorage st;
        TaskManager.world := TaskManager.world st;
        TaskManager.calls :=
          (TaskManager.calls st ++ List.map (fun l => (l, tasks)) ls)%list |}).
Proof.
  revert st. induction ls as [|l ls IH]; intros st; simpl.
  - rewrite app_nil_r. destruct st; reflexivity.
  - unfold TaskManager.bind, TaskManager.call at 1. rewrite IH. simpl.
    now rewrite <- app_assoc.
Qed.

Lemma saveTasks_run (st : TaskManager.State) :
  full (TaskManager.localStorage st) = false ->
  TaskManager.saveTasks st = (Return tt, saved st).
Proof.
  intros Hfull.
  unfold TaskManager.saveTasks, TaskManager.try_catch, TaskManager.bind,
    TaskManager.self, TaskManager.localStorage_setItem, TaskManager.notifyListeners,
    TaskManager.getAllTasks, TaskManager.bind, TaskManager.self, TaskManager.ret.
  rewrite Hfull. simpl. rewrite forEach_call. simpl. unfold saved.
  rewrite Hfull. reflexivity.
Qed.

Lemma saveTasks_full (st : TaskManager.State) :
  full (TaskManager.localStorage st) = true ->
  TaskManager.saveTasks st = (Throw QuotaExceededError, st).
Proof.
  intros Hfull.
  unfold TaskManager.saveTasks, TaskManager.try_catch, TaskManager.bind,
    TaskManager.self, TaskManager.localStorage_setItem.
  rewrite Hfull. reflexivity.
Qed.

Lemma addTask_valid (task : TaskData.t) (st : TaskManager.State) :
  TaskManager.validateTask (TaskManager.this st) task = true ->
  let now := fst (Date_now (TaskManager.world st)) in
  let st1 :=
    with_tasks (tick st)
      (Map.set (TaskData.id task) (stored_copy task now)
         (TaskManager.tasks (TaskManager.this st))) in
  TaskManager.addTask task st
  = if full (TaskManager.localStorage st)
    then (Throw QuotaExceededError, st1)
    else (Return task, saved st1).
Proof.
  intros Hvalid now st1.
  unfold TaskManager.addTask, TaskManager.try_catch.
  unfold TaskManager.bind at 1. unfold TaskManager.self at 1.
  rewrite Hvalid. simpl negb. cbv iota.
  unfold TaskManager.bind at 1. unfold TaskManager.new_Date_toISOString.
  simpl.
  unfold TaskManager.bind at 1.
  unfold TaskManager.tasks_set, TaskManager.bind at 1, TaskManager.self,
    TaskManager.set_tasks.
  simpl.
  change {| TaskManager.this :=
             {| TaskManager.storageKey := TaskManager.storageKey (TaskManager.this st);
                TaskManager.tasks :=
                  Map.set (TaskData.id task)
                    {| TaskData.id := TaskData.id task;
                       TaskData.title := TaskData.title task;
                       TaskData.description := TaskData.description task;
                       TaskData.status := TaskData.status task;
                       TaskData.parentId := TaskData.parentId task;
                       TaskData.created :=
                         Some
                           (Date_toISOString
                              (clock (TaskManager.world st)
                                 (clock_reads (TaskManager.world st))));
                       TaskData.position :=
                         Some
                           match TaskData.position task with
                           | Some p => p
                           | None => {| x := 0; y := 0; z := -1 |}
                           end
                    |} (TaskManager.tasks (TaskManager.this st));
                TaskManager.listeners := TaskManager.listeners (TaskManager.this st);
                TaskManager.defaultTasks :=
                  TaskManager.defaultTasks (TaskManager.this st)
             |};
           TaskManager.localStorage := TaskManager.localStorage st;
           TaskManager.world :=
             {| clock := clock (TaskManager.world st);
                entropy := entropy (TaskManager.world st);
                clock_reads := S (clock_reads (TaskManager.world st));
                entropy_reads := entropy_reads (TaskManager.world st) |};
           TaskManager.calls := TaskManager.calls st |} with st1.
  unfold TaskManager.bind.
  destruct (full (TaskManager.localStorage st)) eqn:Hfull.
  - rewrite saveTasks_full by exact Hfull. reflexivity.
  - rewrite saveTasks_run by exact Hfull. reflexivity.
Qed.

(** ** [delete] *)

Lemma filter_other_keys (V : Type) (k : Map.key) (map : Map.t V) :
  ~ In k (List.map fst map) ->
  filter (fun e => negb (Map.key_eqb (fst e) k)) map = map.
Proof.
  induction map as [|[k' v'] map IH]; simpl; [reflexivity|].
  intros Hnotin. destruct (key_eqb_spec k' k) as [->|Hk]; simpl.
  - exfalso. apply Hnotin. now left.
  - f_equal. apply IH. intros H. apply Hnotin. now right.
Qed.

Lemma delete_filter (V : Type) (k : Map.key) (map : Map.t V) :
  NoDup (List.map fst map) ->
  Map.delete k map = filter (fun e => negb (Map.key_eqb (fst e) k)) map.
Proof.
  induction map as [|[k' v'] map IH]; simpl; [reflexivity|].
  intros Hnd. inversion Hnd as [|? ? Hnotin Hnd']; subst.
  destruct (key_eqb_spec k' k) as [->|Hk]; simpl.
  - now rewrite filter_other_keys.
  - f_equal. now apply IH.
Qed.

Lemma In_delete_other (V : Type) (k k0 : Map.key) (v : V) (map : Map.t V) :
  In (k, v) map -> k <> k0 -> In (k, v) (Map.delete k0 map).
Proof.
  intros Hin Hne. induction map as [|[k' v'] map IH]; simpl in *; [contradiction|].
  destruct (key_eqb_spec k' k0) as [->|Hk].
  - destruct Hin as [E|Hin]; [congruence | exact Hin].
  - destruct Hin as [E|Hin]; [now left | right; now apply IH].
Qed.

Lemma NoDup_keys_filter (V : Type) (keep : Map.key * V -> bool) (map : Map.t V) :
  NoDup (List.map fst map) -> NoDup (List.map fst (filter keep map)).
Proof.
  induction map as [|e map IH]; simpl; [constructor|].
  intros Hnd. inversion Hnd as [|? ? Hnotin Hnd']; subst.
  destruct (keep e); simpl; [|now apply IH].
  constructor; [|now apply IH].
  intros Hin. apply Hnotin. apply in_map_iff in Hin.
  destruct Hin as [e' [E Hin]]. apply filter_In in Hin.
  apply in_map_iff. exists e'. tauto.
Qed.

Lemma well_keyed_filter (keep : Map.key * TaskData.t -> bool)
    (map : Map.t TaskData.t) :
  well_keyed map -> well_keyed (filter keep map).
Proof.
  intros [Hnd Hid]. split; [now apply NoDup_keys_filter|].
  intros k task Hin. apply filter_In in Hin. now apply Hid.
Qed.

Lemma ranked_filter (rank : Map.key -> nat) (bound : nat)
    (keep : Map.key * TaskData.t -> bool) (map : Map.t TaskData.t) :
  ranked rank bound map -> ranked rank bound (filter keep map).
Proof.
  intros H k task Hin. apply filter_In in Hin. now apply H.
Qed.

Lemma filter_filter (A : Type) (f g : A -> bool) (xs : list A) :
  filter g (filter f xs) = filter (fun a => f a && g a) xs.
Proof.
  induction xs as [|a xs IH]; simpl; [reflexivity|].
  destruct (f a); simpl; [|exact IH].
  destruct (g a); simpl; now rewrite IH.
Qed.

(** ** The subtree of a key *)

Lemma under_trans (map : Map.t TaskData.t) (a b k : Map.key) :
  under map a b -> under map b k -> under map a k.
Proof.
  intros Hab Hbk. induction Hbk as [|k task Hin _ IH]; [exact Hab|].
  now apply under_child with task.
Qed.

Lemma under_incl (map map' : Map.t TaskData.t) (a k : Map.key) :
  incl map map' -> under map a k -> under map' a k.
Proof.
  intros Hincl H. induction H as [|k task Hin _ IH]; [constructor|].
  apply under_child with task; [now apply Hincl | exact IH].
Qed.

(** Deleting what is under other keys does not change what is under [a],
    as far as it is kept. *)
Lemma under_filter (map : Map.t TaskData.t) (keep : Map.key * TaskData.t -> bool)
    (deleted : Map.key -> Prop) (a k : Map.key) :
  (forall e, In e map -> (keep e = true <-> ~ deleted (fst e))) ->
  (forall k task, In (k, task) map -> deleted (TaskData.parentId task) -> deleted k) ->
  ~ deleted k ->
  under map a k -> under (filter keep map) a k.
Proof.
  intros Hkeep Hclosed Hk H.
  induction H as [|k task Hin _ IH]; [constructor|].
  apply under_child with task.
  - apply filter_In. split; [exact Hin|]. now apply Hkeep.
  - apply IH. intros Hd. apply Hk. now apply Hclosed with task.
Qed.

(** The children of [taskId]: the tasks the loop goes through. *)
Lemma children_In (map : Map.t TaskData.t) (taskId : Map.key) (child : TaskData.t) :
  In child
    (filter (fun task => Map.key_eqb (TaskData.parentId task) taskId)
       (Map.values map))
  <-> (exists k, In (k, child) map) /\ TaskData.parentId child = taskId.
Proof.
  rewrite filter_In. unfold Map.values. rewrite in_map_iff. split.
  - intros [[[k c] [E Hin]] Hp]. simpl in E. subst c.
    split; [now exists k|]. now destruct (key_eqb_spec (TaskData.parentId child) taskId).
  - intros [[k Hin] Hp]. split; [now exists (k, child)|].
    rewrite Hp. apply key_eqb_refl.
Qed.

Lemma under_children (map : Map.t TaskData.t) (taskId k : Map.key) :
  well_keyed map ->
  under map taskId k
  <-> k = taskId
      \/ exists child,
           In child
             (filter (fun task => Map.key_eqb (TaskData.parentId task) taskId)
                (Map.values map))
           /\ under map (TaskData.id child) k.
Proof.
  intros [_ Hid]. split.
  - intros H. induction H as [|k task Hin _ IH]; [now left|]. right.
    destruct IH as [E|[child [Hc Hu]]].
    + exists task. split.
      * apply children_In. split; [now exists k | exact E].
      * rewrite (Hid k task Hin). constructor.
    + exists child. split; [exact Hc|]. now apply under_child with task.
  - intros [->|[child [Hc Hu]]]; [constructor|].
    apply children_In in Hc. destruct Hc as [[kc Hin] Hp].
    apply under_trans with (TaskData.id child); [|exact Hu].
    rewrite (Hid kc child Hin). apply under_child with child; [exact Hin|].
    rewrite Hp. constructor.
Qed.

(** ** [deleteTaskAndChildren] on a map without cycles *)

Section Delete.

Variable rank : Map.key -> nat.
Variable bound : nat.

Lemma delete_loop (fuel : nat) (map : Map.t TaskData.t) :
  deletes_subtree rank bound fuel ->
  well_keyed map ->
  ranked rank bound map ->
  forall (children : list TaskData.t) (keep0 : Map.key * TaskData.t -> bool)
         (deleted : Map.key -> Prop),
    (forall c, In c children -> (bound - rank (TaskData.id c) < fuel)%nat) ->
    (forall e, In e map -> (keep0 e = true <-> ~ deleted (fst e))) ->
    (forall k task,
        In (k, task) map -> deleted (TaskData.parentId task) -> deleted k) ->
    exists keep : Map.key * TaskData.t -> bool,
      fold_left (delete_child fuel) children (Some (filter keep0 map))
      = Some (filter keep map)
      /\ forall e,
           In e map ->
           (keep e = true
            <-> ~ (deleted (fst e)
                   \/ exists c, In c children /\ under map (TaskData.id c) (fst e))).
Proof.
  intros IH Hwk Hrk.
  induction children as [|c children IHc]; intros keep0 deleted Hfuel Hkeep Hclosed.
  - exists keep0. split; [reflexivity|].
    intros e Hin. rewrite (Hkeep e Hin). split.
    + intros H [Hd|[c [[] _]]]. now apply H.
    + intros H Hd. apply H. now left.
  - simpl.
    destruct (IH (TaskData.id c) (filter keep0 map))
      as (keepc & Hrun & Hkeepc).
    + now apply well_keyed_filter.
    + now apply ranked_filter.
    + apply Hfuel. now left.
    + rewrite Hrun, filter_filter.
      destruct (IHc (fun e => keep0 e && keepc e)
                  (fun k => deleted k \/ under map (TaskData.id c) k))
        as (keep & Hfold & Hspec).
      * intros c' Hc'. apply Hfuel. now right.
      * intros e Hin. rewrite andb_true_iff, (Hkeep e Hin). split.
        -- intros [Hd Hk] [Hd'|Hu]; [now apply Hd|].
           assert (In e (filter keep0 map)) as Hin'.
           { apply filter_In. split; [exact Hin|]. now apply Hkeep. }
           apply (Hkeepc e Hin') in Hk. apply Hk.
           now apply under_filter with deleted.
        -- intros H. split; [intros Hd; apply H; now left|].
           assert (In e (filter keep0 map)) as Hin'.
           { apply filter_In. split; [exact Hin|]. apply Hkeep; [exact Hin|].
             intros Hd. apply H. now left. }
           apply (Hkeepc e Hin'). intros Hu. apply H. right.
           apply under_incl with (filter keep0 map); [|exact Hu].
           intros e' He'. apply filter_In in He'. tauto.
      * intros k task Hin [Hd|Hu].
        -- left. now apply Hclosed with task.
        -- right. now apply under_child with task.
      * exists keep. split; [exact Hfold|].
        intros e Hin. rewrite (Hspec e Hin). split.
        -- intros H [Hd|[c' [[<-|Hc'] Hu]]]; apply H.
           ++ left. now left.
           ++ left. now right.
           ++ right. now exists c'.
        -- intros H [[Hd|Hu]|[c' [Hc' Hu]]]; apply H.
           ++ now left.
           ++ right. exists c. split; [now left | exact Hu].
           ++ right. exists c'. split; [now right | exact Hu].
Qed.

Lemma deleteTaskAndChildren_deletes_subtree (fuel : nat) : deletes_subtree rank bound fuel.
Proof.
  induction fuel as [|fuel IH]; intros taskId map Hwk Hrk Hfuel; [lia|].
  set (children :=
         filter (fun task => Map.key_eqb (TaskData.parentId task) taskId)
           (Map.values map)).
  destruct (@delete_loop fuel map IH Hwk Hrk children (fun _ => true)
              (fun _ => False)) as (keep & Hfold & Hspec).
  - intros c Hc. apply children_In in Hc. destruct Hc as [[k Hin] Hp].
    destruct Hwk as [_ Hid]. rewrite (Hid k c Hin).
    pose proof (Hrk k c Hin) as Hr. rewrite Hp in Hr. lia.
  - intros e _. split; [intros _ [] | reflexivity].
  - intros k task _ [].
  - assert (filter (fun _ : Map.key * TaskData.t => true) map = map) as Hall.
    { clear. induction map as [|e map IHm]; simpl; [reflexivity | now rewrite IHm]. }
    rewrite Hall in Hfold.
    exists (fun e => keep e && negb (Map.key_eqb (fst e) taskId)). split.
    + let lhs := match type of Hfold with ?l = _ => l end in
      change (TaskManager.deleteTaskAndChildren (S fuel) taskId map)
        with (match lhs with
              | Some tasks => Some (Map.delete taskId tasks)
              | None => None
              end).
      rewrite Hfold, delete_filter, filter_filter; [reflexivity|].
      apply NoDup_keys_filter. apply Hwk.
    + intros e Hin. rewrite andb_true_iff, (Hspec e Hin), (under_children _ _ Hwk).
      fold children. destruct (key_eqb_spec (fst e) taskId) as [E|Hne]; simpl.
      * split; [intros [_ H]; discriminate | intros H; exfalso; apply H; now left].
      * split.
        -- intros [H _] [E|Hc]; [contradiction|]. apply H. now right.
        -- intros H. split; [|reflexivity].
           intros [[]|Hc]. apply H. now right.
Qed.

End Delete.

(** ** Cycles *)

Lemma delete_child_None (fuel : nat) (children : list TaskData.t) :
  fold_left (delete_child fuel) children None = None.
Proof.
  induction children as [|c children IH]; simpl; [reflexivity | exact IH].
Qed.

Section Cycle.

Variable cycle : list (Map.key * TaskData.t).

Hypothesis cycle_closed :
  forall k task,
    In (k, task) cycle ->
    TaskData.id task = k
    /\ exists k' task', In (k', task') cycle /\ TaskData.parentId task' = k.

(** A call that returns was not for a key of the cycle and has left the
    cycle in the map. *)
Lemma deleteTaskAndChildren_keeps_cycle (fuel : nat) :
  forall (taskId : Map.key) (map map' : Map.t TaskData.t),
    incl cycle map ->
    TaskManager.deleteTaskAndChildren fuel taskId map = Some map' ->
    ~ In taskId (List.map fst cycle) /\ incl cycle map'.
Proof.
  induction fuel as [|fuel IH]; intros taskId map map' Hincl Hrun; [discriminate|].
  assert (forall children mi mn,
             incl cycle mi ->
             fold_left (delete_child fuel) children (Some mi) = Some mn ->
             (forall c, In c children -> ~ In (TaskData.id c) (List.map fst cycle))
             /\ incl cycle mn) as Hloop.
  { induction children as [|c children IHc]; intros mi mn Hmi Hfold; simpl in Hfold.
    - injection Hfold as <-. split; [intros c [] | exact Hmi].
    - destruct (TaskManager.deleteTaskAndChildren fuel (TaskData.id c) mi)
        as [mi'|] eqn:E.
      + destruct (IH _ _ _ Hmi E) as [Hc Hmi'].
        destruct (IHc _ _ Hmi' Hfold) as [Hcs Hmn].
        split; [|exact Hmn]. intros c' [<-|Hc']; [exact Hc | now apply Hcs].
      + rewrite delete_child_None in Hfold. discriminate. }
  set (children :=
         filter (fun task => Map.key_eqb (TaskData.parentId task) taskId)
           (Map.values map)).
  change (TaskManager.deleteTaskAndChildren (S fuel) taskId map)
    with (match fold_left (delete_child fuel) children (Some map) with
          | Some tasks => Some (Map.delete taskId tasks)
          | None => None
          end) in Hrun.
  destruct (fold_left (delete_child fuel) children (Some map)) as [mn|] eqn:Hfold;
    [|discriminate].
  injection Hrun as <-.
  destruct (Hloop _ _ _ Hincl Hfold) as [Hcs Hmn].
  assert (~ In taskId (List.map fst cycle)) as Hnot.
  { intros Hin. apply in_map_iff in Hin. destruct Hin as [[k task] [E Hin]].
    simpl in E. subst k.
    destruct (cycle_closed _ _ Hin) as [_ (k' & task' & Hin' & Hp)].
    apply (Hcs task').
    - apply children_In. split; [exists k'; now apply Hincl | exact Hp].
    - destruct (cycle_closed _ _ Hin') as [-> _].
      apply in_map_iff. now exists (k', task'). }
  split; [exact Hnot|].
  intros [k task] Hin. apply In_delete_other; [now apply Hmn|].
  intros ->. apply Hnot. apply in_map_iff. now exists (taskId, task).
Qed.

End Cycle.

Lemma own_property_put (key : string) (value : json_text) (its : list (string * json_text)) :
  own_property (put key value its) key = Some value.
Proof.
  induction its as [|[k v] its IH]; simpl.
  - now rewrite String.eqb_refl.
  - destruct (String.eqb k key) eqn:E; simpl.
    + now rewrite String.eqb_refl.
    + now rewrite E.
Qed.

(** ** [validateTask] *)

Lemma validateTask_spec (this : TaskManager.t) (task : TaskData.t) :
  TaskManager.validateTask this task = true
  <-> TaskData.id task <> None
      /\ TaskData.title task <> None
      /\ (exists status,
             TaskData.status task = Some status
             /\ In status TaskManager.validStatuses)
      /\ (TaskData.truthy (TaskData.parentId task) = true ->
          Map.has (TaskData.parentId task) (TaskManager.tasks this) = true).
Proof.
  unfold TaskManager.validateTask, TaskData.hasOwnProperty.
  destruct task as [i ti d s p cr po]. cbn [forallb TaskData.id TaskData.title
    TaskData.status TaskData.parentId].
  destruct i as [i|]; [|split; [discriminate | intros [H _]; congruence]].
  destruct ti as [ti|]; [|split; [discriminate | intros (_ & H & _); congruence]].
  destruct s as [s|];
    [|split; [discriminate | intros (_ & _ & [s [H _]] & _); discriminate]].
  set (ok := existsb (String.eqb s) TaskManager.validStatuses).
  set (dangling :=
         TaskData.truthy p && negb (Map.has p (TaskManager.tasks this))).
  assert (ok = true <-> In s TaskManager.validStatuses) as Hok.
  { subst ok. rewrite existsb_exists. split.
    - intros [s' [Hin Heq]]. apply String.eqb_eq in Heq. now subst s'.
    - intros Hin. exists s. split; [exact Hin | apply String.eqb_refl]. }
  assert (dangling = false
          <-> (TaskData.truthy p = true ->
               Map.has p (TaskManager.tasks this) = true)) as Hd.
  { subst dangling. destruct (TaskData.truthy p), (Map.has p (TaskManager.tasks this));
      simpl; split; try reflexivity; try discriminate; auto.
    intros H. discriminate (H eq_refl). }
  transitivity (ok = true /\ dangling = false).
  - simpl. fold ok. fold dangling.
    destruct ok, dangling; simpl; split; try tauto; try discriminate;
      intros [? ?]; discriminate.
  - rewrite Hok, Hd. split.
    + intros [Hin Hp]. repeat split; try discriminate; [now exists s | exact Hp].
    + intros (_ & _ & [s' [[= <-] Hin]] & Hp). now split.
Qed.

(** ** [addTask] *)

(** X13.  When [validateTask] accepts the task and the storage takes the
    text, [addTask] returns the task it was given; [getTask] then finds,
    under the [id] of the task, a copy with [created] set to the instant
    of the call and with the [position] of the task or [(0, 0, -1)];
    every other key holds what it held; the storage holds the JSON of all
    tasks; every listener was called once more, with all tasks.  A task
    whose [id] is already a key takes the place of the task under that
    key; otherwise it comes last. *)
Theorem addTask_then_getTask (task : TaskData.t) (st : TaskManager.State) :
  TaskManager.validateTask (TaskManager.this st) task = true ->
  full (TaskManager.localStorage st) = false ->
  let now := fst (Date_now (TaskManager.world st)) in
  let st' := snd (TaskManager.addTask task st) in
  let this' := TaskManager.this st' in
  fst (TaskManager.addTask task st) = Return task
  /\ TaskManager.getTask this' (TaskData.id task) = Some (stored_copy task now)
  /\ (forall k,
         k <> TaskData.id task ->
         TaskManager.getTask this' k = TaskManager.getTask (TaskManager.this st) k)
  /\ own_property (items (TaskManager.localStorage st'))
       (TaskManager.storageKey this')
     = Some (Json (Map.values (TaskManager.tasks this')))
  /\ TaskManager.calls st'
     = (TaskManager.calls st
        ++ notifications this' (Map.values (TaskManager.tasks this')))%list
  /\ List.map fst (TaskManager.tasks this')
     = if Map.has (TaskData.id task) (TaskManager.tasks (TaskManager.this st))
       then List.map fst (TaskManager.tasks (TaskManager.this st))
       else (List.map fst (TaskManager.tasks (TaskManager.this st))
             ++ [TaskData.id task])%list.
Proof.
  intros Hvalid Hfull now st' this'. subst st' this'.
  rewrite (addTask_valid task st Hvalid), Hfull. simpl.
  split; [reflexivity|]. split; [apply get_set_same|].
  split; [intros k Hk; now apply get_set_other|].
  split; [apply own_property_put|]. split; [reflexivity | apply keys_set].
Qed.

Lemma addTask_then_getTask_witness :
  fst (TaskManager.addTask (form_task "1.2" "Not Started" (Some "1")) family)
  = Return (form_task "1.2" "Not Started" (Some "1"))
  /\ TaskManager.getTask
       (TaskManager.this
          (snd (TaskManager.addTask (form_task "1.2" "Not Started" (Some "1"))
                  family)))
       (Some "1.2")
     = Some (stored_copy (form_task "1.2" "Not Started" (Some "1"))
               1745257280423).
Proof.
  assert (TaskManager.validateTask (TaskManager.this family)
            (form_task "1.2" "Not Started" (Some "1")) = true) as Hvalid
    by (vm_compute; reflexivity).
  assert (full (TaskManager.localStorage family) = false) as Hfull
    by (vm_compute; reflexivity).
  pose proof (@addTask_then_getTask (form_task "1.2" "Not Started" (Some "1"))
                family Hvalid Hfull) as H.
  split; [exact (proj1 H)|].
  assert (fst (Date_now (TaskManager.world family)) = 1745257280423%Z) as Hnow
    by (vm_compute; reflexivity).
  rewrite <- Hnow. exact (proj1 (proj2 H)).
Defined.

Lemma addTask_invalid (task : TaskData.t) (st : TaskManager.State) :
  TaskData.id task = None
  \/ TaskData.title task = None
  \/ (forall status,
         TaskData.status task = Some status ->
         ~ In status TaskManager.validStatuses)
  \/ (TaskData.truthy (TaskData.parentId task) = true
      /\ TaskManager.getTask (TaskManager.this st) (TaskData.parentId task) = None) ->
  TaskManager.addTask task st = (Throw (Error "Invalid task data"), st).
Proof.
  intros H.
  assert (TaskManager.validateTask (TaskManager.this st) task = false) as Hinvalid.
  { destruct (TaskManager.validateTask (TaskManager.this st) task) eqn:E;
      [|reflexivity].
    apply validateTask_spec in E.
    destruct E as (Hid & Hti & [s [Hs Hin]] & Hp).
    destruct H as [H|[H|[H|[Ht Hg]]]]; try congruence.
    - exfalso. now apply (H s).
    - specialize (Hp Ht). unfold Map.has, TaskManager.getTask in *.
      rewrite Hg in Hp. discriminate. }
  unfold TaskManager.addTask, TaskManager.try_catch, TaskManager.bind,
    TaskManager.self.
  rewrite Hinvalid. reflexivity.
Qed.

(** X14.  When the storage takes no more, [addTask] throws what
    [setItem] threw, after the task was put in the map: [getTask] finds
    the task, the storage is as it was, and no listener was called.  The
    map and the storage differ from then on. *)
Theorem addTask_on_full_storage_keeps_the_task (task : TaskData.t)
    (st : TaskManager.State) :
  TaskManager.validateTask (TaskManager.this st) task = true ->
  full (TaskManager.localStorage st) = true ->
  let now := fst (Date_now (TaskManager.world st)) in
  let st' := snd (TaskManager.addTask task st) in
  fst (TaskManager.addTask task st) = Throw QuotaExceededError
  /\ TaskManager.getTask (TaskManager.this st') (TaskData.id task)
     = Some (stored_copy task now)
  /\ TaskManager.localStorage st' = TaskManager.localStorage st
  /\ TaskManager.calls st' = TaskManager.calls st.
Proof.
  intros Hvalid Hfull now st'. subst st'.
  rewrite (addTask_valid task st Hvalid), Hfull. simpl.
  split; [reflexivity|]. split; [apply get_set_same|]. split; reflexivity.
Qed.

Lemma addTask_on_full_storage_keeps_the_task_witness :
  fst (TaskManager.addTask (form_task "1" "Not Started" None) fresh_full)
  = Throw QuotaExceededError
  /\ TaskManager.getTask
       (TaskManager.this
          (snd (TaskManager.addTask (form_task "1" "Not Started" None)
                  fresh_full)))
       (Some "1")
     = Some (stored_copy (form_task "1" "Not Started" None) 1745257280419)
  /\ own_property
       (items
          (TaskManager.localStorage
             (snd (TaskManager.addTask (form_task "1" "Not Started" None)
                     fresh_full))))
       "focusar-tasks"
     = None.
Proof.
  pose proof (@addTask_on_full_storage_keeps_the_task
                (form_task "1" "Not Started" None) fresh_full eq_refl eq_refl) as H.
  split; [exact (proj1 H)|]. split; [exact (proj1 (proj2 H))|].
  rewrite (proj1 (proj2 (proj2 H))). reflexivity.
Defined.

Lemma with_tasks_same (st : TaskManager.State) :
  with_tasks st (TaskManager.tasks (TaskManager.this st)) = st.
Proof.
  destruct st as [[key tasks ls defaults] storage w cs]. reflexivity.
Qed.

Lemma forEach_tasks_set (tasks : list TaskData.t) (st : TaskManager.State) :
  TaskManager.forEach
    (fun task => TaskManager.tasks_set (TaskData.id task) task) tasks st
  = (Return tt,
     with_tasks st
       (fold_left (fun map task => Map.set (TaskData.id task) task map) tasks
          (TaskManager.tasks (TaskManager.this st)))).
Proof.
  revert st. induction tasks as [|task tasks IH]; intros st; simpl.
  - now rewrite with_tasks_same.
  - unfold TaskManager.bind at 1.
    unfold TaskManager.tasks_set, TaskManager.bind at 1, TaskManager.self,
      TaskManager.set_tasks.
    rewrite IH. reflexivity.
Qed.

Lemma loadTasks_run (st : TaskManager.State) :
  TaskManager.loadTasks st
  = match own_property (items (TaskManager.localStorage st))
            (TaskManager.storageKey (TaskManager.this st)) with
    | Some (Json tasks) => (Return tasks, with_tasks st (keyed_by_id tasks))
    | Some Malformed => (Return [], st)
    | Some Empty | None => (Return [], with_tasks st [])
    end.
Proof.
  unfold TaskManager.loadTasks, TaskManager.try_catch.
  unfold TaskManager.bind at 1, TaskManager.self at 1.
  unfold TaskManager.bind at 1, TaskManager.localStorage_getItem.
  destruct (own_property (items (TaskManager.localStorage st))
              (TaskManager.storageKey (TaskManager.this st))) as [[tasks| |]|];
    simpl.
  - unfold TaskManager.bind at 1, TaskManager.ret at 1.
    unfold TaskManager.bind at 1, TaskManager.tasks_clear, TaskManager.set_tasks.
    unfold TaskManager.bind. rewrite forEach_tasks_set. reflexivity.
  - reflexivity.
  - reflexivity.
  - reflexivity.
Qed.

Lemma importTasks_run (json : json_text) (st : TaskManager.State) :
  TaskManager.importTasks json st
  = match json with
    | Empty | Malformed => (Throw SyntaxError, st)
    | Json tasks =>
        if forallb (TaskManager.validateTask (TaskManager.this st)) tasks then
          if full (TaskManager.localStorage st)
          then (Throw QuotaExceededError, with_tasks st (keyed_by_id tasks))
          else (Return tt, saved (with_tasks st (keyed_by_id tasks)))
        else (Throw (Error "Invalid task data in import"), st)
    end.
Proof.
  unfold TaskManager.importTasks, TaskManager.try_catch.
  destruct json as [tasks| |]; [|reflexivity|reflexivity].
  unfold TaskManager.bind at 1, TaskManager.JSON_parse, TaskManager.ret at 1.
  unfold TaskManager.bind at 1, TaskManager.self at 1.
  replace (forallb (fun task => TaskManager.validateTask (TaskManager.this st) task)
             tasks)
    with (forallb (TaskManager.validateTask (TaskManager.this st)) tasks)
    by reflexivity.
  destruct (forallb (TaskManager.validateTask (TaskManager.this st)) tasks);
    simpl; [|reflexivity].
  unfold TaskManager.bind at 1, TaskManager.tasks_clear, TaskManager.set_tasks.
  unfold TaskManager.bind. rewrite forEach_tasks_set.
  change (with_tasks _ _) with (with_tasks st (keyed_by_id tasks)).
  destruct (full (TaskManager.localStorage st)) eqn:Hfull.
  - rewrite saveTasks_full by exact Hfull. reflexivity.
  - rewrite saveTasks_run by exact Hfull. reflexivity.
Qed.

Lemma updateTask_run (taskId : Map.key) (updates : TaskData.t)
    (st : TaskManager.State) :
  TaskManager.updateTask taskId updates st
  = match Map.get taskId (TaskManager.tasks (TaskManager.this st)) with
    | None => (Throw (Error "Task not found"), st)
    | Some task =>
        let updatedTask := TaskData.spread task updates in
        if TaskManager.validateTask (TaskManager.this st) updatedTask then
          let st1 :=
            with_tasks st
              (Map.set taskId updatedTask (TaskManager.tasks (TaskManager.this st)))
          in
          if full (TaskManager.localStorage st)
          then (Throw QuotaExceededError, st1)
          else (Return updatedTask, saved st1)
        else (Throw (Error "Invalid task data"), st)
    end.
Proof.
  unfold TaskManager.updateTask, TaskManager.try_catch.
  unfold TaskManager.bind at 1, TaskManager.self at 1.
  destruct (Map.get taskId (TaskManager.tasks (TaskManager.this st))) as [task|];
    [|reflexivity].
  simpl.
  destruct (TaskManager.validateTask (TaskManager.this st)
              (TaskData.spread task updates)); simpl; [|reflexivity].
  unfold TaskManager.bind at 1.
  unfold TaskManager.tasks_set, TaskManager.bind at 1, TaskManager.self,
    TaskManager.set_tasks.
  change {| TaskManager.this := _; TaskManager.localStorage := _;
            TaskManager.world := _; TaskManager.calls := _ |}
    with (with_tasks st
            (Map.set taskId (TaskData.spread task updates)
               (TaskManager.tasks (TaskManager.this st)))).
  unfold TaskManager.bind.
  destruct (full (TaskManager.localStorage st)) eqn:Hfull.
  - rewrite saveTasks_full by exact Hfull. reflexivity.
  - rewrite saveTasks_run by exact Hfull. reflexivity.
Qed.

Lemma clearTasks_run (st : TaskManager.State) :
  TaskManager.clearTasks st
  = if full (TaskManager.localStorage st)
    then (Throw QuotaExceededError, with_tasks st [])
    else (Return tt, saved (with_tasks st [])).
Proof.
  unfold TaskManager.clearTasks, TaskManager.try_catch.
  unfold TaskManager.bind, TaskManager.tasks_clear, TaskManager.set_tasks.
  change {| TaskManager.this := _; TaskManager.localStorage := _;
            TaskManager.world := _; TaskManager.calls := _ |}
    with (with_tasks st []).
  destruct (full (TaskManager.localStorage st)) eqn:Hfull.
  - rewrite saveTasks_full by exact Hfull. reflexivity.
  - rewrite saveTasks_run by exact Hfull. reflexivity.
Qed.

Lemma deleteTask_run (fuel : nat) (taskId : Map.key) (st : TaskManager.State) :
  TaskManager.deleteTask fuel taskId st
  = if Map.has taskId (TaskManager.tasks (TaskManager.this st)) then
      match TaskManager.deleteTaskAndChildren fuel taskId
              (TaskManager.tasks (TaskManager.this st)) with
      | Some tasks =>
          Some (if full (TaskManager.localStorage st)
                then (Throw QuotaExceededError, with_tasks st tasks)
                else (Return tt, saved (with_tasks st tasks)))
      | None => None
      end
    else Some (Throw (Error "Task not found"), st).
Proof.
  unfold TaskManager.deleteTask.
  destruct (Map.has taskId (TaskManager.tasks (TaskManager.this st)));
    [|reflexivity].
  simpl.
  destruct (TaskManager.deleteTaskAndChildren fuel taskId
              (TaskManager.tasks (TaskManager.this st))) as [tasks|]; [|reflexivity].
  f_equal. unfold TaskManager.bind, TaskManager.set_tasks.
  change {| TaskManager.this := _; TaskManager.localStorage := _;
            TaskManager.world := _; TaskManager.calls := _ |}
    with (with_tasks st tasks).
  destruct (full (TaskManager.localStorage st)) eqn:Hfull.
  - rewrite saveTasks_full by exact Hfull. reflexivity.
  - rewrite saveTasks_run by exact Hfull. reflexivity.
Qed.

(** ** Keys and ids *)

Lemma well_keyed_fold_set (tasks : list TaskData.t) (map : Map.t TaskData.t) :
  well_keyed map ->
  well_keyed
    (fold_left (fun map task => Map.set (TaskData.id task) task map) tasks map).
Proof.
  revert map. induction tasks as [|task tasks IH]; intros map H; simpl; [exact H|].
  apply IH. now apply well_keyed_set.
Qed.

Lemma well_keyed_keyed_by_id (tasks : list TaskData.t) :
  well_keyed (keyed_by_id tasks).
Proof.
  apply well_keyed_fold_set, well_keyed_nil.
Qed.

(** What [deleteTaskAndChildren] returns is the map without some of its
    entries. *)
Lemma deleteTaskAndChildren_filter (fuel : nat) :
  forall (taskId : Map.key) (map map' : Map.t TaskData.t),
    well_keyed map ->
    TaskManager.deleteTaskAndChildren fuel taskId map = Some map' ->
    exists keep, map' = filter keep map.
Proof.
  induction fuel as [|fuel IH]; intros taskId map map' Hwk Hrun; [discriminate|].
  assert (forall children keep0 mn,
             fold_left (delete_child fuel) children (Some (filter keep0 map))
             = Some mn ->
             exists keep, mn = filter keep map) as Hloop.
  { induction children as [|c children IHc]; intros keep0 mn Hfold; simpl in Hfold.
    - injection Hfold as <-. now exists keep0.
    - destruct (TaskManager.deleteTaskAndChildren fuel (TaskData.id c)
                  (filter keep0 map)) as [mi|] eqn:E.
      + destruct (IH _ _ _ (well_keyed_filter keep0 Hwk) E) as [keep ->].
        rewrite filter_filter in Hfold. now apply IHc in Hfold.
      + rewrite delete_child_None in Hfold. discriminate. }
  set (children :=
         filter (fun task => Map.key_eqb (TaskData.parentId task) taskId)
           (Map.values map)).
  change (TaskManager.deleteTaskAndChildren (S fuel) taskId map)
    with (match fold_left (delete_child fuel) children (Some map) with
          | Some tasks => Some (Map.delete taskId tasks)
          | None => None
          end) in Hrun.
  destruct (fold_left (delete_child fuel) children (Some map)) as [mn|] eqn:Hfold;
    [|discriminate].
  injection Hrun as <-.
  assert (filter (fun _ : Map.key * TaskData.t => true) map = map) as Hall.
  { clear. induction map as [|e map IHm]; simpl; [reflexivity | now rewrite IHm]. }
  rewrite <- Hall in Hfold at 1.
  destruct (Hloop _ _ _ Hfold) as [keep ->].
  rewrite delete_filter, filter_filter by (apply NoDup_keys_filter, Hwk).
  now eexists.
Qed.

Lemma spread_id (task updates : TaskData.t) (taskId : Map.key) :
  TaskData.id task = taskId ->
  TaskData.id updates = None \/ TaskData.id updates = taskId ->
  TaskData.id (TaskData.spread task updates) = taskId.
Proof.
  intros Ht [Hu|Hu]; simpl; rewrite Hu; simpl.
  - exact Ht.
  - destruct taskId; [reflexivity | exact Ht].
Qed.

Lemma well_keyed_set_key (k : Map.key) (task : TaskData.t) (map : Map.t TaskData.t) :
  TaskData.id task = k -> well_keyed map -> well_keyed (Map.set k task map).
Proof.
  intros <-. apply well_keyed_set.
Qed.

(** X15.  That every key of the map is the [id] of its task, and no key
    occurs twice, is kept by [addTask], [importTasks], [loadTasks] and
    [clearTasks], whether they return or throw, and by [deleteTask]
    whenever it returns or throws.  [updateTask] keeps it when the update
    has no [id] or the [id] that is the key; it stores under the old key
    whatever [id] the update has (see [updateTask_can_part_key_and_id]). *)
Theorem keys_are_ids (st : TaskManager.State) :
  well_keyed (TaskManager.tasks (TaskManager.this st)) ->
  (forall task,
      well_keyed
        (TaskManager.tasks (TaskManager.this (snd (TaskManager.addTask task st)))))
  /\ (forall json,
         well_keyed
           (TaskManager.tasks
              (TaskManager.this (snd (TaskManager.importTasks json st)))))
  /\ well_keyed
       (TaskManager.tasks (TaskManager.this (snd (TaskManager.loadTasks st))))
  /\ well_keyed
       (TaskManager.tasks (TaskManager.this (snd (TaskManager.clearTasks st))))
  /\ (forall fuel taskId outcome st',
         TaskManager.deleteTask fuel taskId st = Some (outcome, st') ->
         well_keyed (TaskManager.tasks (TaskManager.this st')))
  /\ (forall taskId updates,
         TaskData.id updates = None \/ TaskData.id updates = taskId ->
         well_keyed
           (TaskManager.tasks
              (TaskManager.this (snd (TaskManager.updateTask taskId updates st))))).
Proof.
  intros Hwk. split; [|split; [|split; [|split; [|split]]]].
  - intros task.
    destruct (TaskManager.validateTask (TaskManager.this st) task) eqn:Hvalid.
    + rewrite (addTask_valid task st Hvalid).
      destruct (full (TaskManager.localStorage st)); simpl;
        apply well_keyed_set_key; auto.
    + unfold TaskManager.addTask, TaskManager.try_catch, TaskManager.bind,
        TaskManager.self. rewrite Hvalid. exact Hwk.
  - intros json. rewrite importTasks_run.
    destruct json as [tasks| |]; [|exact Hwk|exact Hwk].
    destruct (forallb _ tasks); [|exact Hwk].
    destruct (full (TaskManager.localStorage st)); simpl;
      apply well_keyed_keyed_by_id.
  - rewrite loadTasks_run.
    destruct (own_property _ _) as [[tasks| |]|]; simpl.
    + apply well_keyed_keyed_by_id.
    + apply well_keyed_nil.
    + exact Hwk.
    + apply well_keyed_nil.
  - rewrite clearTasks_run.
    destruct (full (TaskManager.localStorage st)); simpl; apply well_keyed_nil.
  - intros fuel taskId outcome st' Hrun. rewrite deleteTask_run in Hrun.
    destruct (Map.has taskId (TaskManager.tasks (TaskManager.this st))).
    + destruct (TaskManager.deleteTaskAndChildren fuel taskId
                  (TaskManager.tasks (TaskManager.this st))) as [tasks|] eqn:E;
        [|discriminate].
      destruct (deleteTaskAndChildren_filter _ _ Hwk E) as [keep ->].
      destruct (full (TaskManager.localStorage st));
        injection Hrun as _ <-; simpl; now apply well_keyed_filter.
    + injection Hrun as _ <-. exact Hwk.
  - intros taskId updates Hid. rewrite updateTask_run.
    destruct (Map.get taskId (TaskManager.tasks (TaskManager.this st)))
      as [task|] eqn:Hget; [|exact Hwk].
    simpl.
    destruct (TaskManager.validateTask _ _); [|exact Hwk].
    assert (TaskData.id (TaskData.spread task updates) = taskId) as Hk.
    { apply spread_id; [|exact Hid]. apply Hwk. now apply get_In. }
    destruct (full (TaskManager.localStorage st)); simpl;
      now apply well_keyed_set_key.
Qed.

Lemma keys_are_ids_witness :
  well_keyed
    (TaskManager.tasks
       (TaskManager.this
          (snd (TaskManager.addTask (form_task "1" "Blocked" None) family))))
  /\ well_keyed
       (TaskManager.tasks
          (TaskManager.this
             (snd (TaskManager.updateTask (Some "2") (new_parent "1") family)))).
Proof.
  assert (well_keyed (TaskManager.tasks (TaskManager.this family))) as Hwk
    by given_map.
  split.
  - exact (proj1 (@keys_are_ids family Hwk) (form_task "1" "Blocked" None)).
  - apply (proj2 (proj2 (proj2 (proj2 (proj2 (@keys_are_ids family Hwk)))))).
    left. reflexivity.
Defined.

(** [updateTask] stores under the key it was given, whatever [id] the
    update has: the task is then found under the old key, with the new
    [id], and not under the new one. *)
Example updateTask_can_part_key_and_id :
  let update :=
    {| TaskData.id := Some "9"; TaskData.title := None;
       TaskData.description := None; TaskData.status := None;
       TaskData.parentId := None; TaskData.created := None;
       TaskData.position := None |} in
  let this' :=
    TaskManager.this (snd (TaskManager.updateTask (Some "2") update family)) in
  option_map TaskData.id (TaskManager.getTask this' (Some "2")) = Some (Some "9")
  /\ TaskManager.getTask this' (Some "9") = None
  /\ ~ well_keyed (TaskManager.tasks this').
Proof.
  intros update this'. split; [vm_compute; reflexivity|].
  split; [vm_compute; reflexivity|].
  intros [_ Hid].
  assert (exists task,
             In (Some "2", task) (TaskManager.tasks this')
             /\ TaskData.id task = Some "9") as (task & Hin & E).
  { vm_compute. eexists. split; [do 3 right; left; reflexivity | reflexivity]. }
  rewrite (Hid _ _ Hin) in E. discriminate.
Qed.

(** ** Storage and memory *)

(** X16.  [loadTasks] returns the empty array when the storage has no
    item under the key, when the item is the empty string and when the
    item is other text that is not JSON.  In the first two cases the map
    is emptied.  In the third the exception of [JSON.parse] comes before
    the map is touched: the task manager, the tasks in its map included,
    is as it was. *)
Theorem loadTasks_on_missing_or_corrupt_storage (st : TaskManager.State) :
  let item :=
    own_property (items (TaskManager.localStorage st))
      (TaskManager.storageKey (TaskManager.this st)) in
  let st' := snd (TaskManager.loadTasks st) in
  (item = None \/ item = Some Empty ->
   fst (TaskManager.loadTasks st) = Return []
   /\ TaskManager.tasks (TaskManager.this st') = []
   /\ TaskManager.localStorage st' = TaskManager.localStorage st)
  /\ (item = Some Malformed ->
      fst (TaskManager.loadTasks st) = Return []
      /\ st' = st).
Proof.
  intros item st'. subst item st'. rewrite loadTasks_run.
  split; [intros [-> | ->] | intros ->]; repeat split.
Qed.

Lemma loadTasks_on_missing_or_corrupt_storage_witness :
  (fst (TaskManager.loadTasks fresh) = Return []
   /\ TaskManager.tasks (TaskManager.this (snd (TaskManager.loadTasks fresh))) = []
   /\ TaskManager.localStorage (snd (TaskManager.loadTasks fresh))
      = TaskManager.localStorage fresh)
  /\ (fst (TaskManager.loadTasks fresh_corrupt) = Return []
      /\ snd (TaskManager.loadTasks fresh_corrupt) = fresh_corrupt).
Proof.
  split.
  - exact (proj1 (loadTasks_on_missing_or_corrupt_storage fresh)
             (or_introl eq_refl)).
  - exact (proj2 (loadTasks_on_missing_or_corrupt_storage fresh_corrupt) eq_refl).
Defined.

Lemma set_new_key (V : Type) (k : Map.key) (v : V) (map : Map.t V) :
  ~ In k (List.map fst map) -> Map.set k v map = (map ++ [(k, v)])%list.
Proof.
  induction map as [|[k' v'] map IH]; simpl; [reflexivity|].
  intros Hnotin. destruct (key_eqb_spec k' k) as [->|Hk].
  - exfalso. apply Hnotin. now left.
  - f_equal. apply IH. intros H. apply Hnotin. now right.
Qed.

Lemma fold_set_values (later earlier : Map.t TaskData.t) :
  well_keyed (earlier ++ later)%list ->
  fold_left (fun map task => Map.set (TaskData.id task) task map)
    (Map.values later) earlier
  = (earlier ++ later)%list.
Proof.
  revert earlier. induction later as [|[k task] later IH]; intros earlier Hwk; simpl.
  - now rewrite app_nil_r.
  - destruct Hwk as [Hnd Hid].
    rewrite (Hid k task) by (apply in_or_app; right; now left).
    rewrite set_new_key.
    + replace (earlier ++ (k, task) :: later)%list
        with ((earlier ++ [(k, task)]) ++ later)%list
        by (rewrite <- app_assoc; reflexivity).
      apply IH. rewrite <- app_assoc. simpl. now split.
    + rewrite map_app in Hnd. simpl in Hnd.
      apply NoDup_remove_2 in Hnd. intros H. apply Hnd. apply in_or_app. now left.
Qed.

(** A map whose keys are the ids of its tasks is the map made from its
    values. *)
Lemma keyed_by_id_values (map : Map.t TaskData.t) :
  well_keyed map -> keyed_by_id (Map.values map) = map.
Proof.
  intros Hwk. unfold keyed_by_id. now rewrite fold_set_values.
Qed.

(** X17.  What [saveTasks] writes, [loadTasks] reads back: when the keys
    are the ids and the storage takes the text, [loadTasks] after
    [saveTasks] returns the tasks of the map in their order and leaves
    the task manager with the map it had, entry by entry. *)
Theorem saveTasks_then_loadTasks (st : TaskManager.State) :
  well_keyed (TaskManager.tasks (TaskManager.this st)) ->
  full (TaskManager.localStorage st) = false ->
  let st1 := snd (TaskManager.saveTasks st) in
  fst (TaskManager.saveTasks st) = Return tt
  /\ fst (TaskManager.loadTasks st1)
     = Return (Map.values (TaskManager.tasks (TaskManager.this st)))
  /\ TaskManager.this (snd (TaskManager.loadTasks st1)) = TaskManager.this st.
Proof.
  intros Hwk Hfull st1. subst st1.
  rewrite (saveTasks_run st Hfull). simpl. split; [reflexivity|].
  rewrite loadTasks_run. simpl. rewrite own_property_put. simpl.
  split; [reflexivity|].
  rewrite (keyed_by_id_values Hwk). now destruct (TaskManager.this st).
Qed.

Lemma saveTasks_then_loadTasks_witness :
  fst (TaskManager.saveTasks family) = Return tt
  /\ fst (TaskManager.loadTasks (snd (TaskManager.saveTasks family)))
     = Return (Map.values (TaskManager.tasks (TaskManager.this family)))
  /\ TaskManager.this
       (snd (TaskManager.loadTasks (snd (TaskManager.saveTasks family))))
     = TaskManager.this family.
Proof.
  apply (@saveTasks_then_loadTasks family).
  - given_map.
  - vm_compute. reflexivity.
Defined.

(** ** [updateTask] *)

Lemma keys_set_present (V : Type) (k : Map.key) (v v0 : V) (map : Map.t V) :
  Map.get k map = Some v0 -> List.map fst (Map.set k v map) = List.map fst map.
Proof.
  intros H. rewrite keys_set. unfold Map.has. now rewrite H.
Qed.

(** X18.  When the key holds a task, [validateTask] accepts the task
    merged with the update and the storage takes the text, [updateTask]
    returns the merged task; the key holds it; every other key holds
    what it held; the keys and their order are as they were; the storage
    holds the JSON of all tasks. *)
Theorem updateTask_merges_in_place
    (taskId : Map.key) (updates task : TaskData.t) (st : TaskManager.State) :
  TaskManager.getTask (TaskManager.this st) taskId = Some task ->
  TaskManager.validateTask (TaskManager.this st) (TaskData.spread task updates)
  = true ->
  full (TaskManager.localStorage st) = false ->
  let st' := snd (TaskManager.updateTask taskId updates st) in
  let this' := TaskManager.this st' in
  fst (TaskManager.updateTask taskId updates st)
  = Return (TaskData.spread task updates)
  /\ TaskManager.getTask this' taskId = Some (TaskData.spread task updates)
  /\ (forall k,
         k <> taskId ->
         TaskManager.getTask this' k = TaskManager.getTask (TaskManager.this st) k)
  /\ List.map fst (TaskManager.tasks this')
     = List.map fst (TaskManager.tasks (TaskManager.this st))
  /\ own_property (items (TaskManager.localStorage st'))
       (TaskManager.storageKey this')
     = Some (Json (Map.values (TaskManager.tasks this'))).
Proof.
  intros Hget Hvalid Hfull st' this'. subst st' this'.
  unfold TaskManager.getTask in *.
  rewrite updateTask_run, Hget. simpl. rewrite Hvalid, Hfull. simpl.
  split; [reflexivity|]. split; [apply get_set_same|].
  split; [intros k Hk; now apply get_set_other|].
  split; [now apply keys_set_present with task | apply own_property_put].
Qed.

Lemma updateTask_merges_in_place_witness :
  exists task,
    TaskManager.getTask (TaskManager.this family) (Some "2") = Some task
    /\ fst (TaskManager.updateTask (Some "2") (new_parent "1.1") family)
       = Return (TaskData.spread task (new_parent "1.1"))
    /\ List.map fst
         (TaskManager.tasks
            (TaskManager.this
               (snd (TaskManager.updateTask (Some "2") (new_parent "1.1") family))))
       = List.map fst (TaskManager.tasks (TaskManager.this family)).
Proof.
  assert (exists task,
             TaskManager.getTask (TaskManager.this family) (Some "2") = Some task
             /\ TaskManager.validateTask (TaskManager.this family)
                  (TaskData.spread task (new_parent "1.1")) = true)
    as (task & Hget & Hvalid)
    by (vm_compute; eexists; split; reflexivity).
  assert (full (TaskManager.localStorage family) = false) as Hfull
    by (vm_compute; reflexivity).
  pose proof (@updateTask_merges_in_place (Some "2") (new_parent "1.1") task family
                Hget Hvalid Hfull) as H.
  exists task. split; [exact Hget|].
  split; [exact (proj1 H) | exact (proj1 (proj2 (proj2 (proj2 H))))].
Defined.

(** ** [deleteTask] *)

(** X19.  On a map whose keys are the ids and whose parent links have no
    cycle ([rank] numbers every task above its parent), [deleteTask] of a
    key of the map returns, given fuel above the largest number, and
    deletes exactly the subtree: an entry is in the map afterwards if and
    only if it was in the map and its key is not under the key deleted;
    what is left is in the order it was in; no task is left that names
    the deleted key as its parent; the storage holds the JSON of what is
    left. *)
Theorem deleteTask_deletes_the_subtree
    (rank : Map.key -> nat) (bound fuel : nat) (taskId : Map.key)
    (st : TaskManager.State) :
  let tasks := TaskManager.tasks (TaskManager.this st) in
  well_keyed tasks ->
  ranked rank bound tasks ->
  TaskManager.getTask (TaskManager.this st) taskId <> None ->
  full (TaskManager.localStorage st) = false ->
  (bound < fuel)%nat ->
  exists st',
    TaskManager.deleteTask fuel taskId st = Some (Return tt, st')
    /\ (forall k task,
           In (k, task) (TaskManager.tasks (TaskManager.this st'))
           <-> In (k, task) tasks /\ ~ under tasks taskId k)
    /\ (exists keep,
           TaskManager.tasks (TaskManager.this st') = filter keep tasks)
    /\ TaskManager.getChildTasks (TaskManager.this st') taskId = []
    /\ own_property (items (TaskManager.localStorage st'))
         (TaskManager.storageKey (TaskManager.this st'))
       = Some (Json (Map.values (TaskManager.tasks (TaskManager.this st')))).
Proof.
  intros tasks Hwk Hrk Hget Hfull Hfuel. subst tasks.
  destruct (@deleteTaskAndChildren_deletes_subtree rank bound fuel taskId
              (TaskManager.tasks (TaskManager.this st)) Hwk Hrk ltac:(lia))
    as (keep & Hrun & Hkeep).
  rewrite deleteTask_run, Hrun, Hfull.
  unfold TaskManager.getTask in Hget. unfold Map.has.
  destruct (Map.get taskId (TaskManager.tasks (TaskManager.this st))) as [t0|];
    [|congruence].
  eexists. split; [reflexivity|]. simpl.
  assert (forall k task,
             In (k, task) (filter keep (TaskManager.tasks (TaskManager.this st)))
             <-> In (k, task) (TaskManager.tasks (TaskManager.this st))
                 /\ ~ under (TaskManager.tasks (TaskManager.this st)) taskId k)
    as Hspec.
  { intros k task. rewrite filter_In. split.
    - intros [Hin Hk]. split; [exact Hin|]. now apply (Hkeep (k, task) Hin).
    - intros [Hin Hk]. split; [exact Hin|]. now apply (Hkeep (k, task) Hin). }
  split; [exact Hspec|]. split; [now exists keep|]. split.
  - unfold TaskManager.getChildTasks. simpl.
    destruct (filter _ (Map.values (filter keep _))) as [|child rest] eqn:E;
      [reflexivity|].
    exfalso.
    assert (In child (child :: rest)) as Hin by now left.
    rewrite <- E in Hin. apply children_In in Hin.
    destruct Hin as [[k Hin] Hp]. apply Hspec in Hin. destruct Hin as [Hin Hk].
    apply Hk. apply under_child with child; [exact Hin|]. rewrite Hp. constructor.
  - apply own_property_put.
Qed.

Lemma deleteTask_deletes_the_subtree_witness :
  exists st',
    TaskManager.deleteTask 6 (Some "1.1") family = Some (Return tt, st')
    /\ TaskManager.getChildTasks (TaskManager.this st') (Some "1.1") = []
    /\ (forall k task,
           In (k, task) (TaskManager.tasks (TaskManager.this st'))
           <-> In (k, task) (TaskManager.tasks (TaskManager.this family))
               /\ ~ under (TaskManager.tasks (TaskManager.this family))
                     (Some "1.1") k).
Proof.
  destruct (@deleteTask_deletes_the_subtree key_length 5 6 (Some "1.1") family)
    as (st' & Hrun & Hspec & _ & Hchildren & _).
  - given_map.
  - given_map.
  - vm_compute. discriminate.
  - vm_compute. reflexivity.
  - lia.
  - exists st'. split; [exact Hrun|]. split; [exact Hchildren | exact Hspec].
Defined.

(** X20.  Where tasks are parents in a circle (a set of entries of the
    map, each key the [id] of its task and the parent of a task of the
    set), the recursion of [deleteTaskAndChildren] on a key of the circle
    has no end: no depth of calls is enough for it to return, and so
    none for [deleteTask].  (An engine stops it when the call stack is
    used up.)  One task that is its own parent is such a circle, and
    [updateTask] makes one: [validateTask] asks only that the parent be
    a key. *)
Theorem deleteTask_never_returns_on_a_cycle
    (cycle : list (Map.key * TaskData.t)) (taskId : Map.key) (fuel : nat)
    (st : TaskManager.State) :
  (forall k task,
      In (k, task) cycle ->
      In (k, task) (TaskManager.tasks (TaskManager.this st))
      /\ TaskData.id task = k
      /\ exists k' task', In (k', task') cycle /\ TaskData.parentId task' = k) ->
  In taskId (List.map fst cycle) ->
  TaskManager.deleteTaskAndChildren fuel taskId
    (TaskManager.tasks (TaskManager.this st)) = None
  /\ TaskManager.deleteTask fuel taskId st = None.
Proof.
  intros Hcycle Hin.
  assert (TaskManager.deleteTaskAndChildren fuel taskId
            (TaskManager.tasks (TaskManager.this st)) = None) as Hnone.
  { destruct (TaskManager.deleteTaskAndChildren fuel taskId
                (TaskManager.tasks (TaskManager.this st))) as [map'|] eqn:E;
      [|reflexivity].
    exfalso.
    destruct (@deleteTaskAndChildren_keeps_cycle cycle
                (fun k task H => proj2 (Hcycle k task H)) fuel taskId _ map'
                (fun e H => match e return In e cycle -> In e _ with
                            | (k, task) => fun H => proj1 (Hcycle k task H)
                            end H) E) as [Hnot _].
    now apply Hnot. }
  split; [exact Hnone|].
  rewrite deleteTask_run, Hnone.
  assert (Map.has taskId (TaskManager.tasks (TaskManager.this st)) = true) as Hhas.
  { apply has_keys. apply in_map_iff in Hin. destruct Hin as [[k task] [E Hin]].
    simpl in E. subst k. apply in_map_iff. exists (taskId, task).
    split; [reflexivity|]. now apply Hcycle. }
  now rewrite Hhas.
Qed.

Lemma deleteTask_never_returns_on_a_cycle_witness :
  fst (TaskManager.updateTask (Some "1") (new_parent "1") family)
  = Return (TaskData.spread (stored_copy (form_task "1" "Not Started" None)
                               1745257280419)
              (new_parent "1"))
  /\ TaskManager.deleteTaskAndChildren 1000 (Some "1")
       (TaskManager.tasks (TaskManager.this looped)) = None
  /\ TaskManager.deleteTask 1000 (Some "1") looped = None.
Proof.
  split; [vm_compute; reflexivity|].
  assert (exists task,
             In (Some "1", task) (TaskManager.tasks (TaskManager.this looped))
             /\ TaskData.id task = Some "1"
             /\ TaskData.parentId task = Some "1") as (task & Hin & Hid & Hp)
    by (vm_compute; eexists; split; [left; reflexivity | split; reflexivity]).
  apply (@deleteTask_never_returns_on_a_cycle [(Some "1", task)] (Some "1") 1000
           looped).
  - intros k task0 [E|[]]. injection E as <- <-.
    split; [exact Hin|]. split; [exact Hid|].
    exists (Some "1"), task. split; [left; reflexivity | exact Hp].
  - left. reflexivity.
Defined.

(** ** Rejected calls *)

(** X21.  A call that the task manager rejects changes nothing: neither
    the map nor the storage, no listener is called and the clock is not
    read.  [addTask] throws "Invalid task data" for a task without [id]
    or [title], with a status that is none of the four, or with a parent
    that is no key; [updateTask] and [deleteTask] throw "Task not found"
    for a key that holds nothing, and [updateTask] "Invalid task data"
    when the merged task is not valid; [importTasks] throws "Invalid task
    data in import" when one task of the array is not valid, and the
    exception of [JSON.parse] for text that is not JSON, the empty string
    included. *)
Theorem rejected_calls_change_nothing (st : TaskManager.State) :
  (forall task,
      TaskData.id task = None
      \/ TaskData.title task = None
      \/ (forall status,
             TaskData.status task = Some status ->
             ~ In status TaskManager.validStatuses)
      \/ (TaskData.truthy (TaskData.parentId task) = true
          /\ TaskManager.getTask (TaskManager.this st) (TaskData.parentId task)
             = None) ->
      TaskManager.addTask task st = (Throw (Error "Invalid task data"), st))
  /\ (forall taskId updates,
         TaskManager.getTask (TaskManager.this st) taskId = None ->
         TaskManager.updateTask taskId updates st
         = (Throw (Error "Task not found"), st))
  /\ (forall taskId updates task,
         TaskManager.getTask (TaskManager.this st) taskId = Some task ->
         TaskManager.validateTask (TaskManager.this st)
           (TaskData.spread task updates) = false ->
         TaskManager.updateTask taskId updates st
         = (Throw (Error "Invalid task data"), st))
  /\ (forall fuel taskId,
         TaskManager.getTask (TaskManager.this st) taskId = None ->
         TaskManager.deleteTask fuel taskId st
         = Some (Throw (Error "Task not found"), st))
  /\ (forall batch task,
         In task batch ->
         TaskManager.validateTask (TaskManager.this st) task = false ->
         TaskManager.importTasks (Json batch) st
         = (Throw (Error "Invalid task data in import"), st))
  /\ (forall json,
         json = Empty \/ json = Malformed ->
         TaskManager.importTasks json st = (Throw SyntaxError, st)).
Proof.
  unfold TaskManager.getTask.
  split; [exact (fun task => addTask_invalid task st)|].
  split; [|split; [|split; [|split]]].
  - intros taskId updates Hget. rewrite updateTask_run, Hget. reflexivity.
  - intros taskId updates task Hget Hinvalid.
    rewrite updateTask_run, Hget. simpl. now rewrite Hinvalid.
  - intros fuel taskId Hget. rewrite deleteTask_run. unfold Map.has.
    now rewrite Hget.
  - intros batch task Hin Hinvalid. rewrite importTasks_run.
    assert (forallb (TaskManager.validateTask (TaskManager.this st)) batch = false)
      as Hall.
    { destruct (forallb _ batch) eqn:E; [|reflexivity].
      rewrite forallb_forall in E. rewrite (E task Hin) in Hinvalid. discriminate. }
    now rewrite Hall.
  - intros json [-> | ->]; apply importTasks_run.
Qed.

Lemma rejected_calls_change_nothing_witness :
  TaskManager.addTask (form_task "3" "Archived" None) family
  = (Throw (Error "Invalid task data"), family)
  /\ TaskManager.addTask (form_task "3" "Blocked" (Some "0")) family
     = (Throw (Error "Invalid task data"), family)
  /\ TaskManager.updateTask (Some "3") (new_parent "1") family
     = (Throw (Error "Task not found"), family)
  /\ TaskManager.updateTask (Some "2") (new_parent "0") family
     = (Throw (Error "Invalid task data"), family)
  /\ TaskManager.deleteTask 0 (Some "3") family
     = Some (Throw (Error "Task not found"), family)
  /\ TaskManager.importTasks
       (Json [form_task "4" "Blocked" None; form_task "5" "Done" None]) family
     = (Throw (Error "Invalid task data in import"), family).
Proof.
  pose proof (rejected_calls_change_nothing family)
    as (Hadd & Hfound & Hmerged & Hdelete & Himport & _).
  split; [|split; [|split; [|split; [|split]]]].
  - apply Hadd. right. right. left. intros status [= <-] Hin.
    simpl in Hin. intuition discriminate.
  - apply Hadd. right. right. right. split; vm_compute; reflexivity.
  - apply Hfound. vm_compute. reflexivity.
  - assert (exists task,
               TaskManager.getTask (TaskManager.this family) (Some "2") = Some task
               /\ TaskManager.validateTask (TaskManager.this family)
                    (TaskData.spread task (new_parent "0")) = false)
      as (task & Hget & Hinvalid)
      by (vm_compute; eexists; split; reflexivity).
    exact (Hmerged (Some "2") (new_parent "0") task Hget Hinvalid).
  - apply Hdelete. vm_compute. reflexivity.
  - apply Himport with (form_task "5" "Done" None);
      [right; left; reflexivity | vm_compute; reflexivity].
Defined.

(** ** [importTasks] *)

(** X22.  [importTasks] checks the parent of an imported task against
    the tasks held before the import, which it then drops, and not
    against the imported ones.  A task manager that holds no task
    rejects every array in which a task names a parent, the parent being
    in the array or not, and changes nothing.  A task manager accepts a
    task alone whose parent it holds, and then holds that task and
    nothing else. *)
Theorem importTasks_checks_parents_against_the_old_tasks :
  (forall (st : TaskManager.State) (batch : list TaskData.t) (task : TaskData.t),
      TaskManager.tasks (TaskManager.this st) = [] ->
      In task batch ->
      TaskData.truthy (TaskData.parentId task) = true ->
      TaskManager.importTasks (Json batch) st
      = (Throw (Error "Invalid task data in import"), st))
  /\ (forall (st : TaskManager.State) (child : TaskData.t),
         TaskManager.validateTask (TaskManager.this st) child = true ->
         full (TaskManager.localStorage st) = false ->
         let st' := snd (TaskManager.importTasks (Json [child]) st) in
         fst (TaskManager.importTasks (Json [child]) st) = Return tt
         /\ TaskManager.tasks (TaskManager.this st') = [(TaskData.id child, child)]).
Proof.
  split.
  - intros st batch task Hempty Hin Hp. rewrite importTasks_run.
    assert (forallb (TaskManager.validateTask (TaskManager.this st)) batch = false)
      as Hinvalid.
    { destruct (forallb _ batch) eqn:E; [|reflexivity].
      rewrite forallb_forall in E. specialize (E task Hin).
      apply validateTask_spec in E. destruct E as (_ & _ & _ & Hhas).
      specialize (Hhas Hp). rewrite Hempty in Hhas. discriminate. }
    now rewrite Hinvalid.
  - intros st child Hvalid Hfull st'. subst st'.
    rewrite importTasks_run. simpl forallb. rewrite Hvalid, Hfull. simpl.
    split; reflexivity.
Qed.

Lemma importTasks_checks_parents_against_the_old_tasks_witness :
  TaskManager.importTasks
    (Json [form_task "1" "Blocked" None; form_task "1.1" "Blocked" (Some "1")])
    fresh
  = (Throw (Error "Invalid task data in import"), fresh)
  /\ TaskManager.tasks
       (TaskManager.this
          (snd (TaskManager.importTasks
                  (Json [form_task "1.2" "Blocked" (Some "1")]) family)))
     = [(Some "1.2", form_task "1.2" "Blocked" (Some "1"))]
  /\ ~ parents_present
        (TaskManager.tasks
           (TaskManager.this
              (snd (TaskManager.importTasks
                      (Json [form_task "1.2" "Blocked" (Some "1")]) family)))).
Proof.
  split; [|split].
  - apply (proj1 importTasks_checks_parents_against_the_old_tasks fresh _
             (form_task "1.1" "Blocked" (Some "1")));
      [reflexivity | right; left; reflexivity | reflexivity].
  - assert (TaskManager.validateTask (TaskManager.this family)
              (form_task "1.2" "Blocked" (Some "1")) = true) as Hvalid
      by (vm_compute; reflexivity).
    assert (full (TaskManager.localStorage family) = false) as Hfull
      by (vm_compute; reflexivity).
    exact (proj2 (proj2 importTasks_checks_parents_against_the_old_tasks family
                    (form_task "1.2" "Blocked" (Some "1")) Hvalid Hfull)).
  - assert (TaskManager.validateTask (TaskManager.this family)
              (form_task "1.2" "Blocked" (Some "1")) = true) as Hvalid
      by (vm_compute; reflexivity).
    assert (full (TaskManager.localStorage family) = false) as Hfull
      by (vm_compute; reflexivity).
    rewrite (proj2 (proj2 importTasks_checks_parents_against_the_old_tasks family
                      (form_task "1.2" "Blocked" (Some "1")) Hvalid Hfull)).
    intros H.
    discriminate (H (Some "1.2") (form_task "1.2" "Blocked" (Some "1"))
                    (or_introl eq_refl) eq_refl).
Defined.

(** X23.  A task manager takes back what it exports: when the keys are
    the ids, every task held is valid for the task manager as it is, and
    the storage takes the text, [importTasks] of [exportTasks()] returns
    and leaves the task manager as it was, with the exported text in the
    storage. *)
Theorem importTasks_of_exportTasks (st : TaskManager.State) :
  well_keyed (TaskManager.tasks (TaskManager.this st)) ->
  (forall k task,
      In (k, task) (TaskManager.tasks (TaskManager.this st)) ->
      TaskManager.validateTask (TaskManager.this st) task = true) ->
  full (TaskManager.localStorage st) = false ->
  let json := TaskManager.exportTasks (TaskManager.this st) in
  let st' := snd (TaskManager.importTasks json st) in
  fst (TaskManager.importTasks json st) = Return tt
  /\ TaskManager.this st' = TaskManager.this st
  /\ own_property (items (TaskManager.localStorage st'))
       (TaskManager.storageKey (TaskManager.this st))
     = Some json.
Proof.
  intros Hwk Hvalid Hfull json st'. subst json st'.
  unfold TaskManager.exportTasks, TaskManager.JSON_stringify.
  rewrite importTasks_run.
  assert (forallb (TaskManager.validateTask (TaskManager.this st))
            (Map.values (TaskManager.tasks (TaskManager.this st))) = true) as Hall.
  { apply forallb_forall. intros task Hin. unfold Map.values in Hin.
    apply in_map_iff in Hin. destruct Hin as [[k t] [E Hin]]. simpl in E. subst t.
    now apply Hvalid with k. }
  rewrite Hall, Hfull, (keyed_by_id_values Hwk). simpl.
  split; [reflexivity|]. split.
  - now destruct (TaskManager.this st).
  - apply own_property_put.
Qed.

Lemma importTasks_of_exportTasks_witness :
  fst (TaskManager.importTasks (TaskManager.exportTasks (TaskManager.this family))
         family)
  = Return tt
  /\ TaskManager.this
       (snd (TaskManager.importTasks
               (TaskManager.exportTasks (TaskManager.this family)) family))
     = TaskManager.this family.
Proof.
  pose proof (@importTasks_of_exportTasks family) as H.
  assert (well_keyed (TaskManager.tasks (TaskManager.this family))) as Hwk
    by given_map.
  assert (forall k task,
             In (k, task) (TaskManager.tasks (TaskManager.this family)) ->
             TaskManager.validateTask (TaskManager.this family) task = true)
    as Hvalid by given_map.
  assert (full (TaskManager.localStorage family) = false) as Hfull
    by (vm_compute; reflexivity).
  specialize (H Hwk Hvalid Hfull).
  split; [exact (proj1 H) | exact (proj1 (proj2 H))].
Defined.

(** ** [initialize] *)

Lemma initialize_run (st : TaskManager.State) :
  TaskManager.initialize st
  = match TaskManager.loadTasks st with
    | (Return tasks, st1) =>
        if (List.length tasks =? 0)%nat then
          match TaskManager.importTasks
                  (Json (TaskManager.defaultTasks (TaskManager.this st1))) st1 with
          | (Return a, st2) => (Return a, st2)
          | (Throw e, st2) =>
              TaskManager.importTasks
                (Json (TaskManager.defaultTasks (TaskManager.this st2))) st2
          end
        else (Return tt, st1)
    | (Throw e, st1) =>
        TaskManager.importTasks
          (Json (TaskManager.defaultTasks (TaskManager.this st1))) st1
    end.
Proof.
  unfold TaskManager.initialize, TaskManager.try_catch.
  unfold TaskManager.bind at 1.
  destruct (TaskManager.loadTasks st) as [[tasks|e] st1]; [|reflexivity].
  destruct (List.length tasks =? 0)%nat; reflexivity.
Qed.

(** X24.  [initialize] on a new task manager, with a storage that takes
    the text.  When the storage has no item under the key, or text that
    is not JSON, the empty string included, or an empty array,
    [initialize] returns, the task manager holds the demonstration task
    "demo-1" and nothing else, and the storage holds its JSON.  When the
    storage holds a non-empty array, [initialize] returns with these
    tasks in the map, by their ids, and the storage is as it was. *)
Theorem initialize_installs_the_demo_task (w : World) (storage : Storage) :
  let this := fst (TaskManager.new w) in
  let st :=
    {| TaskManager.this := this;
       TaskManager.localStorage := storage;
       TaskManager.world := snd (TaskManager.new w);
       TaskManager.calls := [] |} in
  let st' := snd (TaskManager.initialize st) in
  let item := own_property (items storage) "focusar-tasks" in
  full storage = false ->
  (item = None \/ item = Some Empty \/ item = Some Malformed
   \/ item = Some (Json []) ->
   fst (TaskManager.initialize st) = Return tt
   /\ Map.values (TaskManager.tasks (TaskManager.this st'))
      = TaskManager.defaultTasks this
   /\ List.map TaskData.id (TaskManager.defaultTasks this) = [Some "demo-1"]
   /\ own_property (items (TaskManager.localStorage st')) "focusar-tasks"
      = Some (Json (TaskManager.defaultTasks this)))
  /\ (forall tasks,
         item = Some (Json tasks) ->
         tasks <> [] ->
         fst (TaskManager.initialize st) = Return tt
         /\ TaskManager.tasks (TaskManager.this st') = keyed_by_id tasks
         /\ TaskManager.localStorage st' = storage).
Proof.
  intros this st st' item Hfull. subst st' item.
  rewrite initialize_run, loadTasks_run.
  change (TaskManager.storageKey (TaskManager.this st)) with "focusar-tasks".
  change (TaskManager.localStorage st) with storage.
  split.
  - intros [H|[H|[H|H]]]; rewrite H; simpl Nat.eqb; cbv iota;
      rewrite importTasks_run; unfold st, with_tasks; simpl; rewrite Hfull; simpl;
      (split; [reflexivity|]); (split; [reflexivity|]);
      (split; [reflexivity|]); apply own_property_put.
  - intros tasks H Hne. rewrite H.
    destruct tasks as [|task tasks]; [congruence|]. simpl.
    repeat split.
Qed.

Lemma initialize_installs_the_demo_task_witness :
  fst (TaskManager.initialize fresh) = Return tt
  /\ List.map TaskData.id
       (Map.values
          (TaskManager.tasks (TaskManager.this (snd (TaskManager.initialize fresh)))))
     = [Some "demo-1"]
  /\ fst (TaskManager.initialize fresh_corrupt) = Return tt
  /\ own_property
       (items (TaskManager.localStorage (snd (TaskManager.initialize fresh_corrupt))))
       "focusar-tasks"
     = Some (Json (TaskManager.defaultTasks (TaskManager.this fresh))).
Proof.
  pose proof (proj1 (@initialize_installs_the_demo_task world1
                       {| items := []; full := false |} eq_refl)
                (or_introl eq_refl)) as (H1 & H2 & H3 & _).
  pose proof (proj1 (@initialize_installs_the_demo_task world1
                       {| items := [("focusar-tasks", Malformed)]; full := false |}
                       eq_refl)
                (or_intror (or_intror (or_introl eq_refl)))) as (H4 & _ & _ & H5).
  split; [exact H1|]. split; [|split; [exact H4 | exact H5]].
  change (TaskManager.initialize fresh)
    with (TaskManager.initialize
            {| TaskManager.this := fst (TaskManager.new world1);
               TaskManager.localStorage := {| items := []; full := false |};
               TaskManager.world := snd (TaskManager.new world1);
               TaskManager.calls := [] |}).
  rewrite H2. exact H3.
Defined.

(** ** Listeners *)

Lemma count_occ_filter_out (l : nat) (ls : list nat) :
  count_occ Nat.eq_dec (filter (fun l' => negb (Nat.eqb l l')) ls) l = 0%nat.
Proof.
  induction ls as [|a ls IH]; simpl; [reflexivity|].
  destruct (Nat.eqb_spec l a) as [->|Hne]; simpl; [exact IH|].
  destruct (Nat.eq_dec a l); [congruence | exact IH].
Qed.

Lemma count_occ_add (l : nat) (ls : list nat) :
  NoDup ls ->
  count_occ Nat.eq_dec
    (if existsb (Nat.eqb l) ls then ls else (ls ++ [l])%list) l = 1%nat.
Proof.
  intros Hnd. destruct (existsb (Nat.eqb l) ls) eqn:E.
  - apply existsb_exists in E. destruct E as [l' [Hin Heq]].
    apply Nat.eqb_eq in Heq. subst l'.
    apply NoDup_count_occ' with (decA := Nat.eq_dec); assumption.
  - rewrite count_occ_app. simpl.
    destruct (Nat.eq_dec l l); [|congruence].
    assert (~ In l ls) as Hnotin.
    { intros Hin. assert (existsb (Nat.eqb l) ls = true) as C.
      { apply existsb_exists. exists l. split; [exact Hin | apply Nat.eqb_refl]. }
      congruence. }
    apply (count_occ_not_In Nat.eq_dec) in Hnotin. lia.
Qed.

(** X25.  The listeners are a set: a listener added twice is called once
    by [saveTasks], and a listener removed is not called. *)
Theorem a_listener_is_told_once_per_change
    (l : TaskManager.listener) (st : TaskManager.State) :
  NoDup (TaskManager.listeners (TaskManager.this st)) ->
  TaskManager.calls st = [] ->
  full (TaskManager.localStorage st) = false ->
  let twice :=
    snd (TaskManager.addChangeListener l (snd (TaskManager.addChangeListener l st)))
  in
  let removed := snd (TaskManager.removeChangeListener l twice) in
  told l (snd (TaskManager.saveTasks twice)) = 1%nat
  /\ told l (snd (TaskManager.saveTasks removed)) = 0%nat.
Proof.
  intros Hnd Hcalls Hfull twice removed. subst removed twice.
  unfold told.
  rewrite !saveTasks_run by exact Hfull. simpl. rewrite Hcalls. simpl.
  unfold notifications. simpl. rewrite !map_map. simpl. rewrite !map_id.
  set (once := if existsb (Nat.eqb l) (TaskManager.listeners (TaskManager.this st))
               then TaskManager.listeners (TaskManager.this st)
               else (TaskManager.listeners (TaskManager.this st) ++ [l])%list).
  assert (count_occ Nat.eq_dec once l = 1%nat) as Honce
    by (apply count_occ_add; exact Hnd).
  assert (existsb (Nat.eqb l) once = true) as Hin.
  { apply existsb_exists. exists l. split; [|apply Nat.eqb_refl].
    apply (count_occ_In Nat.eq_dec). lia. }
  rewrite Hin. split; [exact Honce | apply count_occ_filter_out].
Qed.

Lemma a_listener_is_told_once_per_change_witness :
  told 7%nat
    (snd (TaskManager.saveTasks
            (snd (TaskManager.addChangeListener 7%nat
                    (snd (TaskManager.addChangeListener 7%nat fresh)))))) = 1%nat
  /\ told 7%nat
       (snd (TaskManager.saveTasks
               (snd (TaskManager.removeChangeListener 7%nat
                       (snd (TaskManager.addChangeListener 7%nat
                               (snd (TaskManager.addChangeListener 7%nat fresh))))))))
     = 0%nat.
Proof.
  apply (@a_listener_is_told_once_per_change 7%nat fresh).
  - constructor.
  - reflexivity.
  - reflexivity.
Defined.

(** ** Statuses across the classes *)

(** X26.  The three tables of statuses agree: a status that
    [validateTask] accepts is a key of [baseColors], so that
    [_calculateColor] finds a colour for it, and a key of the classes of
    [getStatusClass]. *)
Theorem accepted_status_has_a_colour_and_a_class
    (this : TaskManager.t) (task : TaskData.t) :
  TaskManager.validateTask this task = true ->
  exists status rgb names,
    TaskData.status task = Some status
    /\ get_property FractalAlgorithm.baseColors status = Own rgb
    /\ FocusARApp.getStatusClass (Some status) = FocusARApp.ClassNames names
    /\ In (status, names) FocusARApp.statusClasses.
Proof.
  intros H. apply validateTask_spec in H.
  destruct H as (_ & _ & [status [Hs Hin]] & _).
  exists status. simpl in Hin.
  destruct Hin as [<-|[<-|[<-|[<-|[]]]]];
    do 2 eexists; (split; [exact Hs|]); (split; [reflexivity|]);
    (split; [reflexivity|]); simpl; tauto.
Qed.

Lemma accepted_status_has_a_colour_and_a_class_witness :
  exists status rgb names,
    TaskData.status (form_task "1" "Blocked" None) = Some status
    /\ get_property FractalAlgorithm.baseColors status = Own rgb
    /\ FocusARApp.getStatusClass (Some status) = FocusARApp.ClassNames names
    /\ In (status, names) FocusARApp.statusClasses.
Proof.
  exact (@accepted_status_has_a_colour_and_a_class (TaskManager.this fresh)
           (form_task "1" "Blocked" None) eq_refl).
Defined.

Lemma get_property_Undefined (A B : Type) (table : list (string * A))
    (table' : list (string * B)) (key : string) :
  List.map fst table = List.map fst table' ->
  get_property table key = Undefined ->
  get_property table' key = Undefined.
Proof.
  intros Hkeys. unfold get_property.
  assert (forall t : list (string * A), forall t' : list (string * B),
             List.map fst t = List.map fst t' ->
             own_property t key = None -> own_property t' key = None) as Hown.
  { induction t as [|[k v] t IH]; intros [|[k' v'] t'] E; simpl in *;
      try discriminate; [reflexivity|].
    injection E as -> E. destruct (String.eqb k' key); [discriminate|].
    now apply IH. }
  destruct (own_property table key) eqn:E; [discriminate|].
  rewrite (Hown _ _ Hkeys E).
  destruct (existsb (String.eqb key) Object_prototype); [discriminate | reflexivity].
Qed.

(** X27.  [getStatusClass] looks the status up and then falls back
    ([{...}[status] || gray]): for every status on which [_calculateColor]
    throws, and for the absent and the empty status, it returns the gray
    classes of "Not Started". *)
Theorem getStatusClass_falls_back_where__calculateColor_throws :
  (forall node : FractalNode.t,
      FractalAlgorithm._calculateColor node = TypeError ->
      exists status,
        Task.status (FractalNode.task node) = Some status
        /\ FocusARApp.getStatusClass (Some status)
           = FocusARApp.ClassNames "bg-gray-100 text-gray-800")
  /\ FocusARApp.getStatusClass None
     = FocusARApp.ClassNames "bg-gray-100 text-gray-800"
  /\ FocusARApp.getStatusClass (Some "")
     = FocusARApp.ClassNames "bg-gray-100 text-gray-800".
Proof.
  split; [|split; reflexivity].
  intros node H. unfold FractalAlgorithm._calculateColor in H.
  destruct (Task.status (FractalNode.task node)) as [status|]; [|discriminate].
  exists status. split; [reflexivity|].
  destruct (Js.truthy status) eqn:Et; [|discriminate].
  destruct (get_property FractalAlgorithm.baseColors status) as [[[cr cg] cb]| |] eqn:E;
    try discriminate.
  unfold FocusARApp.getStatusClass.
  now rewrite (@get_property_Undefined _ _ FractalAlgorithm.baseColors
                 FocusARApp.statusClasses status eq_refl E).
Qed.

Lemma getStatusClass_falls_back_where__calculateColor_throws_witness :
  FractalAlgorithm._calculateColor (FractalNode.new archived_task 1) = TypeError
  /\ FocusARApp.getStatusClass (Task.status archived_task)
     = FocusARApp.ClassNames "bg-gray-100 text-gray-800".
Proof.
  split; [reflexivity|].
  destruct (proj1 getStatusClass_falls_back_where__calculateColor_throws
              (FractalNode.new archived_task 1) eq_refl)
    as (status & Hs & Hclass).
  injection Hs as <-. exact Hclass.
Defined.

(** ** Parents *)

Lemma has_set_mono (V : Type) (k k0 : Map.key) (v : V) (map : Map.t V) :
  Map.has k0 map = true -> Map.has k0 (Map.set k v map) = true.
Proof.
  intros H. apply has_keys. rewrite keys_set. apply has_keys in H.
  destruct (Map.has k map); [exact H | apply in_or_app; now left].
Qed.

Lemma parents_present_set (k : Map.key) (task : TaskData.t) (map : Map.t TaskData.t) :
  parents_present map ->
  (TaskData.truthy (TaskData.parentId task) = true ->
   Map.has (TaskData.parentId task) map = true) ->
  parents_present (Map.set k task map).
Proof.
  intros Hpp Hp k0 t Hin Ht. apply has_set_mono.
  apply In_set in Hin. destruct Hin as [E|Hin].
  - injection E as -> ->. now apply Hp.
  - now apply Hpp with k0.
Qed.

(** X28.  That every task which names a parent names a key of the map is
    kept by [addTask] and [updateTask], whether they return or throw, and
    by [deleteTask] on a map whose keys are the ids and whose parent
    links have no cycle. *)
Theorem parents_stay_present (st : TaskManager.State) :
  parents_present (TaskManager.tasks (TaskManager.this st)) ->
  (forall task,
      parents_present
        (TaskManager.tasks (TaskManager.this (snd (TaskManager.addTask task st)))))
  /\ (forall taskId updates,
         parents_present
           (TaskManager.tasks
              (TaskManager.this (snd (TaskManager.updateTask taskId updates st)))))
  /\ (forall rank bound fuel taskId outcome st',
         well_keyed (TaskManager.tasks (TaskManager.this st)) ->
         ranked rank bound (TaskManager.tasks (TaskManager.this st)) ->
         (bound < fuel)%nat ->
         TaskManager.deleteTask fuel taskId st = Some (outcome, st') ->
         parents_present (TaskManager.tasks (TaskManager.this st'))).
Proof.
  intros Hpp. split; [|split].
  - intros task.
    destruct (TaskManager.validateTask (TaskManager.this st) task) eqn:Hvalid.
    + rewrite (addTask_valid task st Hvalid).
      apply validateTask_spec in Hvalid. destruct Hvalid as (_ & _ & _ & Hp).
      destruct (full (TaskManager.localStorage st)); simpl;
        apply parents_present_set; auto.
    + unfold TaskManager.addTask, TaskManager.try_catch, TaskManager.bind,
        TaskManager.self. rewrite Hvalid. exact Hpp.
  - intros taskId updates. rewrite updateTask_run.
    destruct (Map.get taskId (TaskManager.tasks (TaskManager.this st)))
      as [task|]; [|exact Hpp].
    simpl.
    destruct (TaskManager.validateTask _ _) eqn:Hvalid; [|exact Hpp].
    apply validateTask_spec in Hvalid. destruct Hvalid as (_ & _ & _ & Hp).
    destruct (full (TaskManager.localStorage st)); simpl;
      apply parents_present_set; auto.
  - intros rank bound fuel taskId outcome st' Hwk Hrk Hfuel Hrun.
    rewrite deleteTask_run in Hrun.
    destruct (Map.has taskId (TaskManager.tasks (TaskManager.this st)));
      [|injection Hrun as _ <-; exact Hpp].
    destruct (@deleteTaskAndChildren_deletes_subtree rank bound fuel taskId
                (TaskManager.tasks (TaskManager.this st)) Hwk Hrk ltac:(lia))
      as (keep & Hdel & Hkeep).
    rewrite Hdel in Hrun.
    assert (parents_present
              (filter keep (TaskManager.tasks (TaskManager.this st)))) as Hres.
    { intros k task Hin Ht. apply filter_In in Hin. destruct Hin as [Hin Hk].
      specialize (Hpp k task Hin Ht). apply has_keys in Hpp.
      apply in_map_iff in Hpp. destruct Hpp as [[p tp] [E Hinp]]. simpl in E.
      subst p.
      apply has_keys. apply in_map_iff. exists (TaskData.parentId task, tp).
      split; [reflexivity|]. apply filter_In. split; [exact Hinp|].
      apply (Hkeep _ Hinp). simpl. intros Hu.
      apply (Hkeep _ Hin) in Hk. apply Hk. simpl.
      now apply under_child with task. }
    destruct (full (TaskManager.localStorage st));
      injection Hrun as _ <-; exact Hres.
Qed.

Lemma parents_stay_present_witness :
  parents_present
    (TaskManager.tasks
       (TaskManager.this
          (snd (TaskManager.updateTask (Some "2") (new_parent "1.1") family))))
  /\ exists st',
       TaskManager.deleteTask 6 (Some "1") family = Some (Return tt, st')
       /\ parents_present (TaskManager.tasks (TaskManager.this st')).
Proof.
  assert (parents_present (TaskManager.tasks (TaskManager.this family))) as Hpp.
  { given_map. }
  split.
  - exact (proj1 (proj2 (@parents_stay_present family Hpp)) (Some "2") (new_parent "1.1")).
  - assert (exists st',
               TaskManager.deleteTask 6 (Some "1") family = Some (Return tt, st'))
      as [st' Hrun] by (vm_compute; eexists; reflexivity).
    exists st'. split; [exact Hrun|].
    apply (proj2 (proj2 (@parents_stay_present family Hpp)) key_length 5%nat 6%nat
             (Some "1") (Return tt) st'); [given_map | given_map | lia | exact Hrun].
Defined.
